(** * fsynctest: the committed-file write protocol

    A shallow embedding of [fsynctest.cpp].  The program talks to a POSIX
    kernel through [open], [openat], [read], [write], [fsync], [close],
    [renameat] and [unlinkat]; the kernel is modelled here as a state
    ([World]) and one total function per system call, with the C calling
    convention: a call returns an integer, [-1] on failure, and leaves the
    reason in [errno].  The C++ layer ([BaseFd], [DirFd], [WriteFd],
    [CommittedFile], [readFile], [main]) is translated function by function
    on top of it, exceptions as a result type and destructors as explicit
    scope exits. *)

From Stdlib Require Import ZArith Ascii String List Lia.
From stdpp Require Import base option list gmap strings.

Open Scope string_scope.
Open Scope list_scope.
Open Scope Z_scope.

(** ** Strings and the libc path helpers *)

Module Libc.

Definition is_slash (c : ascii) : bool := Ascii.eqb c "/"%char.

(** The pieces of a path between its slashes, empty ones included: a//b/
    gives a, the empty string, b and the empty string. *)
Fixpoint components (s : string) : list string :=
  match s with
  | EmptyString => [EmptyString]
  | String c s' =>
      if is_slash c then EmptyString :: components s'
      else match components s' with
           | x :: xs => String c x :: xs
           | [] => [String c EmptyString]
           end
  end.

Definition is_empty (s : string) : bool :=
  match s with EmptyString => true | _ => false end.

Fixpoint no_slash (s : string) : bool :=
  match s with
  | EmptyString => true
  | String c s' => negb (is_slash c) && no_slash s'
  end.

Fixpoint drop_empty (cs : list string) : list string :=
  match cs with
  | c :: cs' => if is_empty c then drop_empty cs' else cs
  | [] => []
  end.

(** Drop the empty strings at the end of a list (the trailing slashes). *)
Definition strip_trailing (cs : list string) : list string :=
  rev (drop_empty (rev cs)).

Fixpoint join_slash (cs : list string) : string :=
  match cs with
  | [] => EmptyString
  | [c] => c
  | c :: cs' => c +:+ "/" +:+ join_slash cs'
  end.

(** [basename(3)] of <libgen.h>: trailing slashes are not part of the name,
    the empty path is ["."], a path of slashes only is ["/"]. *)
Definition basename (path : string) : string :=
  match strip_trailing (components path) with
  | [] => if is_empty path then "." else "/"
  | cs => List.last cs "."
  end.

(** [dirname(3)]: the path up to, not including, the slashes before the last
    component; ["."] when there is none, ["/"] when only slashes remain. *)
Definition dirname (path : string) : string :=
  match strip_trailing (components path) with
  | [] => if is_empty path then "." else "/"
  | cs =>
      let init := removelast cs in
      match strip_trailing init with
      | [] => match init with [] => "." | _ => "/" end
      | ds => join_slash ds
      end
  end.

Definition is_digit (c : ascii) : bool :=
  let n := nat_of_ascii c in (48 <=? n)%nat && (n <=? 57)%nat.

Definition digit_val (c : ascii) : Z := Z.of_nat (nat_of_ascii c) - 48.

(** [isspace(3)] in the C locale: space, \t, \n, \v, \f, \r. *)
Definition is_space (c : ascii) : bool :=
  let n := nat_of_ascii c in (n =? 32)%nat || ((9 <=? n)%nat && (n <=? 13)%nat).

Fixpoint skip_space (s : string) : string :=
  match s with
  | String c s' => if is_space c then skip_space s' else s
  | EmptyString => s
  end.

(** The value of the decimal digits at the start of [s], from [acc]. *)
Fixpoint digits_value (acc : Z) (s : string) : Z :=
  match s with
  | String c s' => if is_digit c then digits_value (10 * acc + digit_val c) s' else acc
  | EmptyString => acc
  end.

(** Reduce an integer to the range of a 32-bit [int]. *)
Definition to_int (z : Z) : Z := (z + 2 ^ 31) mod 2 ^ 32 - 2 ^ 31.

(** [atoi(3)]: white space, an optional sign, then the decimal digits that
    follow; whatever comes after them is ignored, and no digits at all give
    [0].  The result is an [int]. *)
Definition atoi (s : string) : Z :=
  match skip_space s with
  | String "-"%char s' => to_int (- digits_value 0 s')
  | String "+"%char s' => to_int (digits_value 0 s')
  | s' => to_int (digits_value 0 s')
  end.

End Libc.

(** ** The kernel: file system, descriptors, system calls *)

Module Posix.

Definition bytes := list Byte.byte.

(** *** Error numbers and flags (Linux values) *)

Definition EPERM : Z := 1.
Definition ENOENT : Z := 2.
Definition EINTR : Z := 4.
Definition EIO : Z := 5.
Definition EBADF : Z := 9.
Definition ENOMEM : Z := 12.
Definition EACCES : Z := 13.
Definition EBUSY : Z := 16.
Definition ENOTDIR : Z := 20.
Definition EISDIR : Z := 21.
Definition ENFILE : Z := 23.
Definition EMFILE : Z := 24.
Definition ENOSPC : Z := 28.
Definition EROFS : Z := 30.
Definition EDQUOT : Z := 122.

Definition O_RDONLY : Z := 0.
Definition O_WRONLY : Z := 1.
Definition O_RDWR : Z := 2.
Definition O_ACCMODE : Z := 3.
Definition O_CREAT : Z := 64.
Definition O_TRUNC : Z := 512.
Definition O_CLOEXEC : Z := 524288.

Definition S_IRUSR : Z := 256.
Definition S_IWUSR : Z := 128.
Definition S_IRGRP : Z := 32.
Definition S_IROTH : Z := 4.

Definition has_flag (flags f : Z) : bool := negb (Z.land flags f =? 0).
Definition wants_write (flags : Z) : bool := negb (Z.land flags O_ACCMODE =? O_RDONLY).
Definition wants_read (flags : Z) : bool := negb (Z.land flags O_ACCMODE =? O_WRONLY).

(** *** What the program cannot control

    Failures that depend on the state of the file system (a missing name, a
    directory where a file is expected) are computed from the state.  All
    other failures (a full disk, a quota, a permission, a signal, the
    descriptor limit) are decided by a schedule that the world carries: each
    system call consumes one entry.  [ENOENT] is not among them: the kernel
    reports it only for a name that is not there. *)

Inductive fault :=
| F_EPERM | F_EINTR | F_EIO | F_ENOMEM | F_EACCES
| F_ENFILE | F_EMFILE | F_ENOSPC | F_EROFS | F_EDQUOT.

Definition fault_errno (f : fault) : Z :=
  match f with
  | F_EPERM => EPERM | F_EINTR => EINTR | F_EIO => EIO | F_ENOMEM => ENOMEM
  | F_EACCES => EACCES | F_ENFILE => ENFILE | F_EMFILE => EMFILE
  | F_ENOSPC => ENOSPC | F_EROFS => EROFS | F_EDQUOT => EDQUOT
  end.

(** What happens to the next system call: it runs to completion, it fails,
    or (for [read] and [write]) it transfers at most [n] bytes. *)
Inductive fate :=
| Smooth
| Fails (f : fault)
| Short (n : nat).

(** *** The name space

    The program never creates, removes or renames a directory, so the tree of
    directories is a fixed part of the environment; regular files live in a
    separate, mutable table.  [strerror] is the libc table of messages and
    [ctime] the text of the wall clock at a given moment. *)

Record Env := {
  root : nat;
  cwd : nat;
  parent : nat -> nat;
  subdir : nat -> string -> option nat;
  strerror : Z -> string;
  ctime : nat -> list Byte.byte
}.

Inductive lookup :=
| AtDir (d : nat)                 (* the path names directory [d] *)
| AtName (d : nat) (n : string)   (* the path names entry [n] of [d], which is not a directory *)
| NotDir (d : nat) (n : string).  (* a component [n] of [d] that is followed by a slash is not a directory *)

Definition step_dir (e : Env) (d : nat) (c : string) : option nat :=
  if Libc.is_empty c then Some d
  else if String.eqb c "." then Some d
  else if String.eqb c ".." then Some (parent e d)
  else subdir e d c.

Fixpoint walk (e : Env) (d : nat) (cs : list string) : lookup :=
  match cs with
  | [] => AtDir d
  | [c] =>
      match step_dir e d c with
      | Some d' => AtDir d'
      | None => AtName d c
      end
  | c :: cs' =>
      match step_dir e d c with
      | Some d' => walk e d' cs'
      | None => NotDir d c
      end
  end.

Definition is_absolute (path : string) : bool :=
  match path with
  | String c _ => Libc.is_slash c
  | EmptyString => false
  end.

(** Path resolution from directory [start]; the empty path names nothing. *)
Definition namei (e : Env) (start : nat) (path : string) : option lookup :=
  if Libc.is_empty path then None
  else Some (walk e (if is_absolute path then root e else start) (Libc.components path)).

(** *** The state *)

Inductive openfile :=
| ODir (d : nat)
| OFile (i : nat) (pos : nat) (rd wr : bool).

Inductive Call :=
| COpen (path : string) (flags : Z)
| COpenat (dfd : Z) (path : string) (flags mode : Z)
| CRead (fd : Z) (count : nat)
| CWrite (fd : Z) (buf : bytes)
| CFsync (fd : Z)
| CClose (fd : Z)
| CRenameat (olddfd : Z) (old : string) (newdfd : Z) (new : string)
| CUnlinkat (dfd : Z) (path : string) (flags : Z).

(** A call as the process sees it: what was asked, what came back, and the
    value of [errno] when the call returned. *)
Record Event := { ev_call : Call; ev_ret : Z; ev_errno : Z }.

Record World := {
  env : Env;
  files : gmap (nat * string) nat;     (* (directory, name) to inode *)
  inodes : gmap nat (list Byte.byte);  (* inode to contents *)
  next_ino : nat;
  fdtab : gmap Z openfile;
  next_fd : nat;
  errno : Z;
  sched : list fate;
  trace : list Event
}.

Definition set_files (m : gmap (nat * string) nat) (w : World) : World :=
  {| env := env w; files := m; inodes := inodes w; next_ino := next_ino w;
     fdtab := fdtab w; next_fd := next_fd w; errno := errno w;
     sched := sched w; trace := trace w |}.

Definition set_inodes (m : gmap nat (list Byte.byte)) (w : World) : World :=
  {| env := env w; files := files w; inodes := m; next_ino := next_ino w;
     fdtab := fdtab w; next_fd := next_fd w; errno := errno w;
     sched := sched w; trace := trace w |}.

Definition set_next_ino (n : nat) (w : World) : World :=
  {| env := env w; files := files w; inodes := inodes w; next_ino := n;
     fdtab := fdtab w; next_fd := next_fd w; errno := errno w;
     sched := sched w; trace := trace w |}.

Definition set_fdtab (m : gmap Z openfile) (w : World) : World :=
  {| env := env w; files := files w; inodes := inodes w; next_ino := next_ino w;
     fdtab := m; next_fd := next_fd w; errno := errno w;
     sched := sched w; trace := trace w |}.

Definition set_next_fd (n : nat) (w : World) : World :=
  {| env := env w; files := files w; inodes := inodes w; next_ino := next_ino w;
     fdtab := fdtab w; next_fd := n; errno := errno w;
     sched := sched w; trace := trace w |}.

Definition set_errno (e : Z) (w : World) : World :=
  {| env := env w; files := files w; inodes := inodes w; next_ino := next_ino w;
     fdtab := fdtab w; next_fd := next_fd w; errno := e;
     sched := sched w; trace := trace w |}.

Definition set_sched (s : list fate) (w : World) : World :=
  {| env := env w; files := files w; inodes := inodes w; next_ino := next_ino w;
     fdtab := fdtab w; next_fd := next_fd w; errno := errno w;
     sched := s; trace := trace w |}.

Definition log (ev : Event) (w : World) : World :=
  {| env := env w; files := files w; inodes := inodes w; next_ino := next_ino w;
     fdtab := fdtab w; next_fd := next_fd w; errno := errno w;
     sched := sched w; trace := trace w ++ [ev] |}.

Definition next_fate (w : World) : fate * World :=
  match sched w with
  | [] => (Smooth, w)
  | f :: s => (f, set_sched s w)
  end.

(** A call returns [r]; a failing call returns [-1] and sets [errno]. *)
Definition finish (c : Call) (r : Z) (w : World) : Z * World :=
  (r, log {| ev_call := c; ev_ret := r; ev_errno := errno w |} w).

Definition fail (c : Call) (e : Z) (w : World) : Z * World :=
  finish c (-1) (set_errno e w).

(** The directory a path given to an [*at] call starts from: an absolute path
    ignores the descriptor. *)
Definition at_dir (w : World) (dfd : Z) (path : string) : Z + nat :=
  if is_absolute path then inr (root (env w))
  else match fdtab w !! dfd with
       | Some (ODir d) => inr d
       | Some (OFile _ _ _ _) => inl ENOTDIR
       | None => inl EBADF
       end.

(** The error for a path with a component that is not a directory. *)
Definition notdir_errno (w : World) (d : nat) (n : string) : Z :=
  match files w !! (d, n) with
  | Some _ => ENOTDIR
  | None => ENOENT
  end.

Definition alloc_fd (c : Call) (o : openfile) (w : World) : Z * World :=
  let fd := Z.of_nat (next_fd w) in
  finish c fd (set_next_fd (S (next_fd w)) (set_fdtab (<[fd := o]> (fdtab w)) w)).

(** The common part of [open] and [openat], after the schedule was asked. *)
Definition open_from (c : Call) (start : nat) (path : string) (flags : Z)
    (w : World) : Z * World :=
  match namei (env w) start path with
  | None => fail c ENOENT w
  | Some (NotDir d n) => fail c (notdir_errno w d n) w
  | Some (AtDir d) =>
      if wants_write flags || has_flag flags O_CREAT then fail c EISDIR w
      else alloc_fd c (ODir d) w
  | Some (AtName d n) =>
      match files w !! (d, n) with
      | Some i =>
          let w1 := if has_flag flags O_TRUNC && wants_write flags
                    then set_inodes (<[i := []]> (inodes w)) w else w in
          alloc_fd c (OFile i 0 (wants_read flags) (wants_write flags)) w1
      | None =>
          if has_flag flags O_CREAT then
            let i := next_ino w in
            let w1 := set_next_ino (S i)
                        (set_inodes (<[i := []]> (inodes w))
                           (set_files (<[(d, n) := i]> (files w)) w)) in
            alloc_fd c (OFile i 0 (wants_read flags) (wants_write flags)) w1
          else fail c ENOENT w
      end
  end.

Definition sys_open (path : string) (flags : Z) (w0 : World) : Z * World :=
  let c := COpen path flags in
  let '(ft, w) := next_fate w0 in
  match ft with
  | Fails f => fail c (fault_errno f) w
  | _ => open_from c (cwd (env w)) path flags w
  end.

Definition sys_openat (dfd : Z) (path : string) (flags mode : Z) (w0 : World)
    : Z * World :=
  let c := COpenat dfd path flags mode in
  let '(ft, w) := next_fate w0 in
  match ft with
  | Fails f => fail c (fault_errno f) w
  | _ =>
      match at_dir w dfd path with
      | inl e => fail c e w
      | inr start => open_from c start path flags w
      end
  end.

(** [read] on a regular file returns [0] only at the end of the file: a
    short read still delivers one byte. *)
Definition sys_read (fd : Z) (count : nat) (w0 : World) : Z * bytes * World :=
  let c := CRead fd count in
  let '(ft, w) := next_fate w0 in
  match ft with
  | Fails f => let '(r, w') := fail c (fault_errno f) w in (r, [], w')
  | _ =>
      match fdtab w !! fd with
      | None => let '(r, w') := fail c EBADF w in (r, [], w')
      | Some (ODir _) => let '(r, w') := fail c EISDIR w in (r, [], w')
      | Some (OFile i pos rd wr) =>
          if rd then
            let n := match ft with Short k => Nat.min (Nat.max k 1) count | _ => count end in
            let chunk := take n (drop pos (default [] (inodes w !! i))) in
            let w1 := set_fdtab (<[fd := OFile i (pos + length chunk) rd wr]> (fdtab w)) w in
            let '(r, w') := finish c (Z.of_nat (length chunk)) w1 in (r, chunk, w')
          else let '(r, w') := fail c EBADF w in (r, [], w')
      end
  end.

(** The contents of a file after [chunk] is written at offset [pos]; a gap
    beyond the old end reads as zeros. *)
Definition write_at (pos : nat) (chunk data : bytes) : bytes :=
  match chunk with
  | [] => data
  | _ => resize pos Byte.x00 data ++ chunk ++ drop (pos + length chunk) data
  end.

(** [write] may accept fewer bytes than it is given. *)
Definition sys_write (fd : Z) (buf : bytes) (w0 : World) : Z * World :=
  let c := CWrite fd buf in
  let '(ft, w) := next_fate w0 in
  match ft with
  | Fails f => fail c (fault_errno f) w
  | _ =>
      match fdtab w !! fd with
      | Some (OFile i pos rd true) =>
          let n := match ft with Short k => Nat.min k (length buf) | _ => length buf end in
          let chunk := take n buf in
          let data := default [] (inodes w !! i) in
          let w1 := set_inodes (<[i := write_at pos chunk data]> (inodes w))
                      (set_fdtab (<[fd := OFile i (pos + length chunk) rd true]> (fdtab w)) w) in
          finish c (Z.of_nat (length chunk)) w1
      | _ => fail c EBADF w
      end
  end.

(** Stable storage is not part of the state: [fsync] only succeeds or fails. *)
Definition sys_fsync (fd : Z) (w0 : World) : Z * World :=
  let c := CFsync fd in
  let '(ft, w) := next_fate w0 in
  match ft with
  | Fails f => fail c (fault_errno f) w
  | _ =>
      match fdtab w !! fd with
      | Some _ => finish c 0 w
      | None => fail c EBADF w
      end
  end.

(** The descriptor is released also when [close] reports an error. *)
Definition sys_close (fd : Z) (w0 : World) : Z * World :=
  let c := CClose fd in
  let '(ft, w) := next_fate w0 in
  match fdtab w !! fd with
  | None => fail c EBADF w
  | Some _ =>
      let w1 := set_fdtab (delete fd (fdtab w)) w in
      match ft with
      | Fails f => fail c (fault_errno f) w1
      | _ => finish c 0 w1
      end
  end.

(** A path as an operand of [renameat] or [unlinkat]. *)
Definition at_lookup (w : World) (dfd : Z) (path : string) : Z + lookup :=
  match at_dir w dfd path with
  | inl e => inl e
  | inr start =>
      match namei (env w) start path with
      | None => inl ENOENT
      | Some l => inr l
      end
  end.

(** Renaming a regular file.  The new name is bound to the inode of the old
    one and the old name disappears, in one step; when both already name the
    same inode nothing happens. *)
Definition sys_renameat (olddfd : Z) (old : string) (newdfd : Z) (new : string)
    (w0 : World) : Z * World :=
  let c := CRenameat olddfd old newdfd new in
  let '(ft, w) := next_fate w0 in
  match ft with
  | Fails f => fail c (fault_errno f) w
  | _ =>
      match at_lookup w olddfd old, at_lookup w newdfd new with
      | inl e, _ => fail c e w
      | inr (NotDir d n), _ => fail c (notdir_errno w d n) w
      | inr (AtDir _), _ => fail c EBUSY w
      | inr (AtName d1 n1), new_l =>
          match files w !! (d1, n1) with
          | None => fail c ENOENT w
          | Some i =>
              match new_l with
              | inl e => fail c e w
              | inr (NotDir d n) => fail c (notdir_errno w d n) w
              | inr (AtDir _) => fail c EISDIR w
              | inr (AtName d2 n2) =>
                  if bool_decide (files w !! (d2, n2) = Some i) then finish c 0 w
                  else finish c 0
                         (set_files (<[(d2, n2) := i]> (delete (d1, n1) (files w))) w)
              end
          end
      end
  end.

(** [unlinkat] without [AT_REMOVEDIR]. *)
Definition sys_unlinkat (dfd : Z) (path : string) (flags : Z) (w0 : World)
    : Z * World :=
  let c := CUnlinkat dfd path flags in
  let '(ft, w) := next_fate w0 in
  match ft with
  | Fails f => fail c (fault_errno f) w
  | _ =>
      match at_lookup w dfd path with
      | inl e => fail c e w
      | inr (NotDir d n) => fail c (notdir_errno w d n) w
      | inr (AtDir _) => fail c EISDIR w
      | inr (AtName d n) =>
          match files w !! (d, n) with
          | None => fail c ENOENT w
          | Some _ => finish c 0 (set_files (delete (d, n) (files w)) w)
          end
      end
  end.

(** What a name in directory [d] is bound to, if it is a regular file. *)
Definition entry (w : World) (d : nat) (name : string) : option nat :=
  match namei (env w) d name with
  | Some (AtName d' n) => files w !! (d', n)
  | _ => None
  end.

(** The contents of the regular file a path names, from directory [d]. *)
Definition contents (w : World) (d : nat) (path : string) : option bytes :=
  match entry w d path with
  | Some i => Some (default [] (inodes w !! i))
  | None => None
  end.

End Posix.

(** ** The program *)

Module Fsynctest.
Import Posix.

(** *** Exceptions

    [std::system_error(code, std::system_category(), what)].  A computation
    returns, throws, or runs out of the fuel that bounds its loops. *)

Record system_error := { code : Z; what : string }.

Inductive Res (A : Type) :=
| Ret (a : A)
| Throw (e : system_error)
| Diverge.
Arguments Ret {A} a.
Arguments Throw {A} e.
Arguments Diverge {A}.

Definition M (S A : Type) : Type := S -> Res A * S.

Definition ret {S A} (a : A) : M S A := fun s => (Ret a, s).

Definition bind {S A B} (m : M S A) (k : A -> M S B) : M S B :=
  fun s =>
    match m s with
    | (Ret a, s') => k a s'
    | (Throw e, s') => (Throw e, s')
    | (Diverge, s') => (Diverge, s')
    end.

Notation "m >> k" := (bind m (fun _ => k)) (at level 90, right associativity).

(** *** Error messages *)

(** The double quote character, as a string. *)
Definition dq : string := String (ascii_of_nat 34) EmptyString.

Definition buildCommittedFileError (strerror : Z -> string)
    (func directory file1 file2 : string) (error : Z) : string :=
  let os := func +:+ "(" +:+ dq +:+ directory in
  let os := if Libc.is_empty file1 then os else os +:+ "/" +:+ file1 in
  let os := if Libc.is_empty file2 then os
            else os +:+ dq +:+ ", " +:+ dq +:+ directory +:+ "/" +:+ file2 in
  os +:+ dq +:+ "): " +:+ strerror error.

Definition buildCommittedFileReadError (strerror : Z -> string)
    (func file : string) (error : Z) : string :=
  let os := func +:+ "(" +:+ dq +:+ file +:+ dq +:+ ") " in
  os +:+ strerror error.

(** *** Path split *)

Definition dirName (filePath : string) : string := Libc.dirname filePath.
Definition baseName (filePath : string) : string := Libc.basename filePath.

(** *** BaseFd, DirFd, WriteFd

    A handle is a value; a member function runs on a pair of the handle and
    the world and may change both, also when it throws. *)

Record BaseFd := { directory : string; file : string; fd : Z }.

Definition set_fd (n : Z) (this : BaseFd) : BaseFd :=
  {| directory := directory this; file := file this; fd := n |}.

Definition commit_error (w : World) (func dir file1 file2 : string) : system_error :=
  {| code := errno w;
     what := buildCommittedFileError (strerror (env w)) func dir file1 file2 (errno w) |}.

(** [BaseFd::~BaseFd] *)
Definition BaseFd_dtor (this : BaseFd) (w : World) : World :=
  if 0 <=? fd this then snd (sys_close (fd this) w) else w.

(** [BaseFd::sync] *)
Definition BaseFd_sync : M (BaseFd * World) unit :=
  fun '(this, w) =>
    let '(r, w1) := sys_fsync (fd this) w in
    if r =? -1
    then (Throw (commit_error w1 "fsync" (directory this) (file this) EmptyString), (this, w1))
    else (Ret tt, (this, w1)).

(** [BaseFd::close] *)
Definition BaseFd_close : M (BaseFd * World) unit :=
  fun '(this, w) =>
    if 0 <=? fd this then
      let copy := fd this in
      let this := set_fd (-1) this in
      let '(r, w1) := sys_close copy w in
      if r =? -1
      then (Throw (commit_error w1 "close" (directory this) (file this) EmptyString), (this, w1))
      else (Ret tt, (this, w1))
    else (Ret tt, (this, w)).

Definition NO_FILE : string := EmptyString.

(** [DirFd::DirFd]; when the body throws, the base part is destroyed. *)
Definition DirFd_ctor (dir : string) : M World BaseFd :=
  fun w =>
    let '(r, w1) := sys_open dir (Z.lor O_RDONLY O_CLOEXEC) w in
    let this := {| directory := dir; file := NO_FILE; fd := r |} in
    if fd this =? -1
    then (Throw (commit_error w1 "open" dir EmptyString EmptyString), BaseFd_dtor this w1)
    else (Ret this, w1).

(** [DirFd::unlink] *)
Definition DirFd_unlink (name : string) : M (BaseFd * World) unit :=
  fun '(this, w) =>
    let '(r, w1) := sys_unlinkat (fd this) name 0 w in
    if (r =? -1) && negb (errno w1 =? ENOENT)
    then (Throw (commit_error w1 "unlink" (directory this) name EmptyString), (this, w1))
    else (Ret tt, (this, w1)).

(** [DirFd::renameFile] *)
Definition DirFd_renameFile (oldFile newFile : string) : M (BaseFd * World) unit :=
  fun '(this, w) =>
    let '(r, w1) := sys_renameat (fd this) oldFile (fd this) newFile w in
    if r =? -1
    then (Throw (commit_error w1 "rename" (directory this) oldFile newFile), (this, w1))
    else (Ret tt, (this, w1)).

Definition work_flags : Z :=
  Z.lor (Z.lor (Z.lor O_CREAT O_WRONLY) O_TRUNC) O_CLOEXEC.

Definition work_mode : Z :=
  Z.lor (Z.lor (Z.lor S_IRUSR S_IWUSR) S_IRGRP) S_IROTH.

(** [WriteFd::WriteFd] *)
Definition WriteFd_ctor (dirFd : BaseFd) (name : string) : M World BaseFd :=
  fun w =>
    let '(r, w1) := sys_openat (fd dirFd) name work_flags work_mode w in
    let this := {| directory := directory dirFd; file := name; fd := r |} in
    if fd this =? -1
    then (Throw (commit_error w1 "open" (directory this) name EmptyString), BaseFd_dtor this w1)
    else (Ret this, w1).

(** The loop of [WriteFd::writeAll]: [data + written] is [drop written data]
    and [size - written] its length. *)
Fixpoint writeAll_loop (fuel : nat) (this : BaseFd) (data : bytes) (size written : Z)
    (w : World) : Res unit * World :=
  if written <? size then
    match fuel with
    | O => (Diverge, w)
    | S fuel' =>
        let '(r, w1) := sys_write (fd this) (take (Z.to_nat (size - written))
                                               (drop (Z.to_nat written) data)) w in
        if r <? 0
        then (Throw (commit_error w1 "write" (directory this) (file this) EmptyString), w1)
        else writeAll_loop fuel' this data size (written + r) w1
    end
  else (Ret tt, w).

(** Every pass of the loop either moves [written] forward or uses up an
    entry of the schedule, so this many passes are enough. *)
Definition writeAll_fuel (size : nat) (w : World) : nat := size + length (sched w).

(** [WriteFd::writeAll] *)
Definition WriteFd_writeAll (data : bytes) : M (BaseFd * World) unit :=
  fun '(this, w) =>
    let size := length data in
    let '(r, w1) := writeAll_loop (writeAll_fuel size w) this data (Z.of_nat size) 0 w in
    (r, (this, w1)).

(** *** readFile *)

Definition read_error (w : World) (func filePath : string) (error : Z) : system_error :=
  {| code := error;
     what := buildCommittedFileReadError (strerror (env w)) func filePath error |}.

Definition buffer_size : nat := 4096.

(** The [while] loop of [readFile]: returns the stream and the last [len]. *)
Fixpoint readFile_loop (fuel : nat) (fd : Z) (os : bytes) (w : World)
    : Res (bytes * Z) * World :=
  match fuel with
  | O => (Diverge, w)
  | S fuel' =>
      let '(len, chunk, w1) := sys_read fd buffer_size w in
      if 0 <? len then readFile_loop fuel' fd (os ++ chunk) w1
      else (Ret (os, len), w1)
  end.

(** The bytes between the position of a descriptor and the end of its file. *)
Definition remaining (w : World) (fd : Z) : nat :=
  match fdtab w !! fd with
  | Some (OFile i pos _ _) => (length (default [] (inodes w !! i)) - pos)%nat
  | _ => O
  end.

Definition readFile (filePath : string) : M World bytes :=
  fun w =>
    let '(fd, w1) := sys_open filePath (Z.lor O_RDONLY O_CLOEXEC) w in
    if fd =? -1 then (Throw (read_error w1 "open" filePath (errno w1)), w1)
    else
      match readFile_loop (S (remaining w1 fd)) fd [] w1 with
      | (Ret (os, len), w2) =>
          let savedErrno := errno w2 in
          let '(_, w3) := sys_close fd w2 in
          if len <? 0 then (Throw (read_error w3 "read" filePath savedErrno), w3)
          else (Ret os, w3)
      | (Throw e, w2) => (Throw e, w2)
      | (Diverge, w2) => (Diverge, w2)
      end.

(** *** CommittedFile *)

Record CommittedFile := { filePath : string }.

Definition on_dir {A} (m : M (BaseFd * World) A) : M (BaseFd * BaseFd * World) A :=
  fun '(dirFd, workFileFd, w) =>
    let '(r, (dirFd', w')) := m (dirFd, w) in (r, (dirFd', workFileFd, w')).

Definition on_work {A} (m : M (BaseFd * World) A) : M (BaseFd * BaseFd * World) A :=
  fun '(dirFd, workFileFd, w) =>
    let '(r, (workFileFd', w')) := m (workFileFd, w) in (r, (dirFd, workFileFd', w')).

(** The statements of [CommittedFile::write] once both handles exist. *)
Definition write_steps (fileName workFileName : string) (data : bytes)
    : M (BaseFd * BaseFd * World) unit :=
  on_work (WriteFd_writeAll data) >>
  on_work BaseFd_sync >>
  on_work BaseFd_close >>
  on_dir (DirFd_renameFile workFileName fileName) >>
  on_dir BaseFd_sync >>
  on_dir BaseFd_close.

(** [CommittedFile::write]; the handles are destroyed in reverse order when
    the scope is left, by a return or by an exception. *)
Definition CommittedFile_write (this : CommittedFile) (data : bytes) : M World unit :=
  fun w =>
    match DirFd_ctor (dirName (filePath this)) w with
    | (Ret dirFd, w1) =>
        let fileName := baseName (filePath this) in
        let workFileName := fileName +:+ ".work" in
        match WriteFd_ctor dirFd workFileName w1 with
        | (Ret workFileFd, w2) =>
            let '(r, (dirFd', workFileFd', w3)) :=
              write_steps fileName workFileName data (dirFd, workFileFd, w2) in
            (r, BaseFd_dtor dirFd' (BaseFd_dtor workFileFd' w3))
        | (Throw e, w2) => (Throw e, BaseFd_dtor dirFd w2)
        | (Diverge, w2) => (Diverge, w2)
        end
    | (Throw e, w1) => (Throw e, w1)
    | (Diverge, w1) => (Diverge, w1)
    end.

(** [CommittedFile::read] *)
Definition CommittedFile_read (this : CommittedFile) : M World bytes :=
  readFile (filePath this).

(** [CommittedFile::cleanup] *)
Definition CommittedFile_cleanup (this : CommittedFile) : M World unit :=
  fun w =>
    let dir := dirName (filePath this) in
    match DirFd_ctor dir w with
    | (Ret dirFd, w1) =>
        let fileName := baseName (filePath this) in
        let workFileName := fileName +:+ ".work" in
        let '(r, (dirFd', w2)) :=
          (DirFd_unlink workFileName >> BaseFd_close) (dirFd, w1) in
        (r, BaseFd_dtor dirFd' w2)
    | (Throw e, w1) => (Throw e, w1)
    | (Diverge, w1) => (Diverge, w1)
    end.

(** [CommittedFile::CommittedFile] *)
Definition CommittedFile_ctor (path : string) : M World CommittedFile :=
  let this := {| filePath := path |} in
  CommittedFile_cleanup this >> ret this.

(** [CommittedFile::getPath] *)
Definition CommittedFile_getPath (this : CommittedFile) : string := filePath this.

(** *** The driver *)

(** The payload is the text of the current time; the number of system calls
    made so far stands for the clock. *)
Definition getRandomData (w : World) : bytes := ctime (env w) (length (trace w)).

(** A line on standard output; the line of [ElapsedTimeMonitor] carries a
    number of milliseconds that is not modelled. *)
Inductive Output :=
| Line (s : string)
| Elapsed (operation : string).

(** How the process ends: [exit(status)] or a return from [main], an
    exception nobody catches, or no end. *)
Inductive Exit :=
| Exited (status : Z)
| Terminated (e : system_error)
| Hang.

Definition Proc : Type := list Output * World.

Definition usage_line : string := "Usage: fsynctest <filename> <count>".

(** [usage] prints and leaves the process with status 0. *)
Definition usage (p : Proc) : Exit * Proc :=
  (Exited 0, (fst p ++ [Line usage_line], snd p)).

(** [writeFile]; the monitor prints when it is destroyed at the end of the
    function. *)
Definition writeFile (filename : string) : M Proc unit :=
  fun '(out, w) =>
    match CommittedFile_ctor filename w with
    | (Ret cf, w1) =>
        match CommittedFile_write cf (getRandomData w1) w1 with
        | (Ret _, w2) => (Ret tt, (out ++ [Elapsed "Write file"], w2))
        | (Throw e, w2) => (Throw e, (out, w2))
        | (Diverge, w2) => (Diverge, (out, w2))
        end
    | (Throw e, w1) => (Throw e, (out, w1))
    | (Diverge, w1) => (Diverge, (out, w1))
    end.

(** The [for] loop of [main]: [n] more calls of [writeFile]; an exception
    leaves [main] without a handler and ends the process. *)
Fixpoint main_loop (n : nat) (filename : string) (p : Proc) : Exit * Proc :=
  match n with
  | O => (Exited 0, p)
  | S n' =>
      match writeFile filename p with
      | (Ret _, p') => main_loop n' filename p'
      | (Throw e, p') => (Terminated e, p')
      | (Diverge, p') => (Hang, p')
      end
  end.

(** [main]; [argv] holds the program name and the operands. *)
Definition main (argv : list string) (p : Proc) : Exit * Proc :=
  let argc := Z.of_nat (length argv) in
  if negb (argc =? 3) then usage p
  else
    let filename := nth 1 argv EmptyString in
    let count := Libc.atoi (nth 2 argv EmptyString) in
    if count <? 1 then usage p
    else main_loop (Z.to_nat count) filename p.

End Fsynctest.

(** ** Vocabulary of the statements *)

Module Obs.
Import Posix Fsynctest.

Definition event (c : Call) (r : Z) (w : World) : Event :=
  {| ev_call := c; ev_ret := r; ev_errno := errno w |}.

(** From [w] to [w'] exactly the call [c] was made and returned [r]. *)
Definition one_call (c : Call) (r : Z) (w w' : World) : Prop :=
  env w' = env w /\
  trace w' = trace w ++ [event c r w'] /\
  sched w' = tail (sched w) /\
  (r = -1 \/ 0 <= r).

(** From [w] to [w'] the calls [evs] were made, each using up one entry of
    the schedule. *)
Definition run (w w' : World) (evs : list Event) : Prop :=
  env w' = env w /\
  trace w' = trace w ++ evs /\
  sched w' = drop (length evs) (sched w).

(** The files and their contents are the same in [w'] as in [w]; calls may
    have been made. *)
Definition same_fs (w w' : World) : Prop :=
  files w' = files w /\ inodes w' = inodes w /\ env w' = env w /\
  trace w `prefix_of` trace w' /\ (sched w = [] -> sched w' = []).

(** The file table is well formed: inode numbers in use are below the next
    one to be given out, and no inode has two names (no hard links). *)
Definition fs_wf (w : World) : Prop :=
  (forall key i, files w !! key = Some i -> (i < next_ino w)%nat) /\
  (forall k1 k2 i, files w !! k1 = Some i -> files w !! k2 = Some i -> k1 = k2).

End Obs.

(** ** The life of a handle *)

Module Lifetime.
Import Posix Fsynctest.

(** The member functions an owner may call on a handle, in any order and any
    number of times, before the handle is destroyed. *)
Inductive member := MSync | MClose.

Definition call_member (m : member) : M (BaseFd * World) unit :=
  match m with
  | MSync => BaseFd_sync
  | MClose => BaseFd_close
  end.

(** The owner catches whatever a member function throws and goes on. *)
Fixpoint calls (ms : list member) (st : BaseFd * World) : BaseFd * World :=
  match ms with
  | [] => st
  | m :: ms' => calls ms' (snd (call_member m st))
  end.

(** The calls, then the destructor. *)
Definition lifetime (ms : list member) (h : BaseFd) (w : World) : World :=
  let '(h', w') := calls ms (h, w) in BaseFd_dtor h' w'.

(** The descriptors given to [close], in the order of the calls. *)
Fixpoint closes (tr : list Event) : list Z :=
  match tr with
  | [] => []
  | ev :: tr' =>
      match ev_call ev with
      | CClose fd => fd :: closes tr'
      | _ => closes tr'
      end
  end.

End Lifetime.

(** ** Data transfer as seen in the trace *)

Module Transfer.
Import Posix Fsynctest.

(** [evs] is a run of [write] calls on [fd] that hands over [data] from
    offset [off]: each call is given what is left, a call that returns a
    count moves the offset by it, and a call that fails is the last. *)
Fixpoint write_run (fd : Z) (data : bytes) (off : nat) (evs : list Event) : Prop :=
  match evs with
  | [] => True
  | ev :: evs' =>
      ev_call ev = CWrite fd (drop off data) /\
      (off < length data)%nat /\
      (ev_ret ev = -1 /\ evs' = [] \/
       0 <= ev_ret ev <= Z.of_nat (length data - off) /\
       write_run fd data (off + Z.to_nat (ev_ret ev)) evs')
  end.

(** The offset reached after the calls that returned a count. *)
Fixpoint end_offset (off : nat) (evs : list Event) : nat :=
  match evs with
  | [] => off
  | ev :: evs' => end_offset (off + Z.to_nat (ev_ret ev)) evs'
  end.

(** No call of the run failed. *)
Definition all_succeed (evs : list Event) : Prop :=
  Forall (fun ev => ev_ret ev <> -1) evs.

(** The last call of the run failed, leaving [errno] at [e]. *)
Definition ends_in_failure (evs : list Event) (e : Z) : Prop :=
  exists evs0 ev, evs = evs0 ++ [ev] /\ ev_ret ev = -1 /\ ev_errno ev = e /\
                  all_succeed evs0.

(** [evs] is a run of [read] calls on [fd] with a buffer of [count] bytes
    that stops at the first call that does not return a positive count. *)
Definition read_run (fd : Z) (count : nat) (evs : list Event) : Prop :=
  exists evs0 ev,
    evs = evs0 ++ [ev] /\
    Forall (fun e => ev_call e = CRead fd count /\ 0 < ev_ret e) evs0 /\
    ev_call ev = CRead fd count /\ ev_ret ev <= 0.

End Transfer.

(** ** A small world to run the program in *)

Module Demo.
Import Posix Fsynctest.

(** Messages of [strerror] as glibc prints them. *)
Definition demo_strerror (e : Z) : string :=
  if e =? ENOENT then "No such file or directory"
  else if e =? EIO then "Input/output error"
  else if e =? EINTR then "Interrupted system call"
  else if e =? EBADF then "Bad file descriptor"
  else if e =? EACCES then "Permission denied"
  else if e =? ENOTDIR then "Not a directory"
  else if e =? EISDIR then "Is a directory"
  else if e =? ENOSPC then "No space left on device"
  else "Unknown error".

(** A root directory that is also the working directory, with one
    subdirectory [tmp]. *)
Definition demo_env : Env :=
  {| root := 0;
     cwd := 0;
     parent := fun _ => 0%nat;
     subdir := fun d n => if (d =? 0)%nat && String.eqb n "tmp" then Some 1%nat else None;
     strerror := demo_strerror;
     ctime := fun _ => [Byte.x4e; Byte.x6f; Byte.x77; Byte.x0a] |}.

(** No files, the standard descriptors taken, and the schedule [s]. *)
Definition demo_world (s : list fate) : World :=
  {| env := demo_env;
     files := ∅;
     inodes := ∅;
     next_ino := 0;
     fdtab := ∅;
     next_fd := 3;
     errno := 0;
     sched := s;
     trace := [] |}.

(** The same with a file [f] holding [data] in the working directory. *)
Definition demo_world_with (data : bytes) (s : list fate) : World :=
  {| env := demo_env;
     files := {[ (0%nat, "f") := 0%nat ]};
     inodes := {[ 0%nat := data ]};
     next_ino := 1;
     fdtab := ∅;
     next_fd := 3;
     errno := 0;
     sched := s;
     trace := [] |}.

Definition hi : bytes := [Byte.x68; Byte.x69].

Definition demo_handle : BaseFd := {| directory := "."; file := "f.work"; fd := 3 |}.

End Demo.

(** ** The commit protocol as a set of traces *)

Module Protocol.
Import Posix Fsynctest Transfer.

Definition good (c : Call) (ev : Event) : Prop := ev_call ev = c /\ ev_ret ev <> -1.
Definition bad (c : Call) (ev : Event) : Prop := ev_call ev = c /\ ev_ret ev = -1.
Definition made (c : Call) (ev : Event) : Prop := ev_call ev = c.

Definition is_close (ev : Event) : Prop := exists fd, ev_call ev = CClose fd.

Definition is_unlink (ev : Event) : Prop :=
  exists dfd name flags, ev_call ev = CUnlinkat dfd name flags.


Definition is_rename (ev : Event) : Prop :=
  exists d1 old d2 new, ev_call ev = CRenameat d1 old d2 new.

(** What a commit that has not renamed yet may have changed between [w] and
    [w']: nothing, or the work file of directory [d], which then is bound to
    an inode (its old one, or a new one) that holds the first [k] bytes of
    the payload; no other inode has changed. *)
Definition staged_only (w w' : World) (d : nat) (work : string) (data : bytes) : Prop :=
  files w' = files w /\ inodes w' = inodes w
  \/ exists d' n i k,
       namei (env w) d work = Some (AtName d' n) /\
       (files w !! (d', n) = Some i /\ files w' = files w
        \/ files w !! (d', n) = None /\ i = next_ino w /\
           files w' = <[(d', n) := i]> (files w)) /\
       default [] (inodes w' !! i) = take k data /\
       (forall j, j <> i -> inodes w' !! j = inodes w !! j).

(** The outcome of a computation without its value. *)
Definition forget {A} (r : Res A) : Res unit :=
  match r with
  | Ret _ => Ret tt
  | Throw e => Throw e
  | Diverge => Diverge
  end.

(** The calls of a commit that meets no failure, for directory descriptor
    [d], work-file descriptor [f] and the buffers given to [write]. *)
Definition protocol_calls (dir base : string) (d f : Z) (bufs : list bytes)
    : list Call :=
  [COpen dir (Z.lor O_RDONLY O_CLOEXEC);
   COpenat d (base +:+ ".work") (Z.lor (Z.lor (Z.lor O_CREAT O_WRONLY) O_TRUNC) O_CLOEXEC) 420]
  ++ map (CWrite f) bufs
  ++ [CFsync f; CClose f; CRenameat d (base +:+ ".work") d base; CFsync d; CClose d].

Section Traces.
Variable se : Z -> string.
Variables dir base : string.
Variable data : bytes.

Let work : string := base +:+ ".work".
Let c_open : Call := COpen dir (Z.lor O_RDONLY O_CLOEXEC).
Let c_create (d : Z) : Call := COpenat d work work_flags work_mode.
Let c_rename (d : Z) : Call := CRenameat d work d base.

(** The exception for a failed call: its [errno] and the message for the
    operation and its operands. *)
Definition err (func file1 file2 : string) (ev : Event) : system_error :=
  {| code := ev_errno ev;
     what := buildCommittedFileError se func dir file1 file2 (ev_errno ev) |}.

(** The calls up to and including the complete write of the payload. *)
Definition staged (op oa : Event) (ws : list Event) : Prop :=
  good c_open op /\ good (c_create (ev_ret op)) oa /\
  write_run (ev_ret oa) data 0 ws /\ all_succeed ws /\
  end_offset 0 ws = length data.

(** Every way a call of [CommittedFile::write] can go: the result and the
    system calls made, in order.  After the failing call only the
    descriptors still owned by a handle are closed. *)
Inductive write_trace : Res unit -> list Event -> Prop :=
| wt_open op :
    bad c_open op ->
    write_trace (Throw (err "open" EmptyString EmptyString op)) [op]
| wt_create op oa cd :
    good c_open op -> bad (c_create (ev_ret op)) oa ->
    made (CClose (ev_ret op)) cd ->
    write_trace (Throw (err "open" work EmptyString oa)) [op; oa; cd]
| wt_write op oa ws wr cf cd :
    good c_open op -> good (c_create (ev_ret op)) oa ->
    write_run (ev_ret oa) data 0 (ws ++ [wr]) -> all_succeed ws -> ev_ret wr = -1 ->
    made (CClose (ev_ret oa)) cf -> made (CClose (ev_ret op)) cd ->
    write_trace (Throw (err "write" work EmptyString wr)) ([op; oa] ++ ws ++ [wr; cf; cd])
| wt_sync op oa ws fs cf cd :
    staged op oa ws ->
    bad (CFsync (ev_ret oa)) fs ->
    made (CClose (ev_ret oa)) cf -> made (CClose (ev_ret op)) cd ->
    write_trace (Throw (err "fsync" work EmptyString fs)) ([op; oa] ++ ws ++ [fs; cf; cd])
| wt_close op oa ws fs cf cd :
    staged op oa ws ->
    good (CFsync (ev_ret oa)) fs -> bad (CClose (ev_ret oa)) cf ->
    made (CClose (ev_ret op)) cd ->
    write_trace (Throw (err "close" work EmptyString cf)) ([op; oa] ++ ws ++ [fs; cf; cd])
| wt_rename op oa ws fs cf rn cd :
    staged op oa ws ->
    good (CFsync (ev_ret oa)) fs -> good (CClose (ev_ret oa)) cf ->
    bad (c_rename (ev_ret op)) rn ->
    made (CClose (ev_ret op)) cd ->
    write_trace (Throw (err "rename" work base rn)) ([op; oa] ++ ws ++ [fs; cf; rn; cd])
| wt_dirsync op oa ws fs cf rn ds cd :
    staged op oa ws ->
    good (CFsync (ev_ret oa)) fs -> good (CClose (ev_ret oa)) cf ->
    good (c_rename (ev_ret op)) rn -> bad (CFsync (ev_ret op)) ds ->
    made (CClose (ev_ret op)) cd ->
    write_trace (Throw (err "fsync" EmptyString EmptyString ds))
      ([op; oa] ++ ws ++ [fs; cf; rn; ds; cd])
| wt_dirclose op oa ws fs cf rn ds cd :
    staged op oa ws ->
    good (CFsync (ev_ret oa)) fs -> good (CClose (ev_ret oa)) cf ->
    good (c_rename (ev_ret op)) rn -> good (CFsync (ev_ret op)) ds ->
    bad (CClose (ev_ret op)) cd ->
    write_trace (Throw (err "close" EmptyString EmptyString cd))
      ([op; oa] ++ ws ++ [fs; cf; rn; ds; cd])
| wt_done op oa ws fs cf rn ds cd :
    staged op oa ws ->
    good (CFsync (ev_ret oa)) fs -> good (CClose (ev_ret oa)) cf ->
    good (c_rename (ev_ret op)) rn -> good (CFsync (ev_ret op)) ds ->
    good (CClose (ev_ret op)) cd ->
    write_trace (Ret tt) ([op; oa] ++ ws ++ [fs; cf; rn; ds; cd]).

(** The same for the stale cleanup of the constructor. *)
Inductive cleanup_trace : Res unit -> list Event -> Prop :=
| ct_open op :
    bad c_open op ->
    cleanup_trace (Throw (err "open" EmptyString EmptyString op)) [op]
| ct_unlink op ul cd :
    good c_open op -> bad (CUnlinkat (ev_ret op) work 0) ul -> ev_errno ul <> ENOENT ->
    made (CClose (ev_ret op)) cd ->
    cleanup_trace (Throw (err "unlink" work EmptyString ul)) [op; ul; cd]
| ct_close op ul cd :
    good c_open op -> made (CUnlinkat (ev_ret op) work 0) ul ->
    (ev_ret ul = -1 -> ev_errno ul = ENOENT) ->
    bad (CClose (ev_ret op)) cd ->
    cleanup_trace (Throw (err "close" EmptyString EmptyString cd)) [op; ul; cd]
| ct_done op ul cd :
    good c_open op -> made (CUnlinkat (ev_ret op) work 0) ul ->
    (ev_ret ul = -1 -> ev_errno ul = ENOENT) ->
    good (CClose (ev_ret op)) cd ->
    cleanup_trace (Ret tt) [op; ul; cd].
End Traces.

End Protocol.

(** ** The form of an error message *)

Module ErrorForm.
Import Posix Fsynctest.








End ErrorForm.

(** ** The count operand of the driver *)

Module Driver.
Import Posix Fsynctest.

Fixpoint all_digits (s : string) : bool :=
  match s with
  | EmptyString => true
  | String c s' => Libc.is_digit c && all_digits s'
  end.

(** A positive integer in decimal notation, and nothing else: its value. *)
Definition positive_integer (s : string) : option Z :=
  if negb (Libc.is_empty s) && all_digits s then
    let v := Libc.digits_value 0 s in
    if 1 <=? v then Some v else None
  else None.

(** The operands of the command line, the program name being [argv[0]]. *)
Definition filename_arg (argv : list string) : string := nth 1 argv EmptyString.
Definition count_arg (argv : list string) : string := nth 2 argv EmptyString.

End Driver.

(** ** More sample inputs *)

Module Samples.
Import Posix Fsynctest Demo.

(** A handle on descriptor 3 in a world where that descriptor is open on the
    working directory. *)
Definition open_world : World :=
  snd (sys_open "." (Z.lor O_RDONLY O_CLOEXEC) (demo_world [Smooth; Fails F_EIO])).

(** The file [f] holds [hi] and the device is full at the first [write]. *)
Definition full_disk : World := demo_world_with hi [Smooth; Smooth; Fails F_ENOSPC].

Definition ok : bytes := [Byte.x6f; Byte.x6b].

Definition target_f : CommittedFile := {| filePath := "f" |}.
Definition target_tmp_f : CommittedFile := {| filePath := "tmp/f" |}.

End Samples.

(** ** Vocabulary of the further properties *)

Module Effects.
Import Posix Fsynctest Protocol.

(** The descriptor table is well formed: the descriptors in use are not
    negative and below the next one to be given out. *)
Definition fd_wf (w : World) : Prop :=
  forall fd, is_Some (fdtab w !! fd) -> 0 <= fd < Z.of_nat (next_fd w).

(** A rename call that went through. *)
Definition good_rename (ev : Event) : Prop := is_rename ev /\ ev_ret ev <> -1.

(** Between [w] and [w'] a rename call went through. *)
Definition renamed_in (w w' : World) : Prop :=
  exists pre rn post, trace w' = trace w ++ pre ++ rn :: post /\ good_rename rn.

(** Between [w] and [w'] calls may have been made, none of them a rename
    that went through. *)
Definition quiet (w w' : World) : Prop :=
  exists evs, trace w' = trace w ++ evs /\ Forall (fun ev => ~ good_rename ev) evs.

(** The last character of the path is a slash. *)
Fixpoint ends_with_slash (s : string) : bool :=
  match s with
  | EmptyString => false
  | String c EmptyString => Libc.is_slash c
  | String _ s' => ends_with_slash s'
  end.

End Effects.

(** ** More sample worlds *)

Module Samples2.
Import Posix Fsynctest Demo.

(** The file [f] holds [hi]; the seventh system call, the [fsync] of the
    directory in a [write], fails. *)
Definition late_failure : World :=
  demo_world_with hi [Smooth; Smooth; Smooth; Smooth; Smooth; Smooth; Fails F_EIO].

End Samples2.

(** ** An operation that got no further than the [open] of the directory *)

Module Reports.
Import Posix Fsynctest.

(** From [w] to [w'] one call was made, the [open] of [dir]; it failed with
    [errno], which is [ENOENT] unless another failure was scheduled for the
    call, and [r] is the exception for it; no file and no descriptor has
    changed. *)
Definition reports_open_failure (dir : string) (w : World) (r : Res unit) (w' : World)
    : Prop :=
  exists e ev,
    r = Throw e /\ trace w' = trace w ++ [ev] /\
    ev_call ev = COpen dir (Z.lor O_RDONLY O_CLOEXEC) /\ ev_ret ev = -1 /\
    code e = ev_errno ev /\
    what e = buildCommittedFileError (strerror (env w)) "open" dir
               EmptyString EmptyString (ev_errno ev) /\
    (ev_errno ev = ENOENT \/
     exists f s, sched w = Fails f :: s /\ ev_errno ev = fault_errno f) /\
    files w' = files w /\ inodes w' = inodes w /\ fdtab w' = fdtab w.

End Reports.

(** ** A descriptor open for writing, and a kernel that first accepts nothing *)

Module Samples3.
Import Posix Fsynctest Demo.

(** Descriptor 3 is open for writing on the file [f]; the next two [write]
    calls will accept no byte. *)
Definition stalled : World :=
  snd (sys_open "f" O_WRONLY (demo_world_with hi [Smooth; Short 0; Short 0])).

End Samples3.

(** * Properties *)

Import Posix Fsynctest Obs Lifetime Transfer Demo Protocol ErrorForm Driver Samples.

(** ** System calls: one call, one event *)

Ltac kernel_cases :=
  repeat first
    [ progress (simpl in *; subst)
    | match goal with
      | H : (_, _) = (_, _) |- _ => inv H
      | H : context [match ?x with _ => _ end] |- _ => destruct x eqn:?
      | H : context [if ?x then _ else _] |- _ => destruct x eqn:?
      | |- context [match ?x with _ => _ end] => destruct x eqn:?
      end ].

Lemma next_fate_spec w ft w1 :
  next_fate w = (ft, w1) ->
  env w1 = env w /\ trace w1 = trace w /\ sched w1 = tail (sched w) /\
  files w1 = files w /\ inodes w1 = inodes w /\ fdtab w1 = fdtab w /\
  next_ino w1 = next_ino w /\ next_fd w1 = next_fd w /\ errno w1 = errno w.
Proof.
  unfold next_fate. destruct (sched w) eqn:E; intros H; inv H; simpl; rewrite ?E; auto 10.
Qed.

Lemma finish_one c r w w' z :
  finish c r w = (z, w') -> (r = -1 \/ 0 <= r) ->
  z = r /\ env w' = env w /\ trace w' = trace w ++ [event c r w'] /\ sched w' = sched w.
Proof. unfold finish. intros H ?. inv H. simpl. auto. Qed.

Lemma fail_one c e w w' z :
  fail c e w = (z, w') ->
  z = -1 /\ env w' = env w /\ trace w' = trace w ++ [event c (-1) w'] /\
  sched w' = sched w /\ errno w' = e /\ files w' = files w /\ inodes w' = inodes w /\
  fdtab w' = fdtab w.
Proof. unfold fail, finish. intros H. inv H. simpl. auto 10. Qed.

Ltac fate_split :=
  match goal with
  | H : next_fate _ = (_, _) |- _ =>
      apply next_fate_spec in H;
      destruct H as (?Henv & ?Htr & ?Hsch & ?Hfi & ?Hin & ?Hfd & ?Hni & ?Hnf & ?Her)
  end.

Ltac call_done :=
  match goal with
  | H : fail _ _ _ = (_, _) |- _ =>
      apply fail_one in H; destruct H as (-> & ? & ? & ? & ? & ? & ? & ?)
  | H : finish _ _ _ = (_, _) |- _ =>
      apply finish_one in H; [destruct H as (-> & ? & ? & ?) | lia]
  end.

Lemma alloc_fd_one c o w r w' :
  alloc_fd c o w = (r, w') ->
  r = Z.of_nat (next_fd w) /\ env w' = env w /\ trace w' = trace w ++ [event c r w'] /\
  sched w' = sched w /\ files w' = files w /\ inodes w' = inodes w /\
  fdtab w' = <[r := o]> (fdtab w) /\ errno w' = errno w /\ next_ino w' = next_ino w.
Proof. unfold alloc_fd, finish. intros H. inv H. simpl. auto 10. Qed.

Lemma open_from_one c start path flags w r w' :
  open_from c start path flags w = (r, w') ->
  env w' = env w /\ trace w' = trace w ++ [event c r w'] /\ sched w' = sched w /\
  (r = -1 \/ 0 <= r).
Proof.
  unfold open_from. intros H.
  repeat case_match; try call_done; try (apply alloc_fd_one in H; destruct H as (-> & ? & ? & ? & ?));
    simpl in *; repeat split; try congruence; try lia; auto.
Qed.

Lemma sys_open_one path flags w r w' :
  sys_open path flags w = (r, w') -> one_call (COpen path flags) r w w'.
Proof.
  unfold sys_open, one_call. intros H.
  destruct (next_fate w) as [ft w1] eqn:F. fate_split.
  destruct ft; try call_done; try (apply open_from_one in H; destruct H as (? & ? & ? & ?));
    repeat split; try congruence; auto.
Qed.

Lemma sys_openat_one dfd path flags mode w r w' :
  sys_openat dfd path flags mode w = (r, w') -> one_call (COpenat dfd path flags mode) r w w'.
Proof.
  unfold sys_openat, one_call. intros H.
  destruct (next_fate w) as [ft w1] eqn:F. fate_split.
  destruct ft; repeat case_match; try call_done;
    try (apply open_from_one in H; destruct H as (? & ? & ? & ?));
    repeat split; try congruence; auto.
Qed.

Lemma sys_read_one fd count w r chunk w' :
  sys_read fd count w = (r, chunk, w') -> one_call (CRead fd count) r w w'.
Proof.
  unfold sys_read, one_call. intros H.
  destruct (next_fate w) as [ft w1] eqn:F. fate_split.
  repeat case_match; simplify_eq; try call_done; simpl in *;
    repeat split; try congruence; auto; try lia.
Qed.

Lemma sys_write_one fd buf w r w' :
  sys_write fd buf w = (r, w') -> one_call (CWrite fd buf) r w w'.
Proof.
  unfold sys_write, one_call. intros H.
  destruct (next_fate w) as [ft w1] eqn:F. fate_split.
  repeat case_match; simplify_eq; try call_done; simpl in *;
    repeat split; try congruence; auto; try lia.
Qed.

Lemma sys_fsync_one fd w r w' :
  sys_fsync fd w = (r, w') -> one_call (CFsync fd) r w w'.
Proof.
  unfold sys_fsync, one_call. intros H.
  destruct (next_fate w) as [ft w1] eqn:F. fate_split.
  repeat case_match; simplify_eq; try call_done; simpl in *;
    repeat split; try congruence; auto; try lia.
Qed.

Lemma sys_close_one fd w r w' :
  sys_close fd w = (r, w') -> one_call (CClose fd) r w w'.
Proof.
  unfold sys_close, one_call. intros H.
  destruct (next_fate w) as [ft w1] eqn:F. fate_split.
  repeat case_match; simplify_eq; try call_done; simpl in *;
    repeat split; try congruence; auto; try lia.
Qed.

Lemma sys_renameat_one d1 old d2 new w r w' :
  sys_renameat d1 old d2 new w = (r, w') -> one_call (CRenameat d1 old d2 new) r w w'.
Proof.
  unfold sys_renameat, one_call. intros H.
  destruct (next_fate w) as [ft w1] eqn:F. fate_split.
  repeat case_match; simplify_eq; try call_done; simpl in *;
    repeat split; try congruence; auto; try lia.
Qed.

Lemma sys_unlinkat_one dfd path flags w r w' :
  sys_unlinkat dfd path flags w = (r, w') -> one_call (CUnlinkat dfd path flags) r w w'.
Proof.
  unfold sys_unlinkat, one_call. intros H.
  destruct (next_fate w) as [ft w1] eqn:F. fate_split.
  repeat case_match; simplify_eq; try call_done; simpl in *;
    repeat split; try congruence; auto; try lia.
Qed.

(** ** Handles: one descriptor, one close *)

Lemma closes_app tr1 tr2 : closes (tr1 ++ tr2) = closes tr1 ++ closes tr2.
Proof.
  induction tr1 as [|ev tr1 IH]; simpl; [reflexivity|].
  destruct (ev_call ev); simpl; rewrite IH; reflexivity.
Qed.

Lemma closes_one c r w w' :
  one_call c r w w' ->
  closes (trace w') = closes (trace w) ++ match c with CClose fd => [fd] | _ => [] end.
Proof.
  intros (_ & -> & _). rewrite closes_app. simpl. destruct c; reflexivity.
Qed.

Lemma BaseFd_sync_closes h w r h' w' :
  BaseFd_sync (h, w) = (r, (h', w')) ->
  h' = h /\ closes (trace w') = closes (trace w).
Proof.
  unfold BaseFd_sync. destruct (sys_fsync (fd h) w) as [z w1] eqn:E.
  apply sys_fsync_one, closes_one in E. rewrite app_nil_r in E.
  destruct (z =? -1); intros H; inv H; auto.
Qed.

Lemma BaseFd_close_closed h w r h' w' :
  BaseFd_close (h, w) = (r, (h', w')) -> fd h < 0 ->
  r = Ret tt /\ h' = h /\ w' = w.
Proof.
  unfold BaseFd_close. destruct (0 <=? fd h) eqn:E; [lia|].
  intros H _. inv H. auto.
Qed.

Lemma BaseFd_close_open h w r h' w' :
  BaseFd_close (h, w) = (r, (h', w')) -> 0 <= fd h ->
  h' = set_fd (-1) h /\
  exists z, sys_close (fd h) w = (z, w') /\
    (z = -1 /\ r = Throw (commit_error w' "close" (directory h) (file h) EmptyString)
     \/ z <> -1 /\ r = Ret tt).
Proof.
  unfold BaseFd_close. destruct (0 <=? fd h) eqn:E; [|lia].
  destruct (sys_close (fd h) w) as [z w1] eqn:C.
  destruct (z =? -1) eqn:Z; intros H _; inv H; (split; [reflexivity|]);
    exists z; (split; [reflexivity|]); [left | right]; split; auto; lia.
Qed.

Lemma calls_closed ms : forall h w,
  fd h < 0 ->
  fd (fst (calls ms (h, w))) < 0 /\
  closes (trace (snd (calls ms (h, w)))) = closes (trace w).
Proof.
  induction ms as [|m ms IH]; intros h w Hfd; simpl; [auto|].
  destruct (call_member m (h, w)) as [r [h1 w1]] eqn:E. simpl.
  destruct m; simpl in E.
  - apply BaseFd_sync_closes in E as [-> Hc].
    destruct (IH h w1 Hfd) as [? ?]. split; congruence.
  - apply BaseFd_close_closed in E as (_ & -> & ->); auto.
Qed.

Lemma BaseFd_dtor_closed h w : fd h < 0 -> BaseFd_dtor h w = w.
Proof. unfold BaseFd_dtor. destruct (0 <=? fd h) eqn:E; [lia | reflexivity]. Qed.

Lemma BaseFd_dtor_open h w :
  0 <= fd h -> BaseFd_dtor h w = snd (sys_close (fd h) w).
Proof. unfold BaseFd_dtor. destruct (0 <=? fd h) eqn:E; [reflexivity | lia]. Qed.

Lemma lifetime_closes ms : forall h w,
  0 <= fd h ->
  closes (trace (lifetime ms h w)) = closes (trace w) ++ [fd h].
Proof.
  induction ms as [|m ms IH]; intros h w Hfd.
  - unfold lifetime; simpl. rewrite BaseFd_dtor_open by assumption.
    destruct (sys_close (fd h) w) as [z w1] eqn:C. simpl.
    apply sys_close_one, closes_one in C. assumption.
  - unfold lifetime. simpl.
    destruct (call_member m (h, w)) as [r [h1 w1]] eqn:E. simpl.
    destruct m; simpl in E.
    + apply BaseFd_sync_closes in E as [-> Hc].
      specialize (IH h w1 Hfd). unfold lifetime in IH. rewrite IH, Hc. reflexivity.
    + apply BaseFd_close_open in E as (-> & z & C & _); [|assumption].
      apply sys_close_one, closes_one in C.
      destruct (calls_closed ms (set_fd (-1) h) w1) as [Hneg Hc]; [simpl; lia|].
      destruct (calls ms (set_fd (-1) h, w1)) as [h2 w2]. simpl in *.
      rewrite BaseFd_dtor_closed by assumption. congruence.
Qed.

(** C5.  A handle that owns a descriptor ([fd >= 0]) hands it to [close]
    exactly once, whatever sequence of [sync()] and [close()] calls comes
    before its destruction.  A second explicit [close()] does nothing and
    returns; after an explicit [close()] the destructor does nothing; an
    explicit [close()] throws when the system call reports an error, with
    that error's number, while the destructor only leaves the world the
    system call produced. *)
Theorem descriptor_closed_exactly_once (h : BaseFd) (w : World) :
  0 <= fd h ->
  (forall ms, closes (trace (lifetime ms h w)) = closes (trace w) ++ [fd h]) /\
  (forall r h1 w1, BaseFd_close (h, w) = (r, (h1, w1)) ->
     BaseFd_close (h1, w1) = (Ret tt, (h1, w1)) /\
     BaseFd_dtor h1 w1 = w1 /\
     exists z, sys_close (fd h) w = (z, w1) /\
       (z = -1 -> exists e, r = Throw e /\ code e = errno w1) /\
       (z <> -1 -> r = Ret tt)) /\
  (forall z w1, sys_close (fd h) w = (z, w1) -> BaseFd_dtor h w = w1).
Proof.
  intros Hfd. split; [|split].
  - intros ms. apply lifetime_closes. assumption.
  - intros r h1 w1 H.
    apply BaseFd_close_open in H as (-> & z & C & Hr); [|assumption].
    split; [|split].
    + unfold BaseFd_close. simpl. reflexivity.
    + apply BaseFd_dtor_closed. simpl. lia.
    + exists z. split; [assumption|]. split; intros Hz.
      * destruct Hr as [[_ ->] | [? _]]; [|contradiction]. eexists. split; reflexivity.
      * destruct Hr as [[? _] | [_ ->]]; [contradiction | reflexivity].
  - intros z w1 C. rewrite BaseFd_dtor_open by assumption. rewrite C. reflexivity.
Qed.

(** ** [write]: what it changes *)

Lemma next_fate_nil w ft w1 :
  next_fate w = (ft, w1) -> sched w = [] -> ft = Smooth.
Proof. unfold next_fate. intros H E. rewrite E in H. inv H. reflexivity. Qed.

Lemma sys_write_effect fd buf w r w' :
  sys_write fd buf w = (r, w') ->
  files w' = files w /\ next_ino w' = next_ino w /\
  (r = -1 -> inodes w' = inodes w /\ fdtab w' = fdtab w) /\
  (r <> -1 ->
     0 <= r <= Z.of_nat (length buf) /\
     (sched w = [] -> r = Z.of_nat (length buf)) /\
     exists i pos rd,
       fdtab w !! fd = Some (OFile i pos rd true) /\
       inodes w' = <[i := write_at pos (take (Z.to_nat r) buf) (default [] (inodes w !! i))]> (inodes w) /\
       fdtab w' = <[fd := OFile i (pos + Z.to_nat r) rd true]> (fdtab w)).
Proof.
  unfold sys_write. intros H.
  destruct (next_fate w) as [ft w1] eqn:F.
  pose proof (next_fate_nil _ _ _ F) as Hnil. fate_split.
  rewrite Hfd, Hin in H.
  assert (Hfail : forall e z w2, fail (CWrite fd buf) e w1 = (z, w2) ->
            z = -1 /\ files w2 = files w /\ next_ino w2 = next_ino w /\
            inodes w2 = inodes w /\ fdtab w2 = fdtab w).
  { unfold fail, finish. intros e z w2 E. inv E. simpl. auto 10 with congruence. }
  assert (Hok : forall n i pos rd, fdtab w !! fd = Some (OFile i pos rd true) ->
            (sched w = [] -> n = length buf) -> (n <= length buf)%nat ->
            finish (CWrite fd buf) (Z.of_nat (length (take n buf)))
              (set_inodes (<[i := write_at pos (take n buf) (default [] (inodes w !! i))]> (inodes w))
                 (set_fdtab (<[fd := OFile i (pos + length (take n buf)) rd true]> (fdtab w)) w1))
              = (r, w') ->
            files w' = files w /\ next_ino w' = next_ino w /\
            (r = -1 -> inodes w' = inodes w /\ fdtab w' = fdtab w) /\
            (r <> -1 ->
               0 <= r <= Z.of_nat (length buf) /\
               (sched w = [] -> r = Z.of_nat (length buf)) /\
               exists i pos rd,
                 fdtab w !! fd = Some (OFile i pos rd true) /\
                 inodes w' = <[i := write_at pos (take (Z.to_nat r) buf) (default [] (inodes w !! i))]> (inodes w) /\
                 fdtab w' = <[fd := OFile i (pos + Z.to_nat r) rd true]> (fdtab w))).
  { intros n i pos rd Hl Hn Hle E. unfold finish in E. inv E. simpl.
    rewrite length_take, Nat.min_l by assumption.
    split; [assumption|]. split; [assumption|]. split; [lia|]. intros _.
    split; [lia|]. split; [intros S0; rewrite (Hn S0); reflexivity|].
    exists i, pos, rd. rewrite Nat2Z.id. auto. }
  destruct (fdtab w !! fd) as [[d|i pos rd [|]]|] eqn:L; destruct ft;
    try (apply Hfail in H as (-> & ? & ? & ? & ?); repeat split; auto; contradiction).
  - apply (Hok (length buf) i pos rd); auto.
  - apply (Hok (Nat.min n (length buf)) i pos rd); auto; [|lia].
    intros S0. specialize (Hnil S0). discriminate.
Qed.

Lemma write_at_nil pos data : write_at pos [] data = data.
Proof. reflexivity. Qed.

Lemma write_at_cons pos (chunk data : bytes) :
  chunk <> [] ->
  write_at pos chunk data =
  resize pos Byte.x00 data ++ chunk ++ drop (pos + length chunk) data.
Proof. destruct chunk; [contradiction | reflexivity]. Qed.

Lemma write_at_app pos (a b data : bytes) :
  write_at (pos + length a) b (write_at pos a data) = write_at pos (a ++ b) data.
Proof.
  destruct (decide (b = [])) as [->|Hb]; [rewrite app_nil_r; reflexivity|].
  destruct (decide (a = [])) as [->|Ha]; [simpl; rewrite Nat.add_0_r; reflexivity|].
  rewrite (write_at_cons _ b) by assumption.
  rewrite (write_at_cons _ a) by assumption.
  rewrite (write_at_cons _ (a ++ b)) by (intros E; apply app_eq_nil in E as [? _]; contradiction).
  set (P := resize pos Byte.x00 data).
  assert (HP : length P = pos) by apply length_resize.
  rewrite (app_assoc P a), resize_app_le, resize_all_alt by (rewrite ?length_app; lia).
  rewrite drop_app_ge by (rewrite length_app; lia).
  rewrite length_app, HP, drop_drop, length_app.
  rewrite <- !app_assoc.
  do 3 f_equal. f_equal. lia.
Qed.

(** ** The loop of [writeAll] *)

Lemma drop_S_tail {A} (n : nat) (l : list A) : drop (S n) l = drop n (tail l).
Proof. destruct l; simpl; [rewrite drop_nil|]; reflexivity. Qed.

Lemma writeAll_buf (data : bytes) (written : nat) :
  take (Z.to_nat (Z.of_nat (length data) - Z.of_nat written)) (drop written data)
  = drop written data.
Proof. apply take_ge. rewrite length_drop. lia. Qed.

Lemma writeAll_loop_unfold fuel h data size written w :
  writeAll_loop fuel h data size written w =
  if written <? size then
    match fuel with
    | O => (Diverge, w)
    | S fuel' =>
        let '(r, w1) := sys_write (fd h) (take (Z.to_nat (size - written))
                                            (drop (Z.to_nat written) data)) w in
        if r <? 0
        then (Throw (commit_error w1 "write" (directory h) (file h) EmptyString), w1)
        else writeAll_loop fuel' h data size (written + r) w1
    end
  else (Ret tt, w).
Proof. destruct fuel; reflexivity. Qed.

Lemma writeAll_loop_trace fuel h data : forall (written : nat) w r w',
  (written <= length data)%nat ->
  (length data - written + length (sched w) <= fuel)%nat ->
  writeAll_loop fuel h data (Z.of_nat (length data)) (Z.of_nat written) w = (r, w') ->
  env w' = env w /\ files w' = files w /\ next_ino w' = next_ino w /\
  exists evs, trace w' = trace w ++ evs /\ sched w' = drop (length evs) (sched w) /\
    write_run (fd h) data written evs /\
    (r = Ret tt /\ all_succeed evs /\ end_offset written evs = length data
     \/ r = Throw (commit_error w' "write" (directory h) (file h) EmptyString)
        /\ ends_in_failure evs (errno w')).
Proof.
  induction fuel as [|fuel IH]; intros written w r w' Hle Hfuel;
    rewrite writeAll_loop_unfold; destruct (Z.of_nat written <? Z.of_nat (length data)) eqn:Hlt.
  - lia.
  - intros H; inv H. repeat split; auto.
    exists []. rewrite app_nil_r. repeat split; auto.
    left. repeat split; [constructor | simpl; lia].
  - rewrite Nat2Z.id, writeAll_buf.
    destruct (sys_write (fd h) (drop written data) w) as [r0 w1] eqn:W.
    pose proof (sys_write_one _ _ _ _ _ W) as (Henv & Htr & Hsch & Hr0).
    pose proof (sys_write_effect _ _ _ _ _ W) as (Hfi & Hni & _ & Hok).
    destruct (r0 <? 0) eqn:Hneg.
    + intros H; inv H. assert (r0 = -1) by lia. subst r0.
      repeat split; auto.
      exists [event (CWrite (fd h) (drop written data)) (-1) w'].
      split; [assumption|].
      split; [simpl length; rewrite drop_S_tail, drop_0; assumption|].
      split; [simpl; repeat split; auto; lia|].
      right. split; [reflexivity|]. exists [], (event (CWrite (fd h) (drop written data)) (-1) w').
      repeat split; constructor.
    + assert (Hnn : r0 <> -1) by lia. destruct (Hok Hnn) as (Hrange & Hfull & _).
      rewrite length_drop in Hrange, Hfull.
      replace (Z.of_nat written + r0) with (Z.of_nat (written + Z.to_nat r0)) by lia.
      intros H. apply IH in H as (Henv' & Hfi' & Hni' & evs & Htr' & Hsch' & Hrun & Hres).
      * repeat split; try congruence.
        exists (event (CWrite (fd h) (drop written data)) r0 w1 :: evs).
        split; [rewrite Htr', Htr, <- app_assoc; reflexivity|].
        split; [simpl length; rewrite drop_S_tail, <- Hsch; assumption|].
        split; [simpl; split; [reflexivity|]; split; [lia|]; right; split; [lia | exact Hrun]|].
        destruct Hres as [(-> & Hall & Hend) | (-> & evs0 & ev & -> & Hev & Herr & Hall)].
        -- left. repeat split; [constructor; assumption | assumption].
        -- right. split; [reflexivity|].
           exists (event (CWrite (fd h) (drop written data)) r0 w1 :: evs0), ev.
           repeat split; auto. constructor; assumption.
      * lia.
      * rewrite Hsch. destruct (sched w) as [|ft s] eqn:S0; simpl in *.
        -- specialize (Hfull eq_refl). lia.
        -- lia.
  - intros H; inv H. repeat split; auto.
    exists []. rewrite app_nil_r. repeat split; auto.
    left. repeat split; [constructor | simpl; lia].
Qed.

Lemma writeAll_loop_state fuel h data : forall (written : nat) w r w' i pos rd,
  (written <= length data)%nat ->
  writeAll_loop fuel h data (Z.of_nat (length data)) (Z.of_nat written) w = (r, w') ->
  fdtab w !! fd h = Some (OFile i pos rd true) ->
  exists k : nat,
    (written <= k <= length data)%nat /\
    (r = Ret tt -> k = length data) /\
    default [] (inodes w' !! i)
      = write_at pos (take (k - written) (drop written data)) (default [] (inodes w !! i)) /\
    (forall j, j <> i -> inodes w' !! j = inodes w !! j) /\
    fdtab w' !! fd h = Some (OFile i (pos + (k - written)) rd true) /\
    (forall fd', fd' <> fd h -> fdtab w' !! fd' = fdtab w !! fd').
Proof.
  induction fuel as [|fuel IH]; intros written w r w' i pos rd Hle;
    rewrite writeAll_loop_unfold; destruct (Z.of_nat written <? Z.of_nat (length data)) eqn:Hlt.
  1,2,4: intros H Hfd; inv H; exists written; rewrite Nat.sub_diag, Nat.add_0_r;
         (split; [lia|]); (split; [try discriminate; intros _; lia|]); auto.
  rewrite Nat2Z.id, writeAll_buf.
  destruct (sys_write (fd h) (drop written data) w) as [r0 w1] eqn:W.
  pose proof (sys_write_one _ _ _ _ _ W) as (_ & _ & _ & Hr0).
  pose proof (sys_write_effect _ _ _ _ _ W) as (_ & _ & Hbad & Hok).
  destruct (r0 <? 0) eqn:Hneg.
  - intros H Hfd; inv H. assert (r0 = -1) by lia. subst r0.
    destruct (Hbad eq_refl) as [Hin Hft].
    exists written. rewrite Nat.sub_diag, Nat.add_0_r, Hin, Hft.
    split; [lia|]. split; [discriminate|]. auto.
  - assert (Hnn : r0 <> -1) by lia.
    destruct (Hok Hnn) as (Hrange & _ & i' & pos' & rd' & Hl & Hin & Hft).
    rewrite length_drop in Hrange.
    replace (Z.of_nat written + r0) with (Z.of_nat (written + Z.to_nat r0)) by lia.
    intros H Hfd. rewrite Hfd in Hl. inv Hl.
    apply (IH _ _ _ _ i' (pos' + Z.to_nat r0)%nat rd') in H; [|lia|rewrite Hft; apply lookup_insert_eq].
    destruct H as (k & Hk & Hret & Hdata & Hothers & Hpos & Hfds).
    exists k. split; [lia|]. split; [assumption|].
    split; [|split; [|split]].
    + rewrite Hdata, Hin, lookup_insert_eq. simpl.
      set (a := take (Z.to_nat r0) (drop written data)).
      assert (Ha : length a = Z.to_nat r0)
        by (unfold a; rewrite length_take, length_drop; lia).
      rewrite <- (drop_drop data (Z.to_nat r0) written).
      replace (pos' + Z.to_nat r0)%nat with (pos' + length a)%nat by lia.
      rewrite write_at_app. f_equal.
      unfold a. rewrite take_take_drop.
      f_equal. lia.
    + intros j Hj. rewrite Hothers, Hin by assumption. apply lookup_insert_ne. congruence.
    + rewrite Hpos. do 2 f_equal. lia.
    + intros fd' Hne. rewrite Hfds, Hft by assumption. apply lookup_insert_ne. congruence.
Qed.

(** [writeAll] with the fuel it gives itself. *)
Lemma WriteFd_writeAll_trace data h w r h' w' :
  WriteFd_writeAll data (h, w) = (r, (h', w')) ->
  h' = h /\ env w' = env w /\ files w' = files w /\ next_ino w' = next_ino w /\
  exists evs, trace w' = trace w ++ evs /\ sched w' = drop (length evs) (sched w) /\
    write_run (fd h) data 0 evs /\
    (r = Ret tt /\ all_succeed evs /\ end_offset 0 evs = length data
     \/ r = Throw (commit_error w' "write" (directory h) (file h) EmptyString)
        /\ ends_in_failure evs (errno w')).
Proof.
  unfold WriteFd_writeAll, writeAll_fuel.
  destruct (writeAll_loop _ h data (Z.of_nat (length data)) 0 w) as [r1 w1] eqn:L.
  intros [= <- <- <-]. split; [reflexivity|].
  apply (writeAll_loop_trace _ h data 0%nat) in L; [assumption | lia | simpl; lia].
Qed.

Lemma WriteFd_writeAll_state data h w r h' w' i pos rd :
  WriteFd_writeAll data (h, w) = (r, (h', w')) ->
  fdtab w !! fd h = Some (OFile i pos rd true) ->
  exists k : nat,
    (k <= length data)%nat /\
    (r = Ret tt -> k = length data) /\
    default [] (inodes w' !! i) = write_at pos (take k data) (default [] (inodes w !! i)) /\
    (forall j, j <> i -> inodes w' !! j = inodes w !! j) /\
    fdtab w' !! fd h = Some (OFile i (pos + k) rd true) /\
    (forall fd', fd' <> fd h -> fdtab w' !! fd' = fdtab w !! fd').
Proof.
  unfold WriteFd_writeAll, writeAll_fuel.
  destruct (writeAll_loop _ h data (Z.of_nat (length data)) 0 w) as [r1 w1] eqn:L.
  intros [= <- <- <-] Hfd.
  apply (writeAll_loop_state _ h data 0%nat _ _ _ i pos rd) in L; [|lia|assumption].
  destruct L as (k & Hk & Hret & Hdata & Hothers & Hpos & Hfds).
  rewrite Nat.sub_0_r, drop_0 in *. exists k. repeat split; auto; lia.
Qed.

(** C6.  [writeAll] always returns or throws.  The trace it adds is a run of
    [write] calls on the handle's descriptor, each given the part of the
    buffer that is still to be written, the offset moving by the count each
    call reports.  When it returns, no call failed, the offset has reached
    the size of the buffer, and the file behind the descriptor holds the
    whole buffer at the position the descriptor had.  When it throws, the
    last call returned [-1], and the exception carries the [errno] of that
    call and the message for [write], the directory and the name. *)
Theorem writeAll_writes_whole_buffer (h : BaseFd) (data : bytes) (w : World) :
  exists r w' evs,
    WriteFd_writeAll data (h, w) = (r, (h, w')) /\
    trace w' = trace w ++ evs /\
    write_run (fd h) data 0 evs /\
    (r = Ret tt /\ all_succeed evs /\ end_offset 0 evs = length data /\
       (forall i pos rd, fdtab w !! fd h = Some (OFile i pos rd true) ->
          default [] (inodes w' !! i) = write_at pos data (default [] (inodes w !! i)) /\
          fdtab w' !! fd h = Some (OFile i (pos + length data) rd true))
     \/ exists e, r = Throw e /\ ends_in_failure evs (code e) /\
          what e = buildCommittedFileError (strerror (env w)) "write"
                     (directory h) (file h) EmptyString (code e)).
Proof.
  destruct (WriteFd_writeAll data (h, w)) as [r [h' w']] eqn:E.
  pose proof (WriteFd_writeAll_trace _ _ _ _ _ _ E)
    as (-> & Henv & _ & _ & evs & Htr & _ & Hrun & Hres).
  exists r, w', evs. repeat (split; [auto; fail|]).
  destruct Hres as [(-> & Hall & Hend) | (-> & Hfail)].
  - left. repeat (split; [auto; fail|]). intros i pos rd Hfd.
    destruct (WriteFd_writeAll_state _ _ _ _ _ _ _ _ _ E Hfd)
      as (k & _ & Hk & Hdata & _ & Hpos & _).
    rewrite (Hk eq_refl), firstn_all in *. auto.
  - right. eexists. split; [reflexivity|]. split; [exact Hfail|].
    simpl. rewrite Henv. reflexivity.
Qed.

(** ** [open], [read] and [close]: what they change *)

Lemma sys_open_rdonly path w r w' :
  sys_open path (Z.lor O_RDONLY O_CLOEXEC) w = (r, w') ->
  files w' = files w /\ inodes w' = inodes w /\ next_ino w' = next_ino w /\
  (r = -1 -> fdtab w' = fdtab w) /\
  (r <> -1 ->
     r = Z.of_nat (next_fd w) /\
     exists o, fdtab w' = <[r := o]> (fdtab w) /\
       match namei (env w) (cwd (env w)) path with
       | Some (AtDir d) => o = ODir d
       | Some (AtName d n) => exists i, files w !! (d, n) = Some i /\ o = OFile i 0 true false
       | _ => False
       end) /\
  (sched w = [] -> r = -1 ->
     match namei (env w) (cwd (env w)) path with
     | Some (AtDir d) => False
     | Some (AtName d n) => files w !! (d, n) = None
     | _ => True
     end).
Proof.
  unfold sys_open. intros H.
  destruct (next_fate w) as [ft w1] eqn:F.
  pose proof (next_fate_nil _ _ _ F) as Hnil. fate_split.
  assert (Hfail : forall e z w2, fail (COpen path (Z.lor O_RDONLY O_CLOEXEC)) e w1 = (z, w2) ->
            z = -1 /\ files w2 = files w /\ next_ino w2 = next_ino w /\
            inodes w2 = inodes w /\ fdtab w2 = fdtab w).
  { unfold fail, finish. intros e z w2 E. inv E. simpl. auto 10 with congruence. }
  assert (Hfrom : open_from (COpen path (Z.lor O_RDONLY O_CLOEXEC)) (cwd (env w1)) path
                    (Z.lor O_RDONLY O_CLOEXEC) w1 = (r, w') ->
    files w' = files w /\ inodes w' = inodes w /\ next_ino w' = next_ino w /\
    (r = -1 -> fdtab w' = fdtab w) /\
    (r <> -1 ->
       r = Z.of_nat (next_fd w) /\
       exists o, fdtab w' = <[r := o]> (fdtab w) /\
         match namei (env w) (cwd (env w)) path with
         | Some (AtDir d) => o = ODir d
         | Some (AtName d n) => exists i, files w !! (d, n) = Some i /\ o = OFile i 0 true false
         | _ => False
         end) /\
    (r = -1 ->
       match namei (env w) (cwd (env w)) path with
       | Some (AtDir d) => False
       | Some (AtName d n) => files w !! (d, n) = None
       | _ => True
       end)).
  { unfold open_from. rewrite Henv, Hfi.
    destruct (namei (env w) (cwd (env w)) path) as [[d|d n|d n]|] eqn:N.
    - change (wants_write (Z.lor O_RDONLY O_CLOEXEC) || has_flag (Z.lor O_RDONLY O_CLOEXEC) O_CREAT)
        with false. cbv iota.
      intros E. apply alloc_fd_one in E as (-> & ? & ? & ? & ? & ? & ? & ? & ?).
      repeat split; try congruence; try lia.
      exists (ODir d). split; congruence.
    - destruct (files w !! (d, n)) as [i|] eqn:L.
      + change (has_flag (Z.lor O_RDONLY O_CLOEXEC) O_TRUNC && wants_write (Z.lor O_RDONLY O_CLOEXEC))
          with false. cbv iota.
        change (wants_read (Z.lor O_RDONLY O_CLOEXEC)) with true.
        change (wants_write (Z.lor O_RDONLY O_CLOEXEC)) with false.
        intros E. apply alloc_fd_one in E as (-> & ? & ? & ? & ? & ? & ? & ? & ?).
        repeat split; try congruence; try lia.
        exists (OFile i 0 true false). split; [congruence|]. exists i. auto.
      + change (has_flag (Z.lor O_RDONLY O_CLOEXEC) O_CREAT) with false. cbv iota.
        intros E. apply Hfail in E as (-> & ? & ? & ? & ?). repeat split; auto; contradiction.
    - intros E. apply Hfail in E as (-> & ? & ? & ? & ?). repeat split; auto; contradiction.
    - intros E. apply Hfail in E as (-> & ? & ? & ? & ?). repeat split; auto; contradiction. }
  destruct ft.
  - apply Hfrom in H as (? & ? & ? & ? & ? & ?). auto 10.
  - apply Hfail in H as (-> & ? & ? & ? & ?).
    repeat split; auto; try contradiction.
    intros S0. specialize (Hnil S0). discriminate.
  - apply Hfrom in H as (? & ? & ? & ? & ? & ?). auto 10.
Qed.

Lemma sys_close_effect fd w r w' :
  sys_close fd w = (r, w') ->
  files w' = files w /\ inodes w' = inodes w /\ next_ino w' = next_ino w /\
  fdtab w' = delete fd (fdtab w) /\
  (sched w = [] -> is_Some (fdtab w !! fd) -> r = 0).
Proof.
  unfold sys_close. intros H.
  destruct (next_fate w) as [ft w1] eqn:F.
  pose proof (next_fate_nil _ _ _ F) as Hnil. fate_split.
  rewrite Hfd in H.
  destruct (fdtab w !! fd) as [o|] eqn:L.
  - destruct ft; unfold fail, finish in H; inv H; simpl; rewrite ?Hfd;
      repeat split; auto; intros S0; specialize (Hnil S0); discriminate.
  - unfold fail, finish in H; inv H; simpl. rewrite Hfd, delete_id by assumption.
    repeat split; auto. intros _ [? ?]; discriminate.
Qed.

Lemma sys_fsync_effect fd w r w' :
  sys_fsync fd w = (r, w') ->
  files w' = files w /\ inodes w' = inodes w /\ next_ino w' = next_ino w /\
  fdtab w' = fdtab w /\
  (sched w = [] -> is_Some (fdtab w !! fd) -> r = 0).
Proof.
  unfold sys_fsync. intros H.
  destruct (next_fate w) as [ft w1] eqn:F.
  pose proof (next_fate_nil _ _ _ F) as Hnil. fate_split.
  rewrite Hfd in H.
  destruct ft; try destruct (fdtab w !! fd) as [o|] eqn:L;
    unfold fail, finish in H; inv H; simpl; repeat split; auto;
    try (intros S0; specialize (Hnil S0); discriminate);
    intros _ [? ?]; discriminate.
Qed.

Lemma sys_read_effect fd count w r chunk w' :
  sys_read fd count w = (r, chunk, w') ->
  files w' = files w /\ inodes w' = inodes w /\ next_ino w' = next_ino w /\
  (forall fd', fd' <> fd -> fdtab w' !! fd' = fdtab w !! fd') /\
  (r = -1 -> chunk = [] /\ fdtab w' = fdtab w) /\
  (r <> -1 ->
     exists i pos wr n,
       fdtab w !! fd = Some (OFile i pos true wr) /\
       (Nat.min 1 count <= n <= count)%nat /\
       chunk = take n (drop pos (default [] (inodes w !! i))) /\
       r = Z.of_nat (length chunk) /\
       fdtab w' = <[fd := OFile i (pos + length chunk) true wr]> (fdtab w)) /\
  (sched w = [] -> (exists i pos wr, fdtab w !! fd = Some (OFile i pos true wr)) -> r <> -1).
Proof.
  unfold sys_read. intros H.
  destruct (next_fate w) as [ft w1] eqn:F.
  pose proof (next_fate_nil _ _ _ F) as Hnil. fate_split.
  rewrite Hfd, Hin in H.
  assert (Hfail : forall e z w2, fail (CRead fd count) e w1 = (z, w2) ->
            z = -1 /\ files w2 = files w /\ next_ino w2 = next_ino w /\
            inodes w2 = inodes w /\ fdtab w2 = fdtab w).
  { unfold fail, finish. intros e z w2 E. inv E. simpl. auto 10 with congruence. }
  assert (Hok : forall n i pos wr, fdtab w !! fd = Some (OFile i pos true wr) ->
            (Nat.min 1 count <= n <= count)%nat ->
            (let '(r0, w2) := finish (CRead fd count)
                 (Z.of_nat (length (take n (drop pos (default [] (inodes w !! i))))))
                 (set_fdtab (<[fd := OFile i (pos + length (take n (drop pos (default [] (inodes w !! i))))) true wr]> (fdtab w)) w1)
             in (r0, take n (drop pos (default [] (inodes w !! i))), w2)) = (r, chunk, w') ->
            files w' = files w /\ inodes w' = inodes w /\ next_ino w' = next_ino w /\
            (forall fd', fd' <> fd -> fdtab w' !! fd' = fdtab w !! fd') /\
            (r = -1 -> chunk = [] /\ fdtab w' = fdtab w) /\
            (r <> -1 ->
               exists i pos wr n,
                 fdtab w !! fd = Some (OFile i pos true wr) /\
                 (Nat.min 1 count <= n <= count)%nat /\
                 chunk = take n (drop pos (default [] (inodes w !! i))) /\
                 r = Z.of_nat (length chunk) /\
                 fdtab w' = <[fd := OFile i (pos + length chunk) true wr]> (fdtab w)) /\
            (sched w = [] -> (exists i pos wr, fdtab w !! fd = Some (OFile i pos true wr)) -> r <> -1)).
  { intros n i pos wr Hl Hn E. unfold finish in E. inv E. simpl.
    repeat split; auto; try lia.
    - intros fd' Hne. apply lookup_insert_ne. congruence.
    - intros _. exists i, pos, wr, n. auto. }
  assert (Hbad : (let '(r0, w2) := fail (CRead fd count) EBADF w1 in (r0, @nil Byte.byte, w2))
                 = (r, chunk, w') ->
            (forall i pos wr, fdtab w !! fd <> Some (OFile i pos true wr)) ->
            files w' = files w /\ inodes w' = inodes w /\ next_ino w' = next_ino w /\
            (forall fd', fd' <> fd -> fdtab w' !! fd' = fdtab w !! fd') /\
            (r = -1 -> chunk = [] /\ fdtab w' = fdtab w) /\
            (r <> -1 ->
               exists i pos wr n,
                 fdtab w !! fd = Some (OFile i pos true wr) /\
                 (Nat.min 1 count <= n <= count)%nat /\
                 chunk = take n (drop pos (default [] (inodes w !! i))) /\
                 r = Z.of_nat (length chunk) /\
                 fdtab w' = <[fd := OFile i (pos + length chunk) true wr]> (fdtab w)) /\
            (sched w = [] -> (exists i pos wr, fdtab w !! fd = Some (OFile i pos true wr)) -> r <> -1)).
  { intros E Hno. destruct (fail (CRead fd count) EBADF w1) as [z w2] eqn:E2. inv E.
    apply Hfail in E2 as (-> & ? & ? & ? & Hf).
    repeat split; auto; try contradiction.
    - intros; rewrite Hf; reflexivity.
    - intros _ (i & pos & wr & Hl). exfalso. exact (Hno _ _ _ Hl). }
  destruct ft.
  - destruct (fdtab w !! fd) as [[d|i pos [|] wr]|] eqn:L.
    + destruct (fail (CRead fd count) EISDIR w1) as [z w2] eqn:E2. inv H.
      apply Hfail in E2 as (-> & ? & ? & ? & Hf).
      repeat split; auto; try contradiction.
      * intros; rewrite Hf; reflexivity.
      * intros _ (i & pos & wr & Hl). discriminate.
    + apply (Hok count i pos wr); auto. lia.
    + apply Hbad; [assumption | congruence].
    + apply Hbad; [assumption | congruence].
  - destruct (fail (CRead fd count) (fault_errno f) w1) as [z w2] eqn:E2. inv H.
    apply Hfail in E2 as (-> & ? & ? & ? & Hf).
    repeat split; auto; try contradiction.
    + intros; rewrite Hf; reflexivity.
    + intros S0. specialize (Hnil S0). discriminate.
  - destruct (fdtab w !! fd) as [[d|i pos [|] wr]|] eqn:L.
    + destruct (fail (CRead fd count) EISDIR w1) as [z w2] eqn:E2. inv H.
      apply Hfail in E2 as (-> & ? & ? & ? & Hf).
      repeat split; auto; try contradiction.
      * intros; rewrite Hf; reflexivity.
      * intros _ (i & pos & wr & Hl). discriminate.
    + apply (Hok (Nat.min (Nat.max n 1) count) i pos wr); auto. lia.
    + apply Hbad; [assumption | congruence].
    + apply Hbad; [assumption | congruence].
Qed.

(** ** The loop of [readFile] *)

Lemma take_drop_length {A} (n : nat) (l : list A) :
  take n l ++ drop (length (take n l)) l = l.
Proof.
  rewrite length_take. destruct (Nat.le_ge_cases n (length l)).
  - rewrite Nat.min_l by assumption. apply take_drop.
  - rewrite Nat.min_r, take_ge, drop_all by assumption. apply app_nil_r.
Qed.

Lemma take_eq_nil {A} (n : nat) (l : list A) :
  take n l = [] -> (1 <= n)%nat -> l = [].
Proof. destruct n, l; simpl; intros; try reflexivity; try lia; discriminate. Qed.

Lemma remaining_lookup w fd i pos rd wr :
  fdtab w !! fd = Some (OFile i pos rd wr) ->
  remaining w fd = (length (default [] (inodes w !! i)) - pos)%nat.
Proof. unfold remaining. intros ->. reflexivity. Qed.

Lemma readFile_loop_spec fuel fd : forall os w res w',
  (remaining w fd < fuel)%nat ->
  readFile_loop fuel fd os w = (res, w') ->
  env w' = env w /\ files w' = files w /\ inodes w' = inodes w /\
  next_ino w' = next_ino w /\
  (forall fd', fd' <> fd -> fdtab w' !! fd' = fdtab w !! fd') /\
  (is_Some (fdtab w !! fd) -> is_Some (fdtab w' !! fd)) /\
  exists evs ev os' len,
    res = Ret (os', len) /\ trace w' = trace w ++ evs ++ [ev] /\
    sched w' = drop (S (length evs)) (sched w) /\
    Forall (fun e => ev_call e = CRead fd buffer_size /\ 0 < ev_ret e) evs /\
    ev_call ev = CRead fd buffer_size /\ ev_ret ev = len /\ ev_errno ev = errno w' /\
    (len = -1 \/
     len = 0 /\ exists i pos wr, fdtab w !! fd = Some (OFile i pos true wr) /\
                  os' = os ++ drop pos (default [] (inodes w !! i))) /\
    (sched w = [] -> (exists i pos wr, fdtab w !! fd = Some (OFile i pos true wr)) -> len = 0).
Proof.
  induction fuel as [|fuel IH]; intros os w res w' Hfuel; [lia|]. simpl.
  destruct (sys_read fd buffer_size w) as [[len chunk] w1] eqn:R.
  pose proof (sys_read_one _ _ _ _ _ _ R) as (Henv & Htr & Hsch & Hlen).
  pose proof (sys_read_effect _ _ _ _ _ _ R) as (Hfi & Hin & Hni & Hfds & Hbad & Hok & Hfree).
  destruct (0 <? len) eqn:Hpos.
  - assert (Hnn : len <> -1) by lia.
    destruct (Hok Hnn) as (i & pos & wr & n & Hl & Hn & Hchunk & Hlen' & Hft).
    intros H. apply IH in H.
    + destruct H as (Henv' & Hfi' & Hin' & Hni' & Hfds' & Hsome' & evs & ev & os' & len' &
                     -> & Htr' & Hsch' & Hall & Hcall & Hret & Herr & Hres & Hfree').
      repeat (split; [congruence|]).
      split; [intros fd' Hne; rewrite Hfds', Hfds by assumption; reflexivity|].
      split; [intros _; apply Hsome'; rewrite Hft, lookup_insert_eq; eauto|].
      exists (event (CRead fd buffer_size) len w1 :: evs), ev, os', len'.
      split; [reflexivity|].
      split; [rewrite Htr', Htr, <- app_assoc; reflexivity|].
      split; [simpl length; rewrite drop_S_tail, <- Hsch; assumption|].
      split; [constructor; [split; [reflexivity | simpl; lia] | assumption]|].
      repeat (split; [assumption|]).
      split.
      * destruct Hres as [? | (-> & i' & pos' & wr' & Hl' & ->)]; [left; assumption|].
        right. split; [reflexivity|]. exists i, pos, wr. split; [assumption|].
        rewrite Hft, lookup_insert_eq in Hl'. inv Hl'.
        rewrite Hin, <- app_assoc. f_equal.
        rewrite <- (drop_drop _ (length (take n (drop pos (default [] (inodes w !! i'))))) pos).
        apply take_drop_length.
      * intros S0 _. apply Hfree'; [rewrite Hsch, S0; reflexivity|].
        exists i, (pos + length chunk)%nat, wr. rewrite Hft. apply lookup_insert_eq.
    + rewrite (remaining_lookup _ _ _ _ _ _ Hl) in Hfuel.
      rewrite (remaining_lookup w1 fd i (pos + length chunk) true wr)
        by (rewrite Hft; apply lookup_insert_eq).
      rewrite Hin.
      assert (length chunk <= length (default [] (inodes w !! i)) - pos)%nat
        by (rewrite Hchunk, length_take, length_drop; lia).
      lia.
  - intros [= <- <-].
    repeat (split; [assumption|]).
    split; [intros Hs; destruct (decide (len = -1)) as [E|E];
            [destruct (Hbad E) as [_ ->]; assumption
            |destruct (Hok E) as (? & ? & ? & ? & _ & _ & _ & _ & ->);
             rewrite lookup_insert_eq; eauto]|].
    exists [], (event (CRead fd buffer_size) len w1), os, len.
    split; [reflexivity|].
    split; [assumption|].
    split; [rewrite drop_S_tail; assumption|].
    split; [constructor|].
    repeat (split; [reflexivity|]).
    assert (Hcases : len = -1 \/
        len = 0 /\ exists i pos wr, fdtab w !! fd = Some (OFile i pos true wr) /\
                     os = os ++ drop pos (default [] (inodes w !! i))).
    { destruct (decide (len = -1)) as [E|E]; [left; assumption|right].
      destruct (Hok E) as (i & pos & wr & n & Hl & Hn & Hchunk & Hlen' & _).
      assert (length chunk = 0)%nat by lia.
      split; [lia|]. exists i, pos, wr. split; [assumption|].
      destruct chunk; [|discriminate].
      symmetry in Hchunk. apply take_eq_nil in Hchunk; [|unfold buffer_size in Hn; lia].
      rewrite Hchunk, app_nil_r. reflexivity. }
    split; [exact Hcases|].
    intros S0 Hr. specialize (Hfree S0 Hr). destruct Hcases as [?|[? _]]; [contradiction | assumption].
Qed.

(** ** [readFile] *)

Lemma contents_entry w d path data :
  contents w d path = Some data <->
  exists d' n i, namei (env w) d path = Some (AtName d' n) /\
                 files w !! (d', n) = Some i /\ data = default [] (inodes w !! i).
Proof.
  unfold contents, entry. split.
  - destruct (namei (env w) d path) as [[?|d' n|? ?]|]; try discriminate.
    destruct (files w !! (d', n)) as [i|] eqn:L; [|discriminate].
    intros [= <-]. eauto 10.
  - intros (d' & n & i & -> & -> & ->). reflexivity.
Qed.

Lemma readFile_inv path w r w' :
  readFile path w = (r, w') ->
  env w' = env w /\ files w' = files w /\ inodes w' = inodes w /\
  next_ino w' = next_ino w /\
  ((exists ev, trace w' = trace w ++ [ev] /\
      ev_call ev = COpen path (Z.lor O_RDONLY O_CLOEXEC) /\ ev_ret ev = -1 /\
      r = Throw (read_error w "open" path (ev_errno ev)) /\ fdtab w' = fdtab w)
   \/
   (exists op reads last cl,
      trace w' = trace w ++ [op] ++ reads ++ [last] ++ [cl] /\
      ev_call op = COpen path (Z.lor O_RDONLY O_CLOEXEC) /\ 0 <= ev_ret op /\
      Forall (fun e => ev_call e = CRead (ev_ret op) buffer_size /\ 0 < ev_ret e) reads /\
      ev_call last = CRead (ev_ret op) buffer_size /\
      ev_call cl = CClose (ev_ret op) /\
      fdtab w' !! ev_ret op = None /\
      (forall fd', fd' <> ev_ret op -> fdtab w' !! fd' = fdtab w !! fd') /\
      (ev_ret last = 0 /\ (exists os, r = Ret os /\ contents w (cwd (env w)) path = Some os)
       \/ ev_ret last = -1 /\ r = Throw (read_error w "read" path (ev_errno last))))) /\
  (sched w = [] -> forall data, contents w (cwd (env w)) path = Some data -> r = Ret data).
Proof.
  unfold readFile.
  destruct (sys_open path (Z.lor O_RDONLY O_CLOEXEC) w) as [fd w1] eqn:O.
  pose proof (sys_open_one _ _ _ _ _ O) as (Henv1 & Htr1 & Hsch1 & Hfd).
  pose proof (sys_open_rdonly _ _ _ _ O) as (Hfi1 & Hin1 & Hni1 & Hbad1 & Hok1 & Hfree1).
  destruct (fd =? -1) eqn:E.
  - assert (fd = -1) by lia. subst fd. intros [= <- <-].
    repeat (split; [assumption|]). split.
    + left. exists (event (COpen path (Z.lor O_RDONLY O_CLOEXEC)) (-1) w1).
      repeat (split; [auto; fail|]). split; [|auto].
      unfold read_error. simpl. rewrite Henv1. reflexivity.
    + intros S0 data Hc. apply contents_entry in Hc as (d' & n & i & Hn & Hf & _).
      specialize (Hfree1 S0 eq_refl). rewrite Hn in Hfree1. congruence.
  - assert (Hnn : fd <> -1) by lia. destruct (Hok1 Hnn) as (Hfdv & o & Hft1 & Ho).
    destruct (readFile_loop (S (remaining w1 fd)) fd [] w1) as [res w2] eqn:L.
    apply readFile_loop_spec in L; [|lia].
    destruct L as (Henv2 & Hfi2 & Hin2 & Hni2 & Hfds2 & Hsome2 & evs & last & os & len &
                   -> & Htr2 & Hsch2 & Hall & Hcall & Hret & Herr & Hres & Hfree2).
    destruct (sys_close fd w2) as [z w3] eqn:C.
    pose proof (sys_close_one _ _ _ _ C) as (Henv3 & Htr3 & Hsch3 & _).
    pose proof (sys_close_effect _ _ _ _ C) as (Hfi3 & Hin3 & Hni3 & Hft3 & _).
    assert (Hshape : forall r0, (r0, w3) = (r, w') ->
      (ev_ret last = 0 /\ (exists os, r0 = Ret os /\ contents w (cwd (env w)) path = Some os)
       \/ ev_ret last = -1 /\ r0 = Throw (read_error w "read" path (ev_errno last))) ->
      env w' = env w /\ files w' = files w /\ inodes w' = inodes w /\
      next_ino w' = next_ino w /\
      ((exists ev, trace w' = trace w ++ [ev] /\
          ev_call ev = COpen path (Z.lor O_RDONLY O_CLOEXEC) /\ ev_ret ev = -1 /\
          r = Throw (read_error w "open" path (ev_errno ev)) /\ fdtab w' = fdtab w)
       \/
       (exists op reads last cl,
          trace w' = trace w ++ [op] ++ reads ++ [last] ++ [cl] /\
          ev_call op = COpen path (Z.lor O_RDONLY O_CLOEXEC) /\ 0 <= ev_ret op /\
          Forall (fun e => ev_call e = CRead (ev_ret op) buffer_size /\ 0 < ev_ret e) reads /\
          ev_call last = CRead (ev_ret op) buffer_size /\
          ev_call cl = CClose (ev_ret op) /\
          fdtab w' !! ev_ret op = None /\
          (forall fd', fd' <> ev_ret op -> fdtab w' !! fd' = fdtab w !! fd') /\
          (ev_ret last = 0 /\ (exists os, r = Ret os /\ contents w (cwd (env w)) path = Some os)
           \/ ev_ret last = -1 /\ r = Throw (read_error w "read" path (ev_errno last)))))).
    { intros r0 [= <- <-] Hlast.
      repeat (split; [congruence|]). right.
      exists (event (COpen path (Z.lor O_RDONLY O_CLOEXEC)) fd w1), evs, last,
             (event (CClose fd) z w3).
      split; [rewrite Htr3, Htr2, Htr1, <- !app_assoc; reflexivity|].
      split; [reflexivity|]. split; [simpl; lia|].
      repeat (split; [assumption|]). split; [reflexivity|].
      split; [simpl; rewrite Hft3; apply lookup_delete_eq|].
      split; [|exact Hlast].
      intros fd' Hne. simpl in Hne.
      rewrite Hft3, lookup_delete_ne, Hfds2, Hft1, lookup_insert_ne by congruence.
      reflexivity. }
    assert (Hdata : len = 0 -> contents w (cwd (env w)) path = Some os).
    { intros ->. destruct Hres as [? | (_ & i & pos & wr & Hl & ->)]; [lia|].
      rewrite Hft1, lookup_insert_eq in Hl. injection Hl as ->.
      destruct (namei (env w) (cwd (env w)) path) as [[?|d' n|? ?]|] eqn:N;
        try contradiction; try discriminate.
      destruct Ho as (i' & Hf & [= -> -> ->]).
      apply contents_entry. exists d', n, i'. rewrite drop_0. simpl. rewrite Hin1. auto. }
    assert (Hlen : len = -1 \/ len = 0) by (destruct Hres as [?|[? _]]; auto).
    destruct (len <? 0) eqn:Hneg; intros H.
    + assert (Hl1 : len = -1) by lia.
      destruct (Hshape _ H) as (? & ? & ? & ? & ?).
      { right. split; [congruence|]. unfold read_error. do 2 f_equal; congruence. }
      repeat (split; [assumption|]).
      intros S0 data Hc. exfalso.
      apply contents_entry in Hc as (d' & n & i & Hn & Hf & _).
      rewrite Hn in Ho. destruct Ho as (i' & Hf' & ->).
      assert (Hl0 : len = 0); [|lia]. apply Hfree2.
      * rewrite Hsch1, S0. reflexivity.
      * exists i', 0%nat, false. rewrite Hft1. apply lookup_insert_eq.
    + assert (Hl0 : len = 0) by lia.
      destruct (Hshape _ H) as (? & ? & ? & ? & ?).
      { left. split; [congruence|]. exists os. split; [reflexivity | auto]. }
      repeat (split; [assumption|]).
      intros S0 data Hc. rewrite (Hdata Hl0) in Hc. congruence.
Qed.

(** C7.  [readFile] always returns or throws.  It opens the path read-only;
    if that fails it throws the [open] error with the [errno] of the call.
    Otherwise it reads with a buffer of 4096 bytes until a call returns no
    positive count, and closes the descriptor, whether the last [read]
    reported the end of the file or an error: afterwards the descriptor is
    not open and no other descriptor has changed.  At the end of the file
    it returns the contents of the file, the empty sequence for an empty
    file; after a failed [read] it throws the [read] error with the [errno]
    that call left, whatever the [close] that follows does to [errno].  In a
    world without scheduled failures an existing file is always read. *)
Theorem readFile_reads_to_eof_and_closes (path : string) (w : World) :
  exists r w',
    readFile path w = (r, w') /\
    ((exists ev e,
        trace w' = trace w ++ [ev] /\
        ev_call ev = COpen path (Z.lor O_RDONLY O_CLOEXEC) /\ ev_ret ev = -1 /\
        r = Throw e /\ code e = ev_errno ev /\
        what e = buildCommittedFileReadError (strerror (env w)) "open" path (ev_errno ev))
     \/
     (exists op reads last cl,
        trace w' = trace w ++ [op] ++ reads ++ [last] ++ [cl] /\
        ev_call op = COpen path (Z.lor O_RDONLY O_CLOEXEC) /\ 0 <= ev_ret op /\
        Forall (fun e => ev_call e = CRead (ev_ret op) 4096 /\ 0 < ev_ret e) reads /\
        ev_call last = CRead (ev_ret op) 4096 /\
        ev_call cl = CClose (ev_ret op) /\
        fdtab w' !! ev_ret op = None /\
        (forall fd', fd' <> ev_ret op -> fdtab w' !! fd' = fdtab w !! fd') /\
        (ev_ret last = 0 /\
           (exists os, r = Ret os /\ contents w (cwd (env w)) path = Some os)
         \/ ev_ret last = -1 /\
           (exists e, r = Throw e /\ code e = ev_errno last /\
              what e = buildCommittedFileReadError (strerror (env w)) "read" path
                         (ev_errno last))))) /\
    (contents w (cwd (env w)) path = Some [] -> forall os, r = Ret os -> os = []) /\
    (sched w = [] -> forall data, contents w (cwd (env w)) path = Some data -> r = Ret data).
Proof.
  destruct (readFile path w) as [r w'] eqn:E. exists r, w'.
  split; [reflexivity|].
  destruct (readFile_inv _ _ _ _ E) as (_ & _ & _ & _ & Hshape & Hfree).
  split; [|split; [|exact Hfree]].
  - destruct Hshape as [(ev & Htr & Hc & Hr & -> & _) |
                        (op & reads & last & cl & Htr & Hc & Hfd & Hall & Hlast & Hcl & Hclosed
                         & Hothers & Hres)].
    + left. exists ev. eexists. repeat (split; [eauto; fail|]). reflexivity.
    + right. exists op, reads, last, cl. repeat (split; [assumption|]).
      destruct Hres as [(? & ?) | (? & ->)]; [left; auto|].
      right. split; [assumption|]. eexists. repeat (split; [eauto; fail|]). reflexivity.
  - intros Hempty os ->.
    destruct Hshape as [(ev & _ & _ & _ & Hr & _) | (op & reads & last & cl & _ & _ & _ & _ & _ & _ & _ & _ & Hres)];
      [discriminate|].
    destruct Hres as [(_ & os' & [= <-] & Hc) | (_ & ?)]; [|discriminate].
    congruence.
Qed.

(** The [errno] of the failed [read] is reported although the [close] after it
    fails for another reason. *)
Example readFile_keeps_errno_of_read :
  let '(r, w') := readFile "f" (demo_world_with hi [Smooth; Fails F_EIO; Fails F_EINTR]) in
  (code <$> (match r with Throw e => Some e | _ => None end)) = Some EIO /\ errno w' = EINTR.
Proof. vm_compute. split; reflexivity. Qed.

(** ** Member functions, one call each *)

Lemma run_nil w : run w w [].
Proof. unfold run. rewrite app_nil_r. auto. Qed.

Lemma run_trans w w1 w2 evs1 evs2 :
  run w w1 evs1 -> run w1 w2 evs2 -> run w w2 (evs1 ++ evs2).
Proof.
  intros (E1 & T1 & S1) (E2 & T2 & S2). unfold run.
  rewrite E2, E1, T2, T1, S2, S1, app_assoc, length_app, drop_drop. auto.
Qed.

Lemma one_call_run c r w w' :
  one_call c r w w' -> run w w' [event c r w'].
Proof.
  intros (E & T & S & _). unfold run. simpl length.
  rewrite drop_S_tail. auto.
Qed.

Lemma commit_error_err w' c z func dir f1 f2 w :
  env w' = env w ->
  commit_error w' func dir f1 f2 = err (strerror (env w)) dir func f1 f2 (event c z w').
Proof. intros <-. reflexivity. Qed.

Lemma BaseFd_sync_step h w r h' w' :
  BaseFd_sync (h, w) = (r, (h', w')) ->
  h' = h /\
  exists ev, run w w' [ev] /\ ev_call ev = CFsync (fd h) /\ ev_errno ev = errno w' /\
    sys_fsync (fd h) w = (ev_ret ev, w') /\
    (ev_ret ev = -1 /\
       r = Throw (err (strerror (env w)) (directory h) "fsync" (file h) EmptyString ev)
     \/ ev_ret ev <> -1 /\ r = Ret tt).
Proof.
  unfold BaseFd_sync. destruct (sys_fsync (fd h) w) as [z w1] eqn:E.
  pose proof (sys_fsync_one _ _ _ _ E) as Hone.
  pose proof Hone as (Henv & _).
  destruct (z =? -1) eqn:Z; intros [= <- <- <-]; (split; [reflexivity|]);
    exists (event (CFsync (fd h)) z w1);
    (split; [apply one_call_run; assumption|]); repeat (split; [reflexivity|]).
  - left. split; [simpl; lia|]. f_equal. apply commit_error_err. assumption.
  - right. split; [simpl; lia | reflexivity].
Qed.

Lemma BaseFd_close_step h w r h' w' :
  BaseFd_close (h, w) = (r, (h', w')) -> 0 <= fd h ->
  h' = set_fd (-1) h /\
  exists ev, run w w' [ev] /\ ev_call ev = CClose (fd h) /\ ev_errno ev = errno w' /\
    sys_close (fd h) w = (ev_ret ev, w') /\
    (ev_ret ev = -1 /\
       r = Throw (err (strerror (env w)) (directory h) "close" (file h) EmptyString ev)
     \/ ev_ret ev <> -1 /\ r = Ret tt).
Proof.
  intros H Hfd. apply BaseFd_close_open in H as (-> & z & C & Hr); [|assumption].
  split; [reflexivity|].
  pose proof (sys_close_one _ _ _ _ C) as Hone. pose proof Hone as (Henv & _).
  exists (event (CClose (fd h)) z w').
  split; [apply one_call_run; assumption|]. repeat (split; [reflexivity|]).
  split; [assumption|].
  destruct Hr as [[-> ->] | [? ->]]; [left | right]; split; auto.
  f_equal. apply commit_error_err. assumption.
Qed.

Lemma BaseFd_dtor_step h w :
  0 <= fd h ->
  exists ev, run w (BaseFd_dtor h w) [ev] /\ ev_call ev = CClose (fd h) /\
    sys_close (fd h) w = (ev_ret ev, BaseFd_dtor h w).
Proof.
  intros Hfd. rewrite BaseFd_dtor_open by assumption.
  destruct (sys_close (fd h) w) as [z w1] eqn:C. simpl.
  exists (event (CClose (fd h)) z w1).
  split; [apply one_call_run, sys_close_one; assumption|]. split; reflexivity.
Qed.

Lemma DirFd_ctor_step dir w r w' :
  DirFd_ctor dir w = (r, w') ->
  exists ev, run w w' [ev] /\ ev_call ev = COpen dir (Z.lor O_RDONLY O_CLOEXEC) /\
    ev_errno ev = errno w' /\
    sys_open dir (Z.lor O_RDONLY O_CLOEXEC) w = (ev_ret ev, w') /\
    (ev_ret ev = -1 /\
       r = Throw (err (strerror (env w)) dir "open" EmptyString EmptyString ev)
     \/ 0 <= ev_ret ev /\ r = Ret {| directory := dir; file := NO_FILE; fd := ev_ret ev |}).
Proof.
  unfold DirFd_ctor. destruct (sys_open dir (Z.lor O_RDONLY O_CLOEXEC) w) as [z w1] eqn:E.
  pose proof (sys_open_one _ _ _ _ _ E) as Hone. pose proof Hone as (Henv & _ & _ & Hz).
  simpl fd. destruct (z =? -1) eqn:Z.
  - assert (z = -1) by lia. subst z. rewrite BaseFd_dtor_closed by (simpl; lia).
    intros [= <- <-]. exists (event (COpen dir (Z.lor O_RDONLY O_CLOEXEC)) (-1) w1).
    split; [apply one_call_run; assumption|]. repeat (split; [reflexivity|]).
    left. split; [reflexivity|]. f_equal. apply commit_error_err. assumption.
  - intros [= <- <-]. exists (event (COpen dir (Z.lor O_RDONLY O_CLOEXEC)) z w1).
    split; [apply one_call_run; assumption|]. repeat (split; [reflexivity|]).
    right. split; [simpl; lia | reflexivity].
Qed.

Lemma WriteFd_ctor_step dirFd name w r w' :
  WriteFd_ctor dirFd name w = (r, w') ->
  exists ev, run w w' [ev] /\ ev_call ev = COpenat (fd dirFd) name work_flags work_mode /\
    ev_errno ev = errno w' /\
    sys_openat (fd dirFd) name work_flags work_mode w = (ev_ret ev, w') /\
    (ev_ret ev = -1 /\
       r = Throw (err (strerror (env w)) (directory dirFd) "open" name EmptyString ev)
     \/ 0 <= ev_ret ev /\
       r = Ret {| directory := directory dirFd; file := name; fd := ev_ret ev |}).
Proof.
  unfold WriteFd_ctor.
  destruct (sys_openat (fd dirFd) name work_flags work_mode w) as [z w1] eqn:E.
  pose proof (sys_openat_one _ _ _ _ _ _ _ E) as Hone. pose proof Hone as (Henv & _ & _ & Hz).
  simpl fd. simpl directory. destruct (z =? -1) eqn:Z.
  - assert (z = -1) by lia. subst z. rewrite BaseFd_dtor_closed by (simpl; lia).
    intros [= <- <-]. exists (event (COpenat (fd dirFd) name work_flags work_mode) (-1) w1).
    split; [apply one_call_run; assumption|]. repeat (split; [reflexivity|]).
    left. split; [reflexivity|]. f_equal. apply commit_error_err. assumption.
  - intros [= <- <-]. exists (event (COpenat (fd dirFd) name work_flags work_mode) z w1).
    split; [apply one_call_run; assumption|]. repeat (split; [reflexivity|]).
    right. split; [simpl; lia | reflexivity].
Qed.

Lemma DirFd_renameFile_step old new h w r h' w' :
  DirFd_renameFile old new (h, w) = (r, (h', w')) ->
  h' = h /\
  exists ev, run w w' [ev] /\ ev_call ev = CRenameat (fd h) old (fd h) new /\
    ev_errno ev = errno w' /\
    sys_renameat (fd h) old (fd h) new w = (ev_ret ev, w') /\
    (ev_ret ev = -1 /\
       r = Throw (err (strerror (env w)) (directory h) "rename" old new ev)
     \/ ev_ret ev <> -1 /\ r = Ret tt).
Proof.
  unfold DirFd_renameFile.
  destruct (sys_renameat (fd h) old (fd h) new w) as [z w1] eqn:E.
  pose proof (sys_renameat_one _ _ _ _ _ _ _ E) as Hone. pose proof Hone as (Henv & _).
  destruct (z =? -1) eqn:Z; intros [= <- <- <-]; (split; [reflexivity|]);
    exists (event (CRenameat (fd h) old (fd h) new) z w1);
    (split; [apply one_call_run; assumption|]); repeat (split; [reflexivity|]).
  - left. split; [simpl; lia|]. f_equal. apply commit_error_err. assumption.
  - right. split; [simpl; lia | reflexivity].
Qed.

Lemma DirFd_unlink_step name h w r h' w' :
  DirFd_unlink name (h, w) = (r, (h', w')) ->
  h' = h /\
  exists ev, run w w' [ev] /\ ev_call ev = CUnlinkat (fd h) name 0 /\
    ev_errno ev = errno w' /\
    sys_unlinkat (fd h) name 0 w = (ev_ret ev, w') /\
    (ev_ret ev = -1 /\ ev_errno ev <> ENOENT /\
       r = Throw (err (strerror (env w)) (directory h) "unlink" name EmptyString ev)
     \/ (ev_ret ev = -1 -> ev_errno ev = ENOENT) /\ r = Ret tt).
Proof.
  unfold DirFd_unlink.
  destruct (sys_unlinkat (fd h) name 0 w) as [z w1] eqn:E.
  pose proof (sys_unlinkat_one _ _ _ _ _ _ E) as Hone. pose proof Hone as (Henv & _).
  destruct ((z =? -1) && negb (errno w1 =? ENOENT)) eqn:Z; intros [= <- <- <-];
    (split; [reflexivity|]);
    exists (event (CUnlinkat (fd h) name 0) z w1);
    (split; [apply one_call_run; assumption|]); repeat (split; [reflexivity|]).
  - apply andb_true_iff in Z as [Z1 Z2]. apply negb_true_iff in Z2.
    left. split; [simpl; lia|]. split; [simpl; lia|].
    f_equal. apply commit_error_err. assumption.
  - right. split; [|reflexivity]. simpl. intros ->.
    apply andb_false_iff in Z as [Z | Z]; [discriminate|].
    apply negb_false_iff in Z. lia.
Qed.

(** ** The trace of [CommittedFile::write] *)

Lemma commit_error_err' w' ev func dir f1 f2 w :
  env w' = env w -> ev_errno ev = errno w' ->
  commit_error w' func dir f1 f2 = err (strerror (env w)) dir func f1 f2 ev.
Proof. intros <- E. unfold commit_error, err. rewrite E. reflexivity. Qed.

Lemma WriteFd_writeAll_run data h w r h' w' :
  WriteFd_writeAll data (h, w) = (r, (h', w')) ->
  h' = h /\
  exists evs, run w w' evs /\ write_run (fd h) data 0 evs /\
    (r = Ret tt /\ all_succeed evs /\ end_offset 0 evs = length data
     \/ exists ws wr, evs = ws ++ [wr] /\ all_succeed ws /\ ev_ret wr = -1 /\
          r = Throw (err (strerror (env w)) (directory h) "write" (file h) EmptyString wr)).
Proof.
  intros H. apply WriteFd_writeAll_trace in H
    as (-> & Henv & _ & _ & evs & Htr & Hsch & Hrun & Hres).
  split; [reflexivity|]. exists evs. split; [split; auto|]. split; [assumption|].
  destruct Hres as [? | (-> & ws & wr & -> & Hret & Herr & Hall)]; [left; assumption|].
  right. exists ws, wr. repeat (split; [auto; fail|]).
  f_equal. apply commit_error_err'; assumption.
Qed.

Ltac run_env :=
  repeat match goal with
  | H : run _ _ _ |- _ =>
      let E := fresh "Henv" in
      pose proof (proj1 H) as E; revert H
  end; intros.

Lemma CommittedFile_write_trace cf data w r w' :
  CommittedFile_write cf data w = (r, w') ->
  exists evs, run w w' evs /\
    write_trace (strerror (env w)) (dirName (filePath cf)) (baseName (filePath cf)) data r evs.
Proof.
  unfold CommittedFile_write.
  set (dir := dirName (filePath cf)). set (base := baseName (filePath cf)).
  set (work := base +:+ ".work").
  destruct (DirFd_ctor dir w) as [rd w1] eqn:D.
  apply DirFd_ctor_step in D as (op & R1 & Cop & _ & _ & Hop).
  destruct Hop as [(Zop & ->) | (Zop & ->)].
  { intros [= <- <-]. exists [op]. split; [assumption|]. apply wt_open. split; assumption. }
  assert (Gop : good (COpen dir (Z.lor O_RDONLY O_CLOEXEC)) op) by (split; [assumption | lia]).
  set (dirFd := {| directory := dir; file := NO_FILE; fd := ev_ret op |}).
  destruct (WriteFd_ctor dirFd work w1) as [rw w2] eqn:W.
  apply WriteFd_ctor_step in W as (oa & R2 & Coa & _ & _ & Hoa). simpl in Coa, Hoa.
  pose proof (proj1 R1) as E1. pose proof (proj1 R2) as E2.
  destruct Hoa as [(Zoa & ->) | (Zoa & ->)].
  { intros [= <- <-].
    destruct (BaseFd_dtor_step dirFd w2 Zop) as (cd & R3 & Ccd & _).
    exists ([op] ++ [oa] ++ [cd]).
    split; [eapply run_trans; [eassumption | eapply run_trans; eassumption]|].
    rewrite E1. apply wt_create; [assumption | split; assumption | assumption]. }
  assert (Goa : good (COpenat (ev_ret op) work work_flags work_mode) oa)
    by (split; [assumption | lia]).
  set (workFd := {| directory := dir; file := work; fd := ev_ret oa |}).
  unfold write_steps, bind, on_work, on_dir.
  (* writeAll *)
  destruct (WriteFd_writeAll data (workFd, w2)) as [ra [ha wa]] eqn:A.
  apply WriteFd_writeAll_run in A as (-> & ws & Ra & Hrun & Hres). simpl in Hrun, Hres.
  pose proof (proj1 Ra) as Ea.
  assert (R02 : run w w2 ([op] ++ [oa])) by (eapply run_trans; eassumption).
  assert (R0a : run w wa ([op; oa] ++ ws)) by (eapply run_trans; eassumption).
  rewrite E2, E1 in Hres.
  destruct Hres as [(-> & Hall & Hend) | (ws0 & wr & -> & Hall & Zwr & ->)].
  2: { intros [= <- <-].
       destruct (BaseFd_dtor_step workFd wa Zoa) as (cf' & R3 & Ccf & _).
       destruct (BaseFd_dtor_step dirFd (BaseFd_dtor workFd wa) Zop) as (cd & R4 & Ccd & _).
       exists (([op; oa] ++ ws0 ++ [wr]) ++ [cf'] ++ [cd]).
       split; [eapply run_trans; [eassumption | eapply run_trans; eassumption]|].
       replace (([op; oa] ++ ws0 ++ [wr]) ++ [cf'] ++ [cd])
         with ([op; oa] ++ ws0 ++ [wr; cf'; cd]) by (rewrite <- !app_assoc; reflexivity).
       apply wt_write; assumption. }
  assert (St : staged dir base data op oa ws)
    by (split; [exact Gop|]; split; [exact Goa|]; auto).
  (* sync *)
  destruct (BaseFd_sync (workFd, wa)) as [rs [hs ws1]] eqn:S.
  apply BaseFd_sync_step in S as (-> & fs & Rs & Cfs & _ & _ & Hfs). simpl in Cfs, Hfs.
  pose proof (proj1 Rs) as Es.
  assert (R0s : run w ws1 (([op; oa] ++ ws) ++ [fs])) by (eapply run_trans; eassumption).
  rewrite Ea, E2, E1 in Hfs.
  destruct Hfs as [(Zfs & ->) | (Zfs & ->)].
  { intros [= <- <-].
    destruct (BaseFd_dtor_step workFd ws1 Zoa) as (cf' & R3 & Ccf & _).
    destruct (BaseFd_dtor_step dirFd (BaseFd_dtor workFd ws1) Zop) as (cd & R4 & Ccd & _).
    exists ((([op; oa] ++ ws) ++ [fs]) ++ [cf'] ++ [cd]).
    split; [eapply run_trans; [eassumption | eapply run_trans; eassumption]|].
    replace ((([op; oa] ++ ws) ++ [fs]) ++ [cf'] ++ [cd])
      with ([op; oa] ++ ws ++ [fs; cf'; cd]) by (rewrite <- !app_assoc; reflexivity).
    apply wt_sync; [assumption | split; assumption | assumption | assumption]. }
  assert (Gfs : good (CFsync (ev_ret oa)) fs) by (split; assumption).
  (* close *)
  destruct (BaseFd_close (workFd, ws1)) as [rc [hc wc]] eqn:C.
  apply BaseFd_close_step in C as (-> & cf' & Rc & Ccf & _ & _ & Hcf); [|exact Zoa].
  simpl in Ccf, Hcf. pose proof (proj1 Rc) as Ec.
  assert (R0c : run w wc ((([op; oa] ++ ws) ++ [fs]) ++ [cf'])) by (eapply run_trans; eassumption).
  rewrite Es, Ea, E2, E1 in Hcf.
  destruct Hcf as [(Zcf & ->) | (Zcf & ->)].
  { intros [= <- <-].
    rewrite (BaseFd_dtor_closed (set_fd (-1) workFd)) by (simpl; lia).
    destruct (BaseFd_dtor_step dirFd wc Zop) as (cd & R4 & Ccd & _).
    exists (((([op; oa] ++ ws) ++ [fs]) ++ [cf']) ++ [cd]).
    split; [eapply run_trans; eassumption|].
    replace (((([op; oa] ++ ws) ++ [fs]) ++ [cf']) ++ [cd])
      with ([op; oa] ++ ws ++ [fs; cf'; cd]) by (rewrite <- !app_assoc; reflexivity).
    apply wt_close; [assumption | assumption | split; assumption | assumption]. }
  assert (Gcf : good (CClose (ev_ret oa)) cf') by (split; assumption).
  (* rename *)
  destruct (DirFd_renameFile work base (dirFd, wc)) as [rr [hr wr]] eqn:N.
  apply DirFd_renameFile_step in N as (-> & rn & Rr & Crn & _ & _ & Hrn). simpl in Crn, Hrn.
  pose proof (proj1 Rr) as Er.
  assert (R0r : run w wr (((([op; oa] ++ ws) ++ [fs]) ++ [cf']) ++ [rn]))
    by (eapply run_trans; eassumption).
  rewrite Ec, Es, Ea, E2, E1 in Hrn.
  destruct Hrn as [(Zrn & ->) | (Zrn & ->)].
  { intros [= <- <-].
    rewrite (BaseFd_dtor_closed (set_fd (-1) workFd)) by (simpl; lia).
    destruct (BaseFd_dtor_step dirFd wr Zop) as (cd & R4 & Ccd & _).
    exists ((((([op; oa] ++ ws) ++ [fs]) ++ [cf']) ++ [rn]) ++ [cd]).
    split; [eapply run_trans; eassumption|].
    replace ((((([op; oa] ++ ws) ++ [fs]) ++ [cf']) ++ [rn]) ++ [cd])
      with ([op; oa] ++ ws ++ [fs; cf'; rn; cd]) by (rewrite <- !app_assoc; reflexivity).
    apply wt_rename; [assumption | assumption | assumption | split; assumption | assumption]. }
  assert (Grn : good (CRenameat (ev_ret op) work (ev_ret op) base) rn) by (split; assumption).
  (* directory sync *)
  destruct (BaseFd_sync (dirFd, wr)) as [rds [hds wds]] eqn:DS.
  apply BaseFd_sync_step in DS as (-> & ds & Rds & Cds & _ & _ & Hds). simpl in Cds, Hds.
  pose proof (proj1 Rds) as Eds.
  assert (R0ds : run w wds ((((([op; oa] ++ ws) ++ [fs]) ++ [cf']) ++ [rn]) ++ [ds]))
    by (eapply run_trans; eassumption).
  rewrite Er, Ec, Es, Ea, E2, E1 in Hds.
  destruct Hds as [(Zds & ->) | (Zds & ->)].
  { intros [= <- <-].
    rewrite (BaseFd_dtor_closed (set_fd (-1) workFd)) by (simpl; lia).
    destruct (BaseFd_dtor_step dirFd wds Zop) as (cd & R4 & Ccd & _).
    exists (((((([op; oa] ++ ws) ++ [fs]) ++ [cf']) ++ [rn]) ++ [ds]) ++ [cd]).
    split; [eapply run_trans; eassumption|].
    replace (((((([op; oa] ++ ws) ++ [fs]) ++ [cf']) ++ [rn]) ++ [ds]) ++ [cd])
      with ([op; oa] ++ ws ++ [fs; cf'; rn; ds; cd]) by (rewrite <- !app_assoc; reflexivity).
    apply wt_dirsync; [assumption | assumption | assumption | assumption
                      | split; assumption | assumption]. }
  assert (Gds : good (CFsync (ev_ret op)) ds) by (split; assumption).
  (* directory close *)
  destruct (BaseFd_close (dirFd, wds)) as [rdc [hdc wdc]] eqn:DC.
  apply BaseFd_close_step in DC as (-> & cd & Rdc & Ccd & _ & _ & Hcd); [|exact Zop].
  simpl in Ccd, Hcd.
  rewrite Eds, Er, Ec, Es, Ea, E2, E1 in Hcd.
  assert (R0dc : run w wdc (((((([op; oa] ++ ws) ++ [fs]) ++ [cf']) ++ [rn]) ++ [ds]) ++ [cd]))
    by (eapply run_trans; eassumption).
  replace (((((([op; oa] ++ ws) ++ [fs]) ++ [cf']) ++ [rn]) ++ [ds]) ++ [cd])
    with ([op; oa] ++ ws ++ [fs; cf'; rn; ds; cd]) in R0dc by (rewrite <- !app_assoc; reflexivity).
  destruct Hcd as [(Zcd & ->) | (Zcd & ->)]; intros [= <- <-];
    rewrite (BaseFd_dtor_closed (set_fd (-1) workFd)),
      (BaseFd_dtor_closed (set_fd (-1) dirFd)) by (simpl; lia);
    exists ([op; oa] ++ ws ++ [fs; cf'; rn; ds; cd]); (split; [assumption|]).
  - apply wt_dirclose; [assumption | assumption | assumption | assumption | assumption
                       | split; assumption].
  - apply wt_done; [assumption | assumption | assumption | assumption | assumption
                   | split; assumption].
Qed.

(** ** The order of the protocol *)

Lemma write_run_calls fd data : forall evs off,
  write_run fd data off evs -> exists bufs, map ev_call evs = map (CWrite fd) bufs.
Proof.
  induction evs as [|ev evs IH]; intros off H; [exists []; reflexivity|].
  destruct H as (Hc & _ & [(_ & ->) | (_ & Hrun)]).
  - exists [drop off data]. simpl. rewrite Hc. reflexivity.
  - destruct (IH _ Hrun) as (bufs & Hb).
    exists (drop off data :: bufs). simpl. rewrite Hc, Hb. reflexivity.
Qed.

Lemma is_close_made fd ev : made (CClose fd) ev -> is_close ev.
Proof. intros H. exists fd. exact H. Qed.

Ltac succeed_all :=
  unfold all_succeed in *;
  repeat first [ assumption | apply Forall_app_2 | constructor ].

Ltac prefix_tac :=
  rewrite <- ?app_assoc; simpl;
  repeat first [ apply prefix_nil | apply prefix_cons | apply prefix_app
               | apply prefix_app_r; reflexivity ].

Ltac proto_failure :=
  split; [rewrite <- ?app_assoc; reflexivity|];
  split; [succeed_all|];
  split; [assumption|];
  split; [reflexivity|];
  split; [|repeat constructor; eapply is_close_made; eassumption].

Lemma write_trace_order se dir base data r evs :
  write_trace se dir base data r evs ->
  exists d f bufs,
    (r = Ret tt ->
       map ev_call evs = protocol_calls dir base d f bufs /\ all_succeed evs) /\
    (forall e, r = Throw e ->
       exists pre bad cleanup,
         evs = pre ++ bad :: cleanup /\ all_succeed pre /\ ev_ret bad = -1 /\
         code e = ev_errno bad /\
         map ev_call (pre ++ [bad]) `prefix_of` protocol_calls dir base d f bufs /\
         Forall is_close cleanup).
Proof.
  intros H. inversion H as
    [ op [Cop Zop]
    | op oa cd [Cop Zop] [Coa Zoa] Ccd
    | op oa ws wr cf cd [Cop Zop] [Coa Zoa] Hrun Hall Zwr Ccf Ccd
    | op oa ws fs cf cd St [Cfs Zfs] Ccf Ccd
    | op oa ws fs cf cd St [Cfs Zfs] [Ccf Zcf] Ccd
    | op oa ws fs cf rn cd St [Cfs Zfs] [Ccf Zcf] [Crn Zrn] Ccd
    | op oa ws fs cf rn ds cd St [Cfs Zfs] [Ccf Zcf] [Crn Zrn] [Cds Zds] Ccd
    | op oa ws fs cf rn ds cd St [Cfs Zfs] [Ccf Zcf] [Crn Zrn] [Cds Zds] [Ccd Zcd]
    | op oa ws fs cf rn ds cd St [Cfs Zfs] [Ccf Zcf] [Crn Zrn] [Cds Zds] [Ccd Zcd] ];
    subst; clear H.
  - exists 0, 0, []. split; [discriminate|]. intros e [= <-].
    exists [], op, []. proto_failure.
    simpl. rewrite Cop. eexists. reflexivity.
  - exists (ev_ret op), 0, []. split; [discriminate|]. intros e [= <-].
    exists [op], oa, [cd]. proto_failure.
    simpl. rewrite Cop, Coa. eexists. reflexivity.
  - destruct (write_run_calls _ _ _ _ Hrun) as (bufs & Hb).
    exists (ev_ret op), (ev_ret oa), bufs. split; [discriminate|]. intros e [= <-].
    exists ([op; oa] ++ ws), wr, [cf; cd]. proto_failure.
    simpl. rewrite Hb, Cop, Coa.
    unfold protocol_calls. simpl. prefix_tac.
  - destruct St as ([Cop Zop] & [Coa Zoa] & Hrun & Hall & Hend).
    destruct (write_run_calls _ _ _ _ Hrun) as (bufs & Hb).
    exists (ev_ret op), (ev_ret oa), bufs. split; [discriminate|]. intros e [= <-].
    exists ([op; oa] ++ ws), fs, [cf; cd]. proto_failure.
    rewrite !map_app, Hb. simpl. rewrite Cop, Coa, Cfs.
    unfold protocol_calls. simpl. prefix_tac.
  - destruct St as ([Cop Zop] & [Coa Zoa] & Hrun & Hall & Hend).
    destruct (write_run_calls _ _ _ _ Hrun) as (bufs & Hb).
    exists (ev_ret op), (ev_ret oa), bufs. split; [discriminate|]. intros e [= <-].
    exists ([op; oa] ++ ws ++ [fs]), cf, [cd]. proto_failure.
    rewrite !map_app, Hb. simpl. rewrite Cop, Coa, Cfs, Ccf.
    unfold protocol_calls. simpl. prefix_tac.
  - destruct St as ([Cop Zop] & [Coa Zoa] & Hrun & Hall & Hend).
    destruct (write_run_calls _ _ _ _ Hrun) as (bufs & Hb).
    exists (ev_ret op), (ev_ret oa), bufs. split; [discriminate|]. intros e [= <-].
    exists ([op; oa] ++ ws ++ [fs; cf]), rn, [cd]. proto_failure.
    rewrite !map_app, Hb. simpl. rewrite Cop, Coa, Cfs, Ccf, Crn.
    unfold protocol_calls. simpl. prefix_tac.
  - destruct St as ([Cop Zop] & [Coa Zoa] & Hrun & Hall & Hend).
    destruct (write_run_calls _ _ _ _ Hrun) as (bufs & Hb).
    exists (ev_ret op), (ev_ret oa), bufs. split; [discriminate|]. intros e [= <-].
    exists ([op; oa] ++ ws ++ [fs; cf; rn]), ds, [cd]. proto_failure.
    rewrite !map_app, Hb. simpl. rewrite Cop, Coa, Cfs, Ccf, Crn, Cds.
    unfold protocol_calls. simpl. prefix_tac.
  - destruct St as ([Cop Zop] & [Coa Zoa] & Hrun & Hall & Hend).
    destruct (write_run_calls _ _ _ _ Hrun) as (bufs & Hb).
    exists (ev_ret op), (ev_ret oa), bufs. split; [discriminate|]. intros e [= <-].
    exists ([op; oa] ++ ws ++ [fs; cf; rn; ds]), cd, []. proto_failure.
    rewrite !map_app, Hb. simpl. rewrite Cop, Coa, Cfs, Ccf, Crn, Cds, Ccd.
    unfold protocol_calls. simpl. prefix_tac.
  - destruct St as ([Cop Zop] & [Coa Zoa] & Hrun & Hall & Hend).
    destruct (write_run_calls _ _ _ _ Hrun) as (bufs & Hb).
    exists (ev_ret op), (ev_ret oa), bufs. split; [|discriminate]. intros _.
    split.
    + rewrite !map_app, Hb. simpl. rewrite Cop, Coa, Cfs, Ccf, Crn, Cds, Ccd. reflexivity.
    + succeed_all.
Qed.

(** C2.  Every call of [CommittedFile::write] returns or throws, and the
    system calls it makes are one of the traces of [write_trace].  When it
    returns, they are, in this order: open the parent directory read-only,
    create or truncate [basename + ".work"] in it write-only with mode 0644
    (420), the [write] calls, [fsync] and [close] of the work file, the
    rename of the work file to the target inside the directory, [fsync] and
    [close] of the directory; none of them failed.  When it throws, the
    calls up to the failing one are a beginning of that sequence, the
    exception carries the [errno] of the failing call, and the only calls
    after it close descriptors: no rename is made after a failure. *)
Theorem commit_protocol_order (cf : CommittedFile) (data : bytes) (w : World) :
  exists r w' evs d f bufs,
    CommittedFile_write cf data w = (r, w') /\
    trace w' = trace w ++ evs /\
    write_trace (strerror (env w)) (dirName (filePath cf)) (baseName (filePath cf))
      data r evs /\
    (r = Ret tt ->
       map ev_call evs
         = protocol_calls (dirName (filePath cf)) (baseName (filePath cf)) d f bufs /\
       all_succeed evs) /\
    (forall e, r = Throw e ->
       exists pre bad cleanup,
         evs = pre ++ bad :: cleanup /\ all_succeed pre /\ ev_ret bad = -1 /\
         code e = ev_errno bad /\
         map ev_call (pre ++ [bad])
           `prefix_of` protocol_calls (dirName (filePath cf)) (baseName (filePath cf))
                         d f bufs /\
         Forall is_close cleanup).
Proof.
  destruct (CommittedFile_write cf data w) as [r w'] eqn:E.
  destruct (CommittedFile_write_trace _ _ _ _ _ E) as (evs & (_ & Htr & _) & Hwt).
  destruct (write_trace_order _ _ _ _ _ _ Hwt) as (d & f & bufs & Hok & Hbad).
  exists r, w', evs, d, f, bufs. auto.
Qed.

(** ** [unlinkat] and the stale cleanup *)

Lemma namei_absolute e d1 d2 path :
  is_absolute path = true -> namei e d1 path = namei e d2 path.
Proof. unfold namei. intros ->. reflexivity. Qed.

Lemma at_lookup_dir w dfd d path :
  fdtab w !! dfd = Some (ODir d) ->
  at_lookup w dfd path =
  match namei (env w) d path with
  | None => inl ENOENT
  | Some l => inr l
  end.
Proof.
  intros Hfd. unfold at_lookup, at_dir. rewrite Hfd.
  destruct (is_absolute path) eqn:A; [|reflexivity].
  rewrite (namei_absolute _ (root (env w)) d) by assumption. reflexivity.
Qed.

Lemma fault_errno_not_ENOENT f : fault_errno f <> ENOENT.
Proof. destruct f; discriminate. Qed.

Lemma sys_unlinkat_effect dfd name w r w' d :
  sys_unlinkat dfd name 0 w = (r, w') ->
  fdtab w !! dfd = Some (ODir d) ->
  inodes w' = inodes w /\ fdtab w' = fdtab w /\ next_ino w' = next_ino w /\
  (r = -1 \/ r = 0) /\
  (r = -1 -> files w' = files w /\ (errno w' = ENOENT -> entry w d name = None)) /\
  (r = 0 -> exists d' n, namei (env w) d name = Some (AtName d' n) /\
                         files w' = delete (d', n) (files w)) /\
  (sched w = [] -> r = -1 -> errno w' <> ENOENT ->
     forall d' n, namei (env w) d name <> Some (AtName d' n)).
Proof.
  unfold sys_unlinkat. intros H Hfd.
  destruct (next_fate w) as [ft w1] eqn:F.
  pose proof (next_fate_nil _ _ _ F) as Hnil. fate_split.
  assert (Hl : at_lookup w1 dfd name =
               match namei (env w) d name with None => inl ENOENT | Some l => inr l end)
    by (rewrite <- Henv; apply at_lookup_dir; rewrite Hfd0; assumption).
  rewrite Hl, Hfi in H. clear Hl.
  assert (Hfail : forall e z w2, fail (CUnlinkat dfd name 0) e w1 = (z, w2) ->
            z = -1 /\ files w2 = files w /\ next_ino w2 = next_ino w /\
            inodes w2 = inodes w /\ fdtab w2 = fdtab w /\ errno w2 = e).
  { unfold fail, finish. intros e z w2 E. inv E. simpl. auto 10 with congruence. }
  unfold entry.
  destruct ft as [|flt|k].
  - destruct (namei (env w) d name) as [[d0|d' n|d' n]|] eqn:N.
    + apply Hfail in H as (-> & ? & ? & ? & ? & He).
      repeat split; auto; try discriminate.
    + destruct (files w !! (d', n)) as [i|] eqn:L.
      * unfold finish in H. inv H. simpl.
        repeat split; auto; try discriminate. intros _. exists d', n. auto.
      * apply Hfail in H as (-> & ? & ? & ? & ? & He).
        repeat split; auto; try discriminate; try congruence.
    + apply Hfail in H as (-> & ? & ? & ? & ? & He).
      repeat split; auto; try discriminate.
    + apply Hfail in H as (-> & ? & ? & ? & ? & He).
      repeat split; auto; try discriminate.
  - apply Hfail in H as (-> & ? & ? & ? & ? & He).
    repeat split; auto; try discriminate.
    + intros E. rewrite He in E. exfalso. exact (fault_errno_not_ENOENT _ E).
    + intros S0. specialize (Hnil S0). discriminate.
  - destruct (namei (env w) d name) as [[d0|d' n|d' n]|] eqn:N.
    + apply Hfail in H as (-> & ? & ? & ? & ? & He).
      repeat split; auto; try discriminate.
    + destruct (files w !! (d', n)) as [i|] eqn:L.
      * unfold finish in H. inv H. simpl.
        repeat split; auto; try discriminate. intros _. exists d', n. auto.
      * apply Hfail in H as (-> & ? & ? & ? & ? & He).
        repeat split; auto; try discriminate; try congruence.
    + apply Hfail in H as (-> & ? & ? & ? & ? & He).
      repeat split; auto; try discriminate.
    + apply Hfail in H as (-> & ? & ? & ? & ? & He).
      repeat split; auto; try discriminate.
Qed.

Lemma DirFd_ctor_dir dir w z w' d :
  sys_open dir (Z.lor O_RDONLY O_CLOEXEC) w = (z, w') -> 0 <= z ->
  namei (env w) (cwd (env w)) dir = Some (AtDir d) ->
  fdtab w' !! z = Some (ODir d).
Proof.
  intros O Hz N. apply sys_open_rdonly in O as (_ & _ & _ & _ & Hok & _).
  destruct Hok as (_ & o & -> & Ho); [lia|].
  rewrite N in Ho. subst o. apply lookup_insert_eq.
Qed.

Lemma sys_unlinkat_meta dfd name flags w r w' :
  sys_unlinkat dfd name flags w = (r, w') ->
  inodes w' = inodes w /\ next_ino w' = next_ino w /\ fdtab w' = fdtab w.
Proof.
  unfold sys_unlinkat. intros H. destruct (next_fate w) as [ft wx] eqn:F. fate_split.
  repeat case_match; unfold fail, finish in H; inv H; simpl; repeat split; congruence.
Qed.

Lemma run_sched_nil w w' evs : run w w' evs -> sched w = [] -> sched w' = [].
Proof. intros (_ & _ & ->) ->. apply drop_nil. Qed.

Lemma CommittedFile_cleanup_spec cf w r w' :
  CommittedFile_cleanup cf w = (r, w') ->
  exists evs, run w w' evs /\
    cleanup_trace (strerror (env w)) (dirName (filePath cf)) (baseName (filePath cf)) r evs /\
    inodes w' = inodes w /\ next_ino w' = next_ino w /\
    (r = Ret tt -> forall d,
       namei (env w) (cwd (env w)) (dirName (filePath cf)) = Some (AtDir d) ->
       entry w' d (baseName (filePath cf) +:+ ".work") = None) /\
    (sched w = [] -> forall d,
       namei (env w) (cwd (env w)) (dirName (filePath cf)) = Some (AtDir d) ->
       (exists d' n, namei (env w) d (baseName (filePath cf) +:+ ".work") = Some (AtName d' n)) ->
       r = Ret tt).
Proof.
  unfold CommittedFile_cleanup.
  set (dir := dirName (filePath cf)). set (base := baseName (filePath cf)).
  set (work := base +:+ ".work").
  destruct (DirFd_ctor dir w) as [rd w1] eqn:D.
  apply DirFd_ctor_step in D as (op & R1 & Cop & _ & Sop & Hop).
  pose proof (sys_open_rdonly _ _ _ _ Sop) as (Hfi1 & Hin1 & Hni1 & _ & _ & Hfree1).
  pose proof (proj1 R1) as E1.
  destruct Hop as [(Zop & ->) | (Zop & ->)].
  { intros [= <- <-]. exists [op]. split; [assumption|].
    split; [apply ct_open; split; assumption|].
    split; [congruence|]. split; [congruence|]. split; [discriminate|].
    intros S0 d N _. exfalso. specialize (Hfree1 S0 Zop). rewrite N in Hfree1. exact Hfree1. }
  assert (Gop : good (COpen dir (Z.lor O_RDONLY O_CLOEXEC)) op) by (split; [assumption | lia]).
  set (dirFd := {| directory := dir; file := NO_FILE; fd := ev_ret op |}).
  unfold bind.
  destruct (DirFd_unlink work (dirFd, w1)) as [ru [hu wu]] eqn:U.
  apply DirFd_unlink_step in U as (-> & ul & Ru & Cul & Eul & Sul & Hul).
  simpl in Cul, Sul, Hul. pose proof (proj1 Ru) as Eu.
  assert (R0u : run w wu ([op] ++ [ul])) by (eapply run_trans; eassumption).
  pose proof (sys_unlinkat_meta _ _ _ _ _ _ Sul) as (Hinu & Hniu & Hftu).
  assert (Hstate : forall d, namei (env w) (cwd (env w)) dir = Some (AtDir d) ->
            ((ev_ret ul = -1 -> ev_errno ul = ENOENT) -> entry wu d work = None) /\
            (sched w = [] ->
             (exists d' n, namei (env w) d work = Some (AtName d' n)) ->
             ev_ret ul = -1 -> ev_errno ul = ENOENT)).
  { intros d N. pose proof (DirFd_ctor_dir _ _ _ _ _ Sop Zop N) as Hd.
    pose proof (sys_unlinkat_effect _ _ _ _ _ _ Sul Hd)
      as (_ & _ & _ & Hr & Hbad & Hok & Hfree).
    split.
    - intros Hsw. destruct Hr as [Hr | Hr].
      + destruct (Hbad Hr) as [Hf He]. unfold entry in *.
        rewrite Eu, Hf. apply He. rewrite <- Eul. auto.
      + destruct (Hok Hr) as (d' & n & Hn & Hf). unfold entry.
        rewrite Eu, Hn, Hf. apply lookup_delete_eq.
    - intros S0 (d' & n & Hn) Hret.
      destruct (decide (ev_errno ul = ENOENT)) as [?|Hne]; [assumption|exfalso].
      rewrite <- E1 in Hn. rewrite Eul in Hne.
      exact (Hfree (run_sched_nil _ _ _ R1 S0) Hret Hne d' n Hn). }
  rewrite E1 in Hul.
  destruct Hul as [(Zul & Nul & ->) | (Hsw & ->)].
  { intros [= <- <-].
    destruct (BaseFd_dtor_step dirFd wu Zop) as (cd & R3 & Ccd & Scd).
    pose proof (sys_close_effect _ _ _ _ Scd) as (_ & Hin3 & Hni3 & _).
    exists (([op] ++ [ul]) ++ [cd]).
    split; [eapply run_trans; eassumption|].
    split; [apply ct_unlink; [assumption | split; assumption | assumption | assumption]|].
    split; [congruence|]. split; [congruence|]. split; [discriminate|].
    intros S0 d N Hex. exfalso.
    destruct (Hstate d N) as (_ & Hfr). apply Nul. auto. }
  destruct (BaseFd_close (dirFd, wu)) as [rc [hc wc]] eqn:C.
  apply BaseFd_close_step in C as (-> & cd & Rc & Ccd & _ & Scd & Hcd); [|exact Zop].
  simpl in Ccd, Scd, Hcd.
  pose proof (sys_close_effect _ _ _ _ Scd) as (Hfi3 & Hin3 & Hni3 & _ & Hfree3).
  rewrite Eu, E1 in Hcd.
  assert (R0c : run w wc (([op] ++ [ul]) ++ [cd])) by (eapply run_trans; eassumption).
  intros [= <- <-]. rewrite (BaseFd_dtor_closed (set_fd (-1) dirFd)) by (simpl; lia).
  exists (([op] ++ [ul]) ++ [cd]). split; [assumption|].
  destruct Hcd as [(Zcd & ->) | (Zcd & ->)].
  - split; [apply ct_close; [assumption | assumption | assumption | split; assumption]|].
    split; [congruence|]. split; [congruence|]. split; [discriminate|].
    intros S0 d N Hex. exfalso.
    pose proof (DirFd_ctor_dir _ _ _ _ _ Sop Zop N) as Hd.
    enough (ev_ret cd = 0) by lia. apply Hfree3.
    + eapply run_sched_nil; [exact Ru|]. eapply run_sched_nil; eassumption.
    + rewrite Hftu, Hd. eauto.
  - split; [apply ct_done; [assumption | assumption | assumption | split; assumption]|].
    split; [congruence|]. split; [congruence|]. split; [|reflexivity].
    intros _ d N. destruct (Hstate d N) as (He & _).
    unfold entry in *. rewrite Hfi3. rewrite (proj1 Rc). apply He. assumption.
Qed.

Lemma CommittedFile_ctor_cleanup path w r w' :
  CommittedFile_ctor path w = (r, w') ->
  CommittedFile_cleanup {| filePath := path |} w = (forget r, w') /\
  (forall cf, r = Ret cf -> cf = {| filePath := path |}).
Proof.
  unfold CommittedFile_ctor, bind, ret.
  destruct (CommittedFile_cleanup {| filePath := path |} w) as [[[]|e|] w1];
    intros [= <- <-]; (split; [reflexivity|]); intros cf; congruence.
Qed.

Lemma cleanup_trace_unlink se dir base r evs :
  cleanup_trace se dir base r evs ->
  (forall ul, In ul evs -> is_unlink ul -> ev_ret ul = -1 -> ev_errno ul <> ENOENT ->
     r = Throw (err se dir "unlink" (base +:+ ".work") EmptyString ul)) /\
  ((forall ev, In ev evs -> ev_ret ev = -1 -> is_unlink ev /\ ev_errno ev = ENOENT) ->
   r = Ret tt).
Proof.
  intros H. inversion H as
    [ op [Cop Zop]
    | op ul cd [Cop Zop] [Cul Zul] Nul Ccd
    | op ul cd [Cop Zop] Cul Hsw [Ccd Zcd]
    | op ul cd [Cop Zop] Cul Hsw [Ccd Zcd] ]; subst; clear H.
  - split.
    + intros ul [<- | []] (? & ? & ? & Hc). congruence.
    + intros Hall. destruct (Hall op (or_introl eq_refl) Zop) as [(? & ? & ? & Hc) _]. congruence.
  - split.
    + intros ul' [<- | [<- | [<- | []]]] (? & ? & ? & Hc) Hr He;
        [congruence | reflexivity | unfold made in Ccd; congruence].
    + intros Hall.
      destruct (Hall ul (or_intror (or_introl eq_refl)) Zul) as [_ ?]. contradiction.
  - split.
    + intros ul' [<- | [<- | [<- | []]]] (? & ? & ? & Hc) Hr He;
        [congruence | specialize (Hsw Hr); contradiction | congruence].
    + intros Hall.
      destruct (Hall cd (or_intror (or_intror (or_introl eq_refl))) Zcd) as [(? & ? & ? & Hc) _].
      congruence.
  - split; [|reflexivity].
    intros ul' [<- | [<- | [<- | []]]] (? & ? & ? & Hc) Hr He;
      [congruence | specialize (Hsw Hr); contradiction | congruence].
Qed.

(** C4.  Constructing a [CommittedFile] opens the parent directory, removes
    [basename + ".work"] from it and closes the directory.  An [unlinkat]
    that fails with [ENOENT] does not stop the construction; one that fails
    with any other error makes it throw that error.  When the construction
    returns, the object holds the path and the name [basename + ".work"] is
    bound to no file in the parent directory.  With no failure scheduled,
    an existing parent directory and a work name that is not a directory,
    the construction returns, whether or not the work file was there. *)
Theorem stale_cleanup_on_construction (path : string) (w : World) :
  exists r w' evs,
    CommittedFile_ctor path w = (r, w') /\
    trace w' = trace w ++ evs /\
    cleanup_trace (strerror (env w)) (dirName path) (baseName path) (forget r) evs /\
    (forall ul, In ul evs -> is_unlink ul -> ev_ret ul = -1 -> ev_errno ul <> ENOENT ->
       exists e, r = Throw e /\ code e = ev_errno ul) /\
    ((forall ev, In ev evs -> ev_ret ev = -1 -> is_unlink ev /\ ev_errno ev = ENOENT) ->
       r = Ret {| filePath := path |}) /\
    (forall cf, r = Ret cf ->
       filePath cf = path /\
       forall d, namei (env w) (cwd (env w)) (dirName path) = Some (AtDir d) ->
                 entry w' d (baseName path +:+ ".work") = None) /\
    (sched w = [] -> forall d,
       namei (env w) (cwd (env w)) (dirName path) = Some (AtDir d) ->
       (exists d' n, namei (env w) d (baseName path +:+ ".work") = Some (AtName d' n)) ->
       r = Ret {| filePath := path |}).
Proof.
  destruct (CommittedFile_ctor path w) as [r w'] eqn:E. exists r, w'.
  destruct (CommittedFile_ctor_cleanup _ _ _ _ E) as [Hc Hcf].
  destruct (CommittedFile_cleanup_spec _ _ _ _ Hc) as (evs & (_ & Htr & _) & Hct & _ & _ & Hpost & Hfree).
  simpl in Hct, Hpost, Hfree.
  destruct (cleanup_trace_unlink _ _ _ _ _ Hct) as [Hprop Hswallow].
  assert (Hret : forget r = Ret tt -> r = Ret {| filePath := path |}).
  { destruct r as [cf|e|]; try discriminate. intros _. f_equal. apply Hcf. reflexivity. }
  exists evs. split; [reflexivity|]. split; [assumption|]. split; [assumption|].
  split; [|split; [|split]].
  - intros ul Hin Hu Hr He. specialize (Hprop ul Hin Hu Hr He).
    destruct r as [cf|e|]; try discriminate. injection Hprop as ->.
    eexists. split; reflexivity.
  - intros Hall. apply Hret, Hswallow, Hall.
  - intros cf ->. split; [rewrite (Hcf cf eq_refl); reflexivity|].
    intros d N. apply Hpost; [reflexivity | assumption].
  - intros S0 d N Hex. apply Hret. eapply Hfree; eassumption.
Qed.

(** ** [openat] of the work file and [renameat]: what they change *)

Lemma sys_openat_work dfd name w r w' d :
  sys_openat dfd name work_flags work_mode w = (r, w') ->
  fdtab w !! dfd = Some (ODir d) ->
  (r = -1 -> files w' = files w /\ inodes w' = inodes w /\ fdtab w' = fdtab w /\
             next_ino w' = next_ino w) /\
  (r <> -1 ->
     r = Z.of_nat (next_fd w) /\
     exists d' n i,
       namei (env w) d name = Some (AtName d' n) /\
       fdtab w' = <[r := OFile i 0 false true]> (fdtab w) /\
       inodes w' = <[i := []]> (inodes w) /\
       (files w !! (d', n) = Some i /\ files w' = files w /\ next_ino w' = next_ino w
        \/ files w !! (d', n) = None /\ i = next_ino w /\
           files w' = <[(d', n) := i]> (files w) /\ next_ino w' = S i)) /\
  (sched w = [] -> r = -1 -> forall d' n, namei (env w) d name <> Some (AtName d' n)).
Proof.
  unfold sys_openat. intros H Hfd.
  destruct (next_fate w) as [ft w1] eqn:F.
  pose proof (next_fate_nil _ _ _ F) as Hnil. fate_split.
  assert (Hfail : forall e z w2, fail (COpenat dfd name work_flags work_mode) e w1 = (z, w2) ->
            z = -1 /\ files w2 = files w /\ next_ino w2 = next_ino w /\
            inodes w2 = inodes w /\ fdtab w2 = fdtab w).
  { unfold fail, finish. intros e z w2 E. inv E. simpl. auto 10 with congruence. }
  assert (Hfrom : forall start,
    namei (env w) start name = namei (env w) d name ->
    open_from (COpenat dfd name work_flags work_mode) start name work_flags w1 = (r, w') ->
    (r = -1 -> files w' = files w /\ inodes w' = inodes w /\ fdtab w' = fdtab w /\
               next_ino w' = next_ino w) /\
    (r <> -1 ->
       r = Z.of_nat (next_fd w) /\
       exists d' n i,
         namei (env w) d name = Some (AtName d' n) /\
         fdtab w' = <[r := OFile i 0 false true]> (fdtab w) /\
         inodes w' = <[i := []]> (inodes w) /\
         (files w !! (d', n) = Some i /\ files w' = files w /\ next_ino w' = next_ino w
          \/ files w !! (d', n) = None /\ i = next_ino w /\
             files w' = <[(d', n) := i]> (files w) /\ next_ino w' = S i)) /\
    (r = -1 -> forall d' n, namei (env w) d name <> Some (AtName d' n))).
  { intros start Hs. unfold open_from. rewrite Henv, Hs, Hfi.
    destruct (namei (env w) d name) as [[d0|d' n|d' n]|] eqn:N.
    - change (wants_write work_flags || has_flag work_flags O_CREAT) with true. cbv iota.
      intros E. apply Hfail in E as (-> & ? & ? & ? & ?).
      repeat split; auto; try contradiction; discriminate.
    - change (has_flag work_flags O_TRUNC && wants_write work_flags) with true.
      change (has_flag work_flags O_CREAT) with true.
      change (wants_read work_flags) with false.
      change (wants_write work_flags) with true. cbv iota.
      destruct (files w !! (d', n)) as [i|] eqn:L.
      + intros E. apply alloc_fd_one in E as (-> & ? & ? & ? & ? & ? & ? & ? & ?).
        simpl in *.
        split; [lia|]. split; [|lia]. intros _. split; [congruence|].
        exists d', n, i. repeat split; try congruence. left. repeat split; congruence.
      + intros E. apply alloc_fd_one in E as (-> & ? & ? & ? & ? & ? & ? & ? & ?).
        simpl in *.
        split; [lia|]. split; [|lia]. intros _. split; [congruence|].
        exists d', n, (next_ino w1). repeat split; try congruence.
        right. repeat split; congruence.
    - intros E. apply Hfail in E as (-> & ? & ? & ? & ?).
      repeat split; auto; try contradiction; discriminate.
    - intros E. apply Hfail in E as (-> & ? & ? & ? & ?).
      repeat split; auto; try contradiction; discriminate. }
  assert (Hat : exists start, at_dir w1 dfd name = inr start /\
                  namei (env w) start name = namei (env w) d name).
  { unfold at_dir. rewrite Hfd0, Hfd. destruct (is_absolute name) eqn:A.
    - eexists. split; [reflexivity|]. rewrite Henv. apply namei_absolute. assumption.
    - eexists. split; reflexivity. }
  destruct Hat as (start & Hat & Hs). rewrite Hat in H.
  destruct ft as [|flt|k].
  - apply Hfrom in H as (? & ? & ?); auto.
  - apply Hfail in H as (-> & ? & ? & ? & ?).
    repeat split; auto; try contradiction.
    intros S0. specialize (Hnil S0). discriminate.
  - apply Hfrom in H as (? & ? & ?); auto.
Qed.

Lemma sys_renameat_effect dfd old new w r w' d :
  sys_renameat dfd old dfd new w = (r, w') ->
  fdtab w !! dfd = Some (ODir d) ->
  inodes w' = inodes w /\ fdtab w' = fdtab w /\ next_ino w' = next_ino w /\
  (r = -1 \/ r = 0) /\
  (r = -1 -> files w' = files w) /\
  (r = 0 -> exists d1 n1 i d2 n2,
     namei (env w) d old = Some (AtName d1 n1) /\ files w !! (d1, n1) = Some i /\
     namei (env w) d new = Some (AtName d2 n2) /\
     files w' !! (d2, n2) = Some i /\
     (files w' = files w \/ files w' = <[(d2, n2) := i]> (delete (d1, n1) (files w)))) /\
  (sched w = [] -> r = -1 ->
     forall d1 n1 i d2 n2,
       namei (env w) d old = Some (AtName d1 n1) -> files w !! (d1, n1) = Some i ->
       namei (env w) d new = Some (AtName d2 n2) -> False).
Proof.
  unfold sys_renameat. intros H Hfd.
  destruct (next_fate w) as [ft w1] eqn:F.
  pose proof (next_fate_nil _ _ _ F) as Hnil. fate_split.
  assert (Hl : forall p, at_lookup w1 dfd p =
               match namei (env w) d p with None => inl ENOENT | Some l => inr l end)
    by (intros p; rewrite <- Henv; apply at_lookup_dir; rewrite Hfd0; assumption).
  rewrite !Hl, Hfi in H. clear Hl.
  assert (Hfail : forall e z w2, fail (CRenameat dfd old dfd new) e w1 = (z, w2) ->
            z = -1 /\ files w2 = files w /\ next_ino w2 = next_ino w /\
            inodes w2 = inodes w /\ fdtab w2 = fdtab w).
  { unfold fail, finish. intros e z w2 E. inv E. simpl. auto 10 with congruence. }
  destruct ft as [|flt|k].
  2: { apply Hfail in H as (-> & ? & ? & ? & ?).
       repeat split; auto; try discriminate.
       intros S0. specialize (Hnil S0). discriminate. }
  all: destruct (namei (env w) d old) as [[d0|d1 n1|d0 n0]|] eqn:N1;
    try (apply Hfail in H as (-> & ? & ? & ? & ?);
         repeat split; auto; try discriminate; try (intros; congruence); fail).
  all: destruct (files w !! (d1, n1)) as [i|] eqn:L1;
    try (apply Hfail in H as (-> & ? & ? & ? & ?);
         repeat split; auto; try discriminate; try (intros; congruence); fail).
  all: destruct (namei (env w) d new) as [[d0|d2 n2|d0 n0]|] eqn:N2;
    try (apply Hfail in H as (-> & ? & ? & ? & ?);
         repeat split; auto; try discriminate; try (intros; congruence); fail).
  all: destruct (bool_decide (files w !! (d2, n2) = Some i)) eqn:B;
    unfold finish in H; injection H as <- <-; simpl;
    repeat split; auto; try discriminate; intros _;
    exists d1, n1, i, d2, n2.
  1,3: apply bool_decide_eq_true in B; rewrite Hfi; auto 10.
  all: rewrite lookup_insert_eq; auto 10.
Qed.

(** ** Steps that leave the files alone *)

Lemma open_from_next_fd c start path flags w r w' :
  open_from c start path flags w = (r, w') -> r <> -1 ->
  r = Z.of_nat (next_fd w) /\ next_fd w' = S (next_fd w).
Proof.
  unfold open_from, fail, alloc_fd, finish. intros H Hr.
  repeat case_match; inv H; simpl; try contradiction; auto.
Qed.

Lemma sys_open_next_fd path flags w r w' :
  sys_open path flags w = (r, w') -> r <> -1 ->
  r = Z.of_nat (next_fd w) /\ next_fd w' = S (next_fd w).
Proof.
  unfold sys_open. intros H Hr. destruct (next_fate w) as [ft w1] eqn:F. fate_split.
  rewrite <- Hnf.
  destruct ft; try (eapply open_from_next_fd; eassumption).
  unfold fail, finish in H. inv H; try contradiction.
Qed.

Lemma sys_openat_next_fd dfd path flags mode w r w' :
  sys_openat dfd path flags mode w = (r, w') -> r <> -1 ->
  r = Z.of_nat (next_fd w).
Proof.
  unfold sys_openat. intros H Hr. destruct (next_fate w) as [ft w1] eqn:F. fate_split.
  rewrite <- Hnf.
  destruct ft; try (destruct (at_dir w1 dfd path));
    try (eapply open_from_next_fd; eassumption);
    unfold fail, finish in H; inv H; try contradiction.
Qed.

Lemma same_fs_refl w : same_fs w w.
Proof. unfold same_fs. auto. Qed.

Lemma same_fs_trans w1 w2 w3 : same_fs w1 w2 -> same_fs w2 w3 -> same_fs w1 w3.
Proof.
  intros (F1 & I1 & E1 & T1 & S1) (F2 & I2 & E2 & T2 & S2). unfold same_fs.
  repeat split; try congruence; [etrans; eassumption | auto].
Qed.

Lemma run_prefix w w' evs : run w w' evs -> trace w `prefix_of` trace w'.
Proof. intros (_ & -> & _). apply prefix_app_r. reflexivity. Qed.

Lemma run_same_fs w w' evs :
  run w w' evs -> files w' = files w -> inodes w' = inodes w -> same_fs w w'.
Proof.
  intros R F I. unfold same_fs. repeat split; auto.
  - apply R.
  - eapply run_prefix; eassumption.
  - eapply run_sched_nil; eassumption.
Qed.

Lemma BaseFd_dtor_same_fs h w : same_fs w (BaseFd_dtor h w).
Proof.
  destruct (Z.lt_ge_cases (fd h) 0) as [Hneg | Hpos].
  - rewrite BaseFd_dtor_closed by assumption. apply same_fs_refl.
  - destruct (BaseFd_dtor_step h w Hpos) as (cd & R & _ & S).
    apply sys_close_effect in S as (? & ? & _). eapply run_same_fs; eassumption.
Qed.

Lemma sys_write_free fd buf w r w' i pos rd :
  sys_write fd buf w = (r, w') -> sched w = [] ->
  fdtab w !! fd = Some (OFile i pos rd true) -> r <> -1.
Proof.
  unfold sys_write. intros H S0 Hfd.
  destruct (next_fate w) as [ft w1] eqn:F.
  rewrite (next_fate_nil _ _ _ F S0) in H. fate_split.
  rewrite Hfd0, Hfd in H. unfold finish in H. inv H. lia.
Qed.

Lemma writeAll_loop_free fuel h data : forall (written : nat) w r w' i pos rd,
  (written <= length data)%nat ->
  (length data - written + length (sched w) <= fuel)%nat ->
  writeAll_loop fuel h data (Z.of_nat (length data)) (Z.of_nat written) w = (r, w') ->
  sched w = [] -> fdtab w !! fd h = Some (OFile i pos rd true) -> r = Ret tt.
Proof.
  induction fuel as [|fuel IH]; intros written w r w' i pos rd Hle Hfuel;
    rewrite writeAll_loop_unfold; destruct (Z.of_nat written <? Z.of_nat (length data)) eqn:Hlt;
    try lia; try (intros [= <- <-]; reflexivity).
  rewrite Nat2Z.id, writeAll_buf.
  destruct (sys_write (fd h) (drop written data) w) as [r0 w1] eqn:W.
  intros H S0 Hfd.
  pose proof (sys_write_free _ _ _ _ _ _ _ _ W S0 Hfd) as Hnn.
  pose proof (sys_write_one _ _ _ _ _ W) as (_ & _ & Hsch & Hr0).
  pose proof (sys_write_effect _ _ _ _ _ W) as (_ & _ & _ & Hok).
  destruct (Hok Hnn) as (Hrange & Hfull & i' & pos' & rd' & Hl & _ & Hft).
  rewrite length_drop in Hrange, Hfull. specialize (Hfull S0).
  destruct (r0 <? 0) eqn:Hneg; [lia|].
  replace (Z.of_nat written + r0) with (Z.of_nat (written + Z.to_nat r0)) in H by lia.
  eapply IH in H; [exact H | lia | rewrite Hsch, S0; simpl; lia
                  | rewrite Hsch, S0; reflexivity
                  | rewrite Hft; apply lookup_insert_eq].
Qed.

Lemma WriteFd_writeAll_free data h w r h' w' i pos rd :
  WriteFd_writeAll data (h, w) = (r, (h', w')) -> sched w = [] ->
  fdtab w !! fd h = Some (OFile i pos rd true) -> r = Ret tt.
Proof.
  unfold WriteFd_writeAll, writeAll_fuel.
  destruct (writeAll_loop _ h data (Z.of_nat (length data)) 0 w) as [r1 w1] eqn:L.
  intros [= <- <- <-] S0 Hfd.
  eapply (writeAll_loop_free _ h data 0%nat); [| |exact L|exact S0|exact Hfd]; simpl; lia.
Qed.

Lemma write_at_0_nil (chunk : bytes) : write_at 0 chunk [] = chunk.
Proof. destruct chunk; [reflexivity|]. unfold write_at. simpl. rewrite app_nil_r. reflexivity. Qed.

(** ** The files after [CommittedFile::write] *)

Lemma staged_only_same_fs w w1 w2 d work data :
  staged_only w w1 d work data -> same_fs w1 w2 -> staged_only w w2 d work data.
Proof.
  intros H (F & I & _). unfold staged_only in *. rewrite F, I. exact H.
Qed.

Lemma CommittedFile_write_state cf data w r w' d :
  CommittedFile_write cf data w = (r, w') ->
  namei (env w) (cwd (env w)) (dirName (filePath cf)) = Some (AtDir d) ->
  (r = Ret tt -> contents w' d (baseName (filePath cf)) = Some data) /\
  (staged_only w w' d (baseName (filePath cf) +:+ ".work") data \/
   exists pre rn post,
     trace w' = trace w ++ pre ++ rn :: post /\ is_rename rn /\ ev_ret rn <> -1) /\
  (sched w = [] ->
   (exists d1 n1, namei (env w) d (baseName (filePath cf) +:+ ".work") = Some (AtName d1 n1)) ->
   (exists d2 n2, namei (env w) d (baseName (filePath cf)) = Some (AtName d2 n2)) ->
   r = Ret tt).
Proof.
  unfold CommittedFile_write.
  set (dir := dirName (filePath cf)). set (base := baseName (filePath cf)).
  set (work := base +:+ ".work").
  intros H N. revert H.
  (* the directory *)
  destruct (DirFd_ctor dir w) as [rd w1] eqn:D.
  apply DirFd_ctor_step in D as (op & R1 & Cop & _ & Sop & Hop).
  pose proof (sys_open_rdonly _ _ _ _ Sop) as (Hfi1 & Hin1 & Hni1 & _ & _ & Hfree1).
  pose proof (proj1 R1) as E1.
  destruct Hop as [(Zop & ->) | (Zop & ->)].
  { intros [= <- <-]. split; [discriminate|]. split; [left; left; split; assumption|].
    intros S0 _ _. exfalso. specialize (Hfree1 S0 Zop). rewrite N in Hfree1. exact Hfree1. }
  pose proof (DirFd_ctor_dir _ _ _ _ _ Sop Zop N) as Hd1.
  destruct (sys_open_next_fd _ _ _ _ _ Sop ltac:(lia)) as [Hopfd Hnf1].
  set (dirFd := {| directory := dir; file := NO_FILE; fd := ev_ret op |}).
  (* the work file *)
  destruct (WriteFd_ctor dirFd work w1) as [rw w2] eqn:W.
  apply WriteFd_ctor_step in W as (oa & R2 & Coa & _ & Soa & Hoa). simpl in Coa, Soa, Hoa.
  pose proof (sys_openat_work _ _ _ _ _ _ Soa Hd1) as (Hbad2 & Hok2 & Hfree2).
  pose proof (proj1 R2) as E2.
  destruct Hoa as [(Zoa & ->) | (Zoa & ->)].
  { intros [= <- <-]. destruct (Hbad2 Zoa) as (Hfi2 & Hin2 & _).
    pose proof (BaseFd_dtor_same_fs dirFd w2) as (F & I & _).
    split; [discriminate|]. split; [left; left; split; congruence|].
    intros S0 (d1 & n1 & N1) _. exfalso.
    rewrite <- E1 in N1. exact (Hfree2 (run_sched_nil _ _ _ R1 S0) Zoa d1 n1 N1). }
  destruct (Hok2 ltac:(lia)) as (Hoafd & d' & n & i & Nw & Hft2 & Hin2 & Hfiles2).
  rewrite E1 in Nw.
  assert (Hne : ev_ret op <> ev_ret oa) by lia.
  assert (Hfi2 : files w2 !! (d', n) = Some i).
  { destruct Hfiles2 as [(L & -> & _) | (_ & _ & -> & _)];
      [exact L | apply lookup_insert_eq]. }
  set (workFd := {| directory := dir; file := work; fd := ev_ret oa |}).
  assert (Hf2 : fdtab w2 !! fd workFd = Some (OFile i 0 false true))
    by (rewrite Hft2; apply lookup_insert_eq).
  unfold write_steps, bind, on_work, on_dir.
  (* writeAll *)
  destruct (WriteFd_writeAll data (workFd, w2)) as [ra [ha wa]] eqn:A.
  pose proof (WriteFd_writeAll_trace _ _ _ _ _ _ A) as (_ & _ & Hfia & _).
  pose proof (WriteFd_writeAll_state _ _ _ _ _ _ _ _ _ A Hf2)
    as (k & Hk & Hkret & Hdata & Hothers & Hfa & Hfds).
  pose proof (fun S0 => WriteFd_writeAll_free _ _ _ _ _ _ _ _ _ A S0 Hf2) as Hfreea.
  apply WriteFd_writeAll_run in A as (-> & ws & Ra & _ & Hres).
  pose proof (proj1 Ra) as Ea.
  rewrite Hin2, lookup_insert_eq, write_at_0_nil in Hdata. simpl in Hdata, Hfa, Hfds.
  assert (Hstage : forall wx, same_fs wa wx -> staged_only w wx d work data).
  { intros wx Hsame. eapply staged_only_same_fs; [|exact Hsame].
    right. exists d', n, i, k. split; [assumption|]. split; [|split; [assumption|]].
    - rewrite Hfia.
      destruct Hfiles2 as [(L & -> & _) | (L & -> & -> & _)]; [left | right];
        rewrite Hfi1 in *; rewrite ?Hni1; auto.
    - intros j Hj. rewrite Hothers, Hin2, lookup_insert_ne, Hin1 by congruence. reflexivity. }
  assert (Hda : fdtab wa !! ev_ret op = Some (ODir d)).
  { rewrite Hfds by (simpl; congruence). rewrite Hft2, lookup_insert_ne by congruence.
    exact Hd1. }
  assert (S2 : sched w = [] -> sched w2 = [])
    by (intros S0; eapply run_sched_nil; [exact R2|]; eapply run_sched_nil; eassumption).
  assert (Sa : sched w = [] -> sched wa = [])
    by (intros S0; eapply run_sched_nil; [exact Ra|]; auto).
  assert (R0a : run w wa (([op] ++ [oa]) ++ ws))
    by (eapply run_trans; [eapply run_trans|]; eassumption).
  pose proof (fun wx => BaseFd_dtor_same_fs dirFd wx) as Dd.
  pose proof (fun wx => BaseFd_dtor_same_fs workFd wx) as Dw.
  destruct Hres as [(-> & _) | (ws0 & wr & -> & _ & _ & ->)].
  2: { intros [= <- <-]. split; [discriminate|]. split.
       - left. apply Hstage. eapply same_fs_trans; [apply Dw | apply Dd].
       - intros S0 _ _. specialize (Hfreea (S2 S0)). discriminate. }
  specialize (Hkret eq_refl). subst k. rewrite firstn_all in Hdata.
  (* fsync of the work file *)
  destruct (BaseFd_sync (workFd, wa)) as [rs [hs ws1]] eqn:S.
  apply BaseFd_sync_step in S as (-> & fs & Rs & _ & _ & Ss & Hfs). simpl in Ss.
  pose proof (sys_fsync_effect _ _ _ _ Ss) as (Hfis & Hins & _ & Hfts & Hfrees).
  assert (SFs : same_fs wa ws1) by (eapply run_same_fs; eassumption).
  destruct Hfs as [(Zfs & ->) | (Zfs & ->)].
  { intros [= <- <-]. split; [discriminate|]. split.
    - left. apply Hstage.
      eapply same_fs_trans; [exact SFs|]. eapply same_fs_trans; [apply Dw | apply Dd].
    - intros S0 _ _. exfalso. enough (ev_ret fs = 0) by lia.
      apply Hfrees; [auto | rewrite Hfa; eauto]. }
  (* close of the work file *)
  destruct (BaseFd_close (workFd, ws1)) as [rc [hc wc]] eqn:C.
  apply BaseFd_close_step in C as (-> & cf' & Rc & _ & _ & Sc & Hcf); [|exact Zoa].
  simpl in Sc.
  pose proof (sys_close_effect _ _ _ _ Sc) as (Hfic & Hinc & _ & Hftc & Hfreec).
  assert (SFc : same_fs wa wc)
    by (eapply same_fs_trans; [exact SFs|]; eapply run_same_fs; eassumption).
  pose proof (fun wx => BaseFd_dtor_same_fs (set_fd (-1) workFd) wx) as Dw'.
  destruct Hcf as [(Zcf & ->) | (Zcf & ->)].
  { intros [= <- <-]. split; [discriminate|]. split.
    - left. apply Hstage.
      eapply same_fs_trans; [exact SFc|]. eapply same_fs_trans; [apply Dw' | apply Dd].
    - intros S0 _ _. exfalso. enough (ev_ret cf' = 0) by lia.
      apply Hfreec; [apply SFs; auto | rewrite Hfts, Hfa; eauto]. }
  (* rename *)
  assert (Hdc : fdtab wc !! ev_ret op = Some (ODir d)).
  { rewrite Hftc, lookup_delete_ne, Hfts by (simpl; congruence). exact Hda. }
  assert (R0c : run w wc (((([op] ++ [oa]) ++ ws) ++ [fs]) ++ [cf']))
    by (eapply run_trans; [eapply run_trans|]; eassumption).
  assert (Ec : env wc = env w) by apply R0c.
  assert (Hfc : files wc !! (d', n) = Some i).
  { destruct SFc as (-> & _). rewrite Hfia. exact Hfi2. }
  destruct (DirFd_renameFile work base (dirFd, wc)) as [rr [hr wrn]] eqn:Nn.
  apply DirFd_renameFile_step in Nn as (-> & rn & Rr & Crn & _ & Sr & Hrn). simpl in Crn, Sr.
  pose proof (sys_renameat_effect _ _ _ _ _ _ _ Sr Hdc)
    as (Hinr & Hftr & _ & Hr01 & Hbadr & Hokr & Hfreer).
  rewrite Ec in Hokr, Hfreer.
  destruct Hrn as [(Zrn & ->) | (Zrn & ->)].
  { intros [= <- <-]. split; [discriminate|]. split.
    - left. apply Hstage.
      eapply same_fs_trans; [exact SFc|].
      eapply same_fs_trans; [eapply run_same_fs; [exact Rr | auto | auto]|].
      eapply same_fs_trans; [apply Dw' | apply Dd].
    - intros S0 _ (d2 & n2 & N2). exfalso.
      eapply (Hfreer (proj2 (proj2 (proj2 (proj2 SFc))) (Sa S0)) Zrn); eassumption. }
  assert (Hr0 : ev_ret rn = 0) by (destruct Hr01; [contradiction | assumption]).
  destruct (Hokr Hr0) as (d1 & n1 & i1 & d2 & n2 & N1 & L1 & N2 & L2 & _).
  rewrite Nw in N1. injection N1 as <- <-. rewrite Hfc in L1. injection L1 as <-.
  assert (Hcontent : forall wx, same_fs wrn wx -> contents wx d base = Some data).
  { intros wx (F & I & E & _). apply contents_entry. exists d2, n2, i.
    rewrite E, (proj1 Rr), Ec, F, I, Hinr. split; [assumption|]. split; [assumption|].
    destruct SFc as (_ & -> & _). symmetry. exact Hdata. }
  assert (Hren : forall wx, same_fs wrn wx ->
            exists pre rn0 post, trace wx = trace w ++ pre ++ rn0 :: post /\
                                 is_rename rn0 /\ ev_ret rn0 <> -1).
  { intros wx (_ & _ & _ & (post & ->) & _).
    exists (((([op] ++ [oa]) ++ ws) ++ [fs]) ++ [cf']), rn, post.
    split; [|split; [|assumption]].
    - rewrite (proj1 (proj2 Rr)), (proj1 (proj2 R0c)), <- !app_assoc. reflexivity.
    - do 4 eexists. exact Crn. }
  (* fsync and close of the directory *)
  destruct (BaseFd_sync (dirFd, wrn)) as [rds [hds wds]] eqn:DS.
  apply BaseFd_sync_step in DS as (-> & ds & Rds & _ & _ & Sds & Hds). simpl in Sds.
  pose proof (sys_fsync_effect _ _ _ _ Sds) as (Hfids & Hinds & _ & Hftds & Hfreeds).
  assert (SFds : same_fs wrn wds) by (eapply run_same_fs; eassumption).
  assert (Srn : sched w = [] -> sched wrn = []).
  { intros S0. eapply run_sched_nil; [exact Rr|]. apply SFc. auto. }
  destruct Hds as [(Zds & ->) | (Zds & ->)].
  { intros [= <- <-]. split; [discriminate|]. split.
    - right. apply Hren.
      eapply same_fs_trans; [exact SFds|]. eapply same_fs_trans; [apply Dw' | apply Dd].
    - intros S0 _ _. exfalso. enough (ev_ret ds = 0) by lia.
      apply Hfreeds; [auto | rewrite Hftr, Hdc; eauto]. }
  destruct (BaseFd_close (dirFd, wds)) as [rdc [hdc wdc]] eqn:DC.
  apply BaseFd_close_step in DC as (-> & cd & Rdc & _ & _ & Sdc & Hdcl); [|exact Zop].
  simpl in Sdc.
  pose proof (sys_close_effect _ _ _ _ Sdc) as (Hfidc & Hindc & _ & Hftdc & Hfreedc).
  assert (SFdc : same_fs wrn wdc)
    by (eapply same_fs_trans; [exact SFds|]; eapply run_same_fs; eassumption).
  pose proof (fun wx => BaseFd_dtor_same_fs (set_fd (-1) dirFd) wx) as Dd'.
  assert (SFend : same_fs wrn (BaseFd_dtor (set_fd (-1) dirFd)
                                 (BaseFd_dtor (set_fd (-1) workFd) wdc)))
    by (eapply same_fs_trans; [exact SFdc|]; eapply same_fs_trans; [apply Dw' | apply Dd']).
  destruct Hdcl as [(Zdc & ->) | (Zdc & ->)]; intros [= <- <-].
  - split; [discriminate|]. split; [right; apply Hren; exact SFend|].
    intros S0 _ _. exfalso. enough (ev_ret cd = 0) by lia.
    apply Hfreedc; [apply SFds; auto | rewrite Hftds, Hftr, Hdc; eauto].
  - split; [intros _; apply Hcontent; exact SFend|].
    split; [right; apply Hren; exact SFend|]. reflexivity.
Qed.

(** ** The work name and the target name are different entries *)

Lemma components_nonempty s : Libc.components s <> [].
Proof.
  destruct s as [|c s]; simpl; [discriminate|].
  destruct (Libc.is_slash c); [discriminate|].
  destruct (Libc.components s); discriminate.
Qed.

Lemma components_no_slash t :
  Libc.no_slash t = true -> Libc.components t = [t].
Proof.
  induction t as [|c t IH]; simpl; [reflexivity|].
  destruct (Libc.is_slash c); simpl; [discriminate|].
  intros H. rewrite (IH H). reflexivity.
Qed.

Lemma components_app_suffix s t :
  Libc.no_slash t = true ->
  Libc.components (s +:+ t)
  = removelast (Libc.components s) ++ [List.last (Libc.components s) EmptyString +:+ t].
Proof.
  intros Ht. induction s as [|c s IH].
  - simpl. apply components_no_slash. assumption.
  - pose proof (components_nonempty s) as Hne.
    change (String c s +:+ t) with (String c (s +:+ t)).
    cbn [Libc.components]. rewrite IH.
    destruct (Libc.components s) as [|y ys]; [contradiction|].
    destruct (Libc.is_slash c).
    + destruct ys; reflexivity.
    + destruct ys as [|y2 ys]; reflexivity.
Qed.

Lemma walk_AtName e : forall cs d d' n,
  walk e d cs = AtName d' n -> List.last cs EmptyString = n.
Proof.
  induction cs as [|c cs IH]; intros d d' n; [discriminate|].
  destruct cs as [|c2 cs].
  - simpl. destruct (step_dir e d c); intros [= _ <-]. reflexivity.
  - change (walk e d (c :: c2 :: cs))
      with (match step_dir e d c with
            | Some d1 => walk e d1 (c2 :: cs)
            | None => NotDir d c
            end).
    destruct (step_dir e d c); [|discriminate].
    intros H. apply IH in H. exact H.
Qed.

Lemma namei_AtName_last e d path d' n :
  namei e d path = Some (AtName d' n) ->
  List.last (Libc.components path) EmptyString = n.
Proof.
  unfold namei. destruct (Libc.is_empty path); [discriminate|].
  intros [= H]. eapply walk_AtName. exact H.
Qed.

Lemma last_snoc {A} (l : list A) (x d : A) : List.last (l ++ [x]) d = x.
Proof. apply last_last. Qed.

Lemma string_app_length (a b : string) :
  String.length (a +:+ b) = (String.length a + String.length b)%nat.
Proof. induction a; simpl; auto. Qed.

Lemma work_name_differs e d base d1 n1 d2 n2 :
  namei e d (base +:+ ".work") = Some (AtName d1 n1) ->
  namei e d base = Some (AtName d2 n2) ->
  n1 <> n2.
Proof.
  intros H1 H2. apply namei_AtName_last in H1, H2.
  rewrite components_app_suffix, last_snoc in H1 by reflexivity.
  rewrite H2 in H1. subst n1. intros E.
  apply (f_equal String.length) in E. rewrite string_app_length in E. simpl in E. lia.
Qed.

(** ** A failure before the rename *)


Lemma staged_only_frame w w' d work data d0 name :
  fs_wf w -> env w' = env w ->
  staged_only w w' d work data ->
  namei (env w) d0 name <> namei (env w) d work ->
  contents w' d0 name = contents w d0 name.
Proof.
  intros [Hfresh Hlinks] E [[F I] | (d' & n & i & k & Nw & Hfiles & Hdata & Hothers)] Hne;
    unfold contents, entry; rewrite E.
  - rewrite F, I. reflexivity.
  - destruct (namei (env w) d0 name) as [[?|d2 n2|? ?]|] eqn:N0; try reflexivity.
    assert (Hkey : (d', n) <> (d2, n2)) by (intros [= <- <-]; congruence).
    assert (Hf : files w' !! (d2, n2) = files w !! (d2, n2)).
    { destruct Hfiles as [(_ & ->) | (_ & _ & ->)];
        [reflexivity | apply lookup_insert_ne; assumption]. }
    rewrite Hf. destruct (files w !! (d2, n2)) as [j|] eqn:L; [|reflexivity].
    rewrite Hothers; [reflexivity|].
    destruct Hfiles as [(Li & _) | (_ & -> & _)].
    + intros ->. apply Hkey. eapply Hlinks; eassumption.
    + specialize (Hfresh _ _ L). lia.
Qed.



(** ** Round trip *)

Lemma CommittedFile_write_env cf data w r w' :
  CommittedFile_write cf data w = (r, w') -> env w' = env w.
Proof. intros H. apply CommittedFile_write_trace in H as (evs & (E & _) & _). exact E. Qed.

Lemma write_then_read (cf : CommittedFile) (data : bytes) (w w' : World) (d : nat) :
  namei (env w) (cwd (env w)) (dirName (filePath cf)) = Some (AtDir d) ->
  namei (env w) (cwd (env w)) (filePath cf) = namei (env w) d (baseName (filePath cf)) ->
  CommittedFile_write cf data w = (Ret tt, w') ->
  contents w' (cwd (env w')) (filePath cf) = Some data /\
  exists r w'',
    CommittedFile_read cf w' = (r, w'') /\
    (r = Ret data \/ exists e, r = Throw e /\ sched w' <> []).
Proof.
  intros N Hsame H.
  pose proof (CommittedFile_write_env _ _ _ _ _ H) as E.
  destruct (CommittedFile_write_state _ _ _ _ _ _ H N) as (Hc & _ & _).
  specialize (Hc eq_refl).
  assert (Hfull : contents w' (cwd (env w')) (filePath cf) = Some data).
  { unfold contents, entry in *. rewrite E in *. rewrite Hsame. exact Hc. }
  split; [exact Hfull|].
  unfold CommittedFile_read.
  destruct (readFile (filePath cf) w') as [r w''] eqn:R. exists r, w''.
  split; [reflexivity|].
  destruct (readFile_inv _ _ _ _ R) as (_ & _ & _ & _ & Hshape & Hfree).
  destruct (sched w') as [|ft s] eqn:S0.
  - left. apply Hfree; [reflexivity | assumption].
  - destruct Hshape as [(ev & _ & _ & _ & -> & _) |
                        (op & reads & last & cl & _ & _ & _ & _ & _ & _ & _ & _ & Hres)].
    + right. eexists. split; [reflexivity | discriminate].
    + destruct Hres as [(_ & os & -> & Hos) | (_ & ->)].
      * left. f_equal. congruence.
      * right. eexists. split; [reflexivity | discriminate].
Qed.

(** C1 as amended.  When the parent directory exists and the kernel resolves
    the target path to the entry [basename] of that directory, a successful
    [write] binds the path to the payload, and the [read] that follows
    returns the payload, unless it throws because a failure was scheduled
    for one of its own system calls. *)
Theorem round_trip (cf : CommittedFile) (data : bytes) (w w' : World) (d : nat) :
  namei (env w) (cwd (env w)) (dirName (filePath cf)) = Some (AtDir d) ->
  namei (env w) (cwd (env w)) (filePath cf) = namei (env w) d (baseName (filePath cf)) ->
  CommittedFile_write cf data w = (Ret tt, w') ->
  contents w' (cwd (env w')) (filePath cf) = Some data /\
  exists r w'',
    CommittedFile_read cf w' = (r, w'') /\
    (r = Ret data \/ exists e, r = Throw e /\ sched w' <> []).
Proof. exact (write_then_read cf data w w' d). Qed.

(** C1 as stated fails for a path with a trailing slash: [write] commits to
    the entry [f] of the working directory and returns, and [read] opens
    [f/], which can only name a directory: it throws [ENOTDIR]. *)
Lemma round_trip_fails_on_trailing_slash :
  let cf := {| filePath := "f/" |} in
  let '(r, w') := CommittedFile_write cf hi (demo_world []) in
  r = Ret tt /\ sched w' = [] /\ contents w' 0%nat "f" = Some hi /\
  (exists e, fst (CommittedFile_read cf w') = Throw e /\ code e = ENOTDIR) /\
  fst (CommittedFile_read cf w') <> Ret hi.
Proof.
  vm_compute. repeat split; try reflexivity.
  - eexists. split; reflexivity.
  - discriminate.
Qed.

(** ** The empty payload *)







(** ** Error messages *)








Lemma prefix_app (sub b : string) : String.prefix sub (sub +:+ b) = true.
Proof.
  induction sub as [|x sub IH].
  - change (EmptyString +:+ b) with b. destruct b; reflexivity.
  - change (String x sub +:+ b) with (String x (sub +:+ b)). simpl.
    destruct (ascii_dec x x); [exact IH | contradiction].
Qed.






(** ** The driver *)








(** ** The theorems at sample inputs *)


Lemma descriptor_closed_exactly_once_witness :
  0 <= fd demo_handle /\
  closes (trace (lifetime [MSync; MClose; MSync; MClose] demo_handle open_world))
  = closes (trace open_world) ++ [fd demo_handle] /\
  BaseFd_dtor demo_handle open_world = snd (sys_close (fd demo_handle) open_world).
Proof.
  assert (H : 0 <= fd demo_handle) by (vm_compute; discriminate).
  destruct (descriptor_closed_exactly_once demo_handle open_world H) as (A & _ & C).
  split; [exact H|]. split.
  - exact (A [MSync; MClose; MSync; MClose]).
  - exact (C _ _ (surjective_pairing _)).
Defined.


Lemma round_trip_witness :
  namei (env (demo_world [])) (cwd (env (demo_world []))) (dirName (filePath target_tmp_f))
  = Some (AtDir 1%nat) /\
  namei (env (demo_world [])) (cwd (env (demo_world []))) (filePath target_tmp_f)
  = namei (env (demo_world [])) 1%nat (baseName (filePath target_tmp_f)) /\
  CommittedFile_write target_tmp_f hi (demo_world [])
  = (Ret tt, snd (CommittedFile_write target_tmp_f hi (demo_world []))) /\
  contents (snd (CommittedFile_write target_tmp_f hi (demo_world [])))
    (cwd (env (snd (CommittedFile_write target_tmp_f hi (demo_world [])))))
    (filePath target_tmp_f)
  = Some hi /\
  exists r w'',
    CommittedFile_read target_tmp_f (snd (CommittedFile_write target_tmp_f hi (demo_world [])))
    = (r, w'') /\
    (r = Ret hi \/
     exists e, r = Throw e /\
       sched (snd (CommittedFile_write target_tmp_f hi (demo_world []))) <> []).
Proof.
  assert (N : namei (env (demo_world [])) (cwd (env (demo_world [])))
                (dirName (filePath target_tmp_f)) = Some (AtDir 1%nat))
    by (vm_compute; reflexivity).
  assert (S : namei (env (demo_world [])) (cwd (env (demo_world []))) (filePath target_tmp_f)
              = namei (env (demo_world [])) 1%nat (baseName (filePath target_tmp_f)))
    by (vm_compute; reflexivity).
  assert (W : CommittedFile_write target_tmp_f hi (demo_world [])
              = (Ret tt, snd (CommittedFile_write target_tmp_f hi (demo_world []))))
    by (vm_compute; reflexivity).
  split; [exact N|]. split; [exact S|]. split; [exact W|].
  exact (round_trip target_tmp_f hi (demo_world []) _ 1%nat N S W).
Defined.


(** * Further properties *)

Import Effects.

(** ** The count operand read by [atoi] *)

Lemma digit_not_space c : Libc.is_digit c = true -> Libc.is_space c = false.
Proof.
  unfold Libc.is_digit, Libc.is_space. intros H.
  apply andb_true_iff in H as [H1 H2].
  apply Nat.leb_le in H1. apply Nat.leb_le in H2.
  apply orb_false_iff. split.
  - apply Nat.eqb_neq. lia.
  - apply andb_false_iff. right. apply Nat.leb_gt. lia.
Qed.

Lemma atoi_digit_first c s :
  Libc.is_digit c = true ->
  Libc.atoi (String c s) = Libc.to_int (Libc.digits_value 0 (String c s)).
Proof.
  intros H. unfold Libc.atoi. cbn [Libc.skip_space].
  rewrite (digit_not_space _ H).
  destruct c as [[] [] [] [] [] [] [] []]; try discriminate H; reflexivity.
Qed.

Lemma to_int_small z : - 2 ^ 31 <= z < 2 ^ 31 -> Libc.to_int z = z.
Proof. intros H. unfold Libc.to_int. rewrite Z.mod_small; lia. Qed.

Lemma positive_integer_atoi s v :
  positive_integer s = Some v -> v < 2 ^ 31 -> Libc.atoi s = v /\ 1 <= v.
Proof.
  unfold positive_integer. intros H Hv.
  destruct s as [|c s]; [discriminate|].
  cbn [Libc.is_empty negb andb all_digits] in H.
  destruct (Libc.is_digit c) eqn:Hc; [|discriminate]. cbn [andb] in H.
  destruct (all_digits s); [|discriminate].
  destruct (1 <=? Libc.digits_value 0 (String c s)) eqn:H1; [|discriminate].
  assert (Hd : v = Libc.digits_value 0 (String c s)) by congruence.
  clear H. subst v. apply Z.leb_le in H1.
  rewrite (atoi_digit_first _ _ Hc), to_int_small by lia. split; [reflexivity | assumption].
Qed.

(** X9.  A count written as decimal digits only, with a value of at least 1
    that fits an [int], is read by [atoi] as that value, and [main] then runs
    exactly that many iterations of [writeFile]. *)
Theorem decimal_count_runs_that_many (argv : list string) (p : Proc) (v : Z) :
  length argv = 3%nat ->
  positive_integer (count_arg argv) = Some v ->
  v < 2 ^ 31 ->
  Libc.atoi (count_arg argv) = v /\
  main argv p = main_loop (Z.to_nat v) (filename_arg argv) p.
Proof.
  intros Hl Hp Hv. destruct (positive_integer_atoi _ _ Hp Hv) as [Ha H1].
  split; [assumption|].
  unfold main. rewrite Hl. cbn [Z.of_nat Pos.of_succ_nat Pos.succ Z.eqb Pos.eqb negb].
  fold (count_arg argv). fold (filename_arg argv). rewrite Ha.
  destruct (v <? 1) eqn:B; [apply Z.ltb_lt in B; lia | reflexivity].
Qed.

Lemma decimal_count_runs_that_many_witness :
  length ["fsynctest"; "f"; "12"] = 3%nat /\
  positive_integer (count_arg ["fsynctest"; "f"; "12"]) = Some 12 /\
  12 < 2 ^ 31 /\
  main ["fsynctest"; "f"; "12"] ([], demo_world [])
  = main_loop (Z.to_nat 12) (filename_arg ["fsynctest"; "f"; "12"]) ([], demo_world []).
Proof.
  assert (H1 : length ["fsynctest"; "f"; "12"] = 3%nat) by reflexivity.
  assert (H2 : positive_integer (count_arg ["fsynctest"; "f"; "12"]) = Some 12)
    by (vm_compute; reflexivity).
  assert (H3 : 12 < 2 ^ 31) by (vm_compute; reflexivity).
  split; [exact H1|]. split; [exact H2|]. split; [exact H3|].
  exact (proj2 (decimal_count_runs_that_many _ ([], demo_world []) 12 H1 H2 H3)).
Defined.

(** ** [readFile] changes nothing *)

Lemma fd_wf_fresh w : fd_wf w -> fdtab w !! Z.of_nat (next_fd w) = None.
Proof.
  intros H. apply eq_None_not_Some. intros Hs. specialize (H _ Hs). lia.
Qed.

Lemma contents_same w w' :
  env w' = env w -> files w' = files w -> inodes w' = inodes w ->
  forall d path, contents w' d path = contents w d path.
Proof. intros E F I d path. unfold contents, entry. rewrite E, F, I. reflexivity. Qed.

Lemma readFile_fdtab path w r w' :
  readFile path w = (r, w') -> fd_wf w -> fdtab w' = fdtab w.
Proof.
  unfold readFile. intros H Hwf.
  destruct (sys_open path (Z.lor O_RDONLY O_CLOEXEC) w) as [fd w1] eqn:O.
  pose proof (sys_open_rdonly _ _ _ _ O) as (_ & _ & _ & Hbad & Hok & _).
  destruct (fd =? -1) eqn:Zfd.
  - apply Z.eqb_eq in Zfd. injection H as <- <-. auto.
  - apply Z.eqb_neq in Zfd. destruct (Hok Zfd) as (Hfd & o & Hft1 & _).
    destruct (readFile_loop (S (remaining w1 fd)) fd [] w1) as [res w2] eqn:L.
    apply readFile_loop_spec in L as (_ & _ & _ & _ & Hothers & _ & evs & ev & os & len & -> & _);
      [|lia].
    destruct (sys_close fd w2) as [z w3] eqn:C.
    apply sys_close_effect in C as (_ & _ & _ & Hft3 & _).
    assert (Hends : w' = w3) by (destruct (len <? 0); congruence).
    subst w'. apply map_eq. intros k. rewrite Hft3.
    destruct (decide (k = fd)) as [-> | Hne].
    + rewrite lookup_delete_eq, Hfd. symmetry. apply fd_wf_fresh. assumption.
    + rewrite lookup_delete_ne, Hothers, Hft1, lookup_insert_ne by congruence. reflexivity.
Qed.

Lemma demo_fd_wf data s : fd_wf (demo_world_with data s).
Proof. intros fd [o Ho]. unfold demo_world_with in Ho. cbn [fdtab] in Ho.
  rewrite lookup_empty in Ho. discriminate Ho.
Defined.

(** X5.  [readFile] is read-only: whether it returns or throws, every path
    names the contents it named before, the file table and the contents of
    the files are the same, and (in a well-formed descriptor table) so is
    the table of open descriptors: the descriptor it used is closed again. *)
Theorem readFile_changes_nothing (path : string) (w : World) (r : Res bytes) (w' : World) :
  fd_wf w ->
  readFile path w = (r, w') ->
  (forall d p, contents w' d p = contents w d p) /\
  files w' = files w /\ inodes w' = inodes w /\ fdtab w' = fdtab w.
Proof.
  intros Hwf H. pose proof (readFile_inv _ _ _ _ H) as (E & F & I & _).
  split; [apply contents_same; assumption|]. split; [assumption|]. split; [assumption|].
  eapply readFile_fdtab; eassumption.
Qed.

Lemma readFile_changes_nothing_witness :
  fd_wf (demo_world_with hi [Short 1]) /\
  readFile "f" (demo_world_with hi [Short 1])
  = (fst (readFile "f" (demo_world_with hi [Short 1])),
     snd (readFile "f" (demo_world_with hi [Short 1]))) /\
  fdtab (snd (readFile "f" (demo_world_with hi [Short 1])))
  = fdtab (demo_world_with hi [Short 1]) /\
  files (snd (readFile "f" (demo_world_with hi [Short 1])))
  = files (demo_world_with hi [Short 1]).
Proof.
  split; [apply demo_fd_wf|]. split; [apply surjective_pairing|].
  destruct (readFile_changes_nothing "f" (demo_world_with hi [Short 1]) _ _
              (demo_fd_wf hi [Short 1]) (surjective_pairing _)) as (_ & F & _ & T).
  split; [exact T | exact F].
Defined.

(** ** Descriptors are given back *)







(** The next descriptor number moves only when a descriptor is given out. *)



























(** ** What the construction changes *)

Lemma CommittedFile_cleanup_files cf w r w' d :
  CommittedFile_cleanup cf w = (r, w') ->
  namei (env w) (cwd (env w)) (dirName (filePath cf)) = Some (AtDir d) ->
  files w' = files w \/
  exists d' n,
    namei (env w) d (baseName (filePath cf) +:+ ".work") = Some (AtName d' n) /\
    files w' = delete (d', n) (files w).
Proof.
  unfold CommittedFile_cleanup. intros H N.
  destruct (DirFd_ctor (dirName (filePath cf)) w) as [rd w1] eqn:D.
  apply DirFd_ctor_step in D as (op & R1 & _ & _ & Sop & Hop).
  pose proof (sys_open_rdonly _ _ _ _ Sop) as (Hfi1 & _).
  pose proof (proj1 R1) as E1.
  destruct Hop as [(Zop & ->) | (Zop & ->)].
  { injection H as <- <-. left. assumption. }
  pose proof (DirFd_ctor_dir _ _ _ _ _ Sop Zop N) as Hd.
  unfold bind in H.
  destruct (DirFd_unlink _ _) as [ru [hu wu]] eqn:U.
  apply DirFd_unlink_step in U as (-> & ul & _ & _ & _ & Sul & _). cbn [fd] in Sul.
  pose proof (sys_unlinkat_effect _ _ _ _ _ _ Sul Hd) as (_ & _ & _ & Hr & Hbad & Hok & _).
  rewrite E1 in Hok.
  assert (Hu : files wu = files w \/
               exists d' n,
                 namei (env w) d (baseName (filePath cf) +:+ ".work") = Some (AtName d' n) /\
                 files wu = delete (d', n) (files w)).
  { destruct Hr as [Hr | Hr].
    - left. destruct (Hbad Hr) as [-> _]. assumption.
    - right. destruct (Hok Hr) as (d' & n & Hn & ->). exists d', n. rewrite Hfi1. auto. }
  assert (Hend : forall wx, same_fs wu wx ->
            files wx = files w \/
            exists d' n,
              namei (env w) d (baseName (filePath cf) +:+ ".work") = Some (AtName d' n) /\
              files wx = delete (d', n) (files w)).
  { intros wx (F & _). rewrite F. exact Hu. }
  destruct ru as [[]|e|].
  - destruct (BaseFd_close _) as [rc [hc wc]] eqn:C.
    apply BaseFd_close_step in C as (-> & cd & Rc & _ & _ & Scd & _); [|exact Zop].
    apply sys_close_effect in Scd as (Hfic & Hinc & _).
    injection H as <- <-. apply Hend.
    eapply same_fs_trans; [eapply run_same_fs; eassumption | apply BaseFd_dtor_same_fs].
  - injection H as <- <-. apply Hend. apply BaseFd_dtor_same_fs.
  - injection H as <- <-. apply Hend. apply BaseFd_dtor_same_fs.
Qed.

Lemma cleanup_frame w w' d work d0 name :
  env w' = env w -> inodes w' = inodes w ->
  (files w' = files w \/
   exists d' n, namei (env w) d work = Some (AtName d' n) /\
                files w' = delete (d', n) (files w)) ->
  namei (env w) d0 name <> namei (env w) d work ->
  contents w' d0 name = contents w d0 name.
Proof.
  intros E I [F | (d' & n & Nw & F)] Hne; unfold contents, entry; rewrite E, I, F;
    [reflexivity|].
  destruct (namei (env w) d0 name) as [[?|d2 n2|? ?]|] eqn:N0; try reflexivity.
  rewrite lookup_delete_ne; [reflexivity|]. intros [= <- <-]. congruence.
Qed.

(** X4.  When the parent directory exists, constructing a [CommittedFile]
    changes the contents of no file and takes away at most the work name:
    in every outcome the target name holds what it held, and so does every
    name that does not resolve to the work name. *)
Theorem construction_touches_only_work_name
    (path : string) (w : World) (d : nat) (r : Res CommittedFile) (w' : World) :
  namei (env w) (cwd (env w)) (dirName path) = Some (AtDir d) ->
  CommittedFile_ctor path w = (r, w') ->
  inodes w' = inodes w /\
  contents w' d (baseName path) = contents w d (baseName path) /\
  (forall d0 name,
     namei (env w) d0 name <> namei (env w) d (baseName path +:+ ".work") ->
     contents w' d0 name = contents w d0 name).
Proof.
  intros N H. apply CommittedFile_ctor_cleanup in H as [H _].
  pose proof (CommittedFile_cleanup_spec _ _ _ _ H) as (evs & R & _ & I & _).
  pose proof (CommittedFile_cleanup_files _ _ _ _ d H N) as F. cbn [filePath] in F.
  pose proof (proj1 R) as E.
  assert (Hframe : forall d0 name,
            namei (env w) d0 name <> namei (env w) d (baseName path +:+ ".work") ->
            contents w' d0 name = contents w d0 name)
    by (intros; eapply cleanup_frame; eassumption).
  split; [assumption|]. split; [|exact Hframe].
  destruct (namei (env w) d (baseName path)) as [[?|d2 n2|? ?]|] eqn:Nb.
  2: { apply Hframe. rewrite Nb. intros E2. symmetry in E2.
       exact (work_name_differs _ _ _ _ _ _ _ E2 Nb eq_refl). }
  all: unfold contents, entry; rewrite E, Nb; reflexivity.
Qed.

Lemma construction_touches_only_work_name_witness :
  namei (env full_disk) (cwd (env full_disk)) (dirName "f") = Some (AtDir 0%nat) /\
  CommittedFile_ctor "f" full_disk
  = (fst (CommittedFile_ctor "f" full_disk), snd (CommittedFile_ctor "f" full_disk)) /\
  contents (snd (CommittedFile_ctor "f" full_disk)) 0%nat (baseName "f")
  = contents full_disk 0%nat (baseName "f").
Proof.
  assert (N : namei (env full_disk) (cwd (env full_disk)) (dirName "f") = Some (AtDir 0%nat))
    by (vm_compute; reflexivity).
  split; [exact N|]. split; [apply surjective_pairing|].
  exact (proj1 (proj2 (construction_touches_only_work_name "f" full_disk 0%nat _ _ N
                         (surjective_pairing _)))).
Defined.

Import Samples2.

(** ** [write] before and after the rename *)

Lemma quiet_refl w : quiet w w.
Proof. exists []. split; [symmetry; apply app_nil_r | constructor]. Qed.

Lemma quiet_run w w1 w2 evs :
  quiet w w1 -> run w1 w2 evs -> Forall (fun ev => ~ good_rename ev) evs -> quiet w w2.
Proof.
  intros (evs1 & Htr & Hq) (_ & Htr2 & _) Hevs. exists (evs1 ++ evs).
  split; [rewrite Htr2, Htr, app_assoc; reflexivity | apply Forall_app_2; assumption].
Qed.

Lemma quiet_call w w1 w2 ev :
  quiet w w1 -> run w1 w2 [ev] -> (~ is_rename ev \/ ev_ret ev = -1) -> quiet w w2.
Proof.
  intros Hq R Hev. eapply quiet_run; [eassumption | eassumption|].
  constructor; [|constructor]. intros [Hr Hz]. destruct Hev; contradiction.
Qed.

Lemma not_rename_call ev c :
  ev_call ev = c ->
  match c with CRenameat _ _ _ _ => False | _ => True end ->
  ~ is_rename ev \/ ev_ret ev = -1.
Proof.
  intros Hc Hm. left. intros (d1 & old & d2 & new & Hr). rewrite Hr in Hc. subst c. exact Hm.
Qed.

Lemma quiet_dtor w wx h : quiet w wx -> quiet w (BaseFd_dtor h wx).
Proof.
  intros Hq. destruct (Z.lt_ge_cases (fd h) 0) as [Hneg | Hpos].
  - rewrite BaseFd_dtor_closed by assumption. assumption.
  - destruct (BaseFd_dtor_step h wx Hpos) as (cd & R & Ccd & _).
    eapply quiet_call; [eassumption | eassumption|].
    eapply not_rename_call; [eassumption | exact I].
Qed.

Lemma write_run_quiet fd data : forall evs off,
  write_run fd data off evs -> Forall (fun ev => ~ good_rename ev) evs.
Proof.
  induction evs as [|ev evs IH]; intros off H; [constructor|].
  destruct H as (Hc & _ & Hrest). constructor.
  - intros [(d1 & old & d2 & new & Hr) _]. congruence.
  - destruct Hrest as [[_ ->] | [_ Hrest]]; [constructor | eapply IH; eassumption].
Qed.

Lemma quiet_not_renamed w w' : quiet w w' -> renamed_in w w' -> False.
Proof.
  intros (evs & Htr & Hq) (pre & rn & post & Htr2 & Hrn).
  rewrite Htr in Htr2. apply app_inv_head in Htr2. subst evs.
  apply Forall_app in Hq as [_ Hq]. inversion Hq; subst. contradiction.
Qed.

Lemma renamed_in_same_fs w w1 w2 : renamed_in w w1 -> same_fs w1 w2 -> renamed_in w w2.
Proof.
  intros (pre & rn & post & Htr & Hrn) (_ & _ & _ & (more & Hmore) & _).
  exists pre, rn, (post ++ more). split; [|assumption].
  rewrite Hmore, Htr, <- !app_assoc. reflexivity.
Qed.

(** The files once the rename has gone through: the target name is bound
    to inode [i], which was the inode of the work name or a new one and
    holds the payload; the work name is gone. *)
Lemma renamed_contents w w' d work base data d1 n1 d2 n2 i :
  fs_wf w -> env w' = env w ->
  namei (env w) d work = Some (AtName d1 n1) ->
  namei (env w) d base = Some (AtName d2 n2) ->
  n1 <> n2 ->
  files w' = <[(d2, n2) := i]> (delete (d1, n1) (files w)) ->
  default [] (inodes w' !! i) = data ->
  (forall j, j <> i -> inodes w' !! j = inodes w !! j) ->
  (files w !! (d1, n1) = Some i \/ i = next_ino w) ->
  contents w' d base = Some data /\
  contents w' d work = None /\
  (forall d0 name,
     namei (env w) d0 name <> namei (env w) d work ->
     namei (env w) d0 name <> namei (env w) d base ->
     contents w' d0 name = contents w d0 name).
Proof.
  intros [Hfresh Hlinks] E Nw Nb Hn F Hdata Hothers Hi.
  split; [|split].
  - unfold contents, entry. rewrite E, Nb, F, lookup_insert_eq, Hdata. reflexivity.
  - unfold contents, entry. rewrite E, Nw, F, lookup_insert_ne by congruence.
    rewrite lookup_delete_eq. reflexivity.
  - intros d0 name Hw Hb. unfold contents, entry. rewrite E.
    destruct (namei (env w) d0 name) as [[?|dx nx|? ?]|] eqn:N0; try reflexivity.
    rewrite F, lookup_insert_ne, lookup_delete_ne by congruence.
    destruct (files w !! (dx, nx)) as [j|] eqn:L; [|reflexivity].
    rewrite Hothers; [reflexivity|].
    destruct Hi as [Li | ->].
    + intros ->. assert ((dx, nx) = (d1, n1)) by (eapply Hlinks; eassumption). congruence.
    + specialize (Hfresh _ _ L). lia.
Qed.
Lemma CommittedFile_write_phases cf data w r w' d :
  CommittedFile_write cf data w = (r, w') ->
  namei (env w) (cwd (env w)) (dirName (filePath cf)) = Some (AtDir d) ->
  fs_wf w ->
  quiet w w' /\ (exists e, r = Throw e)
  \/ renamed_in w w' /\
     exists d1 n1 d2 n2 i,
       namei (env w) d (baseName (filePath cf) +:+ ".work") = Some (AtName d1 n1) /\
       namei (env w) d (baseName (filePath cf)) = Some (AtName d2 n2) /\
       n1 <> n2 /\
       files w' = <[(d2, n2) := i]> (delete (d1, n1) (files w)) /\
       default [] (inodes w' !! i) = data /\
       (forall j, j <> i -> inodes w' !! j = inodes w !! j) /\
       (files w !! (d1, n1) = Some i \/ i = next_ino w).
Proof.
  unfold CommittedFile_write.
  set (dir := dirName (filePath cf)). set (base := baseName (filePath cf)).
  set (work := base +:+ ".work").
  intros H N Hwf. revert H.
  (* the directory *)
  destruct (DirFd_ctor dir w) as [rd w1] eqn:D.
  apply DirFd_ctor_step in D as (op & R1 & Cop & _ & Sop & Hop).
  pose proof (sys_open_rdonly _ _ _ _ Sop) as (Hfi1 & Hin1 & Hni1 & _).
  pose proof (proj1 R1) as E1.
  assert (Q1 : quiet w w1).
  { eapply quiet_call; [apply quiet_refl | exact R1|].
    eapply not_rename_call; [exact Cop | exact I]. }
  destruct Hop as [(Zop & ->) | (Zop & ->)].
  { intros [= <- <-]. left. split; [exact Q1 | eexists; reflexivity]. }
  pose proof (DirFd_ctor_dir _ _ _ _ _ Sop Zop N) as Hd1.
  destruct (sys_open_next_fd _ _ _ _ _ Sop ltac:(lia)) as [Hopfd Hnf1].
  set (dirFd := {| directory := dir; file := NO_FILE; fd := ev_ret op |}).
  (* the work file *)
  destruct (WriteFd_ctor dirFd work w1) as [rw w2] eqn:W.
  apply WriteFd_ctor_step in W as (oa & R2 & Coa & _ & Soa & Hoa). simpl in Coa, Soa, Hoa.
  pose proof (sys_openat_work _ _ _ _ _ _ Soa Hd1) as (_ & Hok2 & _).
  pose proof (proj1 R2) as E2.
  assert (Q2 : quiet w w2).
  { eapply quiet_call; [exact Q1 | exact R2|].
    eapply not_rename_call; [exact Coa | exact I]. }
  destruct Hoa as [(Zoa & ->) | (Zoa & ->)].
  { intros [= <- <-]. left. split; [apply quiet_dtor; exact Q2 | eexists; reflexivity]. }
  destruct (Hok2 ltac:(lia)) as (Hoafd & d' & n & i & Nw & Hft2 & Hin2 & Hfiles2).
  rewrite E1 in Nw.
  assert (Hne : ev_ret op <> ev_ret oa) by lia.
  set (workFd := {| directory := dir; file := work; fd := ev_ret oa |}).
  assert (Hf2 : fdtab w2 !! fd workFd = Some (OFile i 0 false true))
    by (rewrite Hft2; apply lookup_insert_eq).
  unfold write_steps, bind, on_work, on_dir.
  (* writeAll *)
  destruct (WriteFd_writeAll data (workFd, w2)) as [ra [ha wa]] eqn:A.
  pose proof (WriteFd_writeAll_trace _ _ _ _ _ _ A) as (_ & _ & Hfia & _).
  pose proof (WriteFd_writeAll_state _ _ _ _ _ _ _ _ _ A Hf2)
    as (k & Hk & Hkret & Hdata & Hothers & Hfa & Hfds).
  apply WriteFd_writeAll_run in A as (-> & ws & Ra & Hrun & Hres).
  pose proof (proj1 Ra) as Ea.
  rewrite Hin2, lookup_insert_eq, write_at_0_nil in Hdata. simpl in Hdata, Hfa, Hfds.
  assert (Qa : quiet w wa).
  { eapply quiet_run; [exact Q2 | exact Ra | eapply write_run_quiet; exact Hrun]. }
  assert (Hda : fdtab wa !! ev_ret op = Some (ODir d)).
  { rewrite Hfds by (simpl; congruence). rewrite Hft2, lookup_insert_ne by congruence.
    exact Hd1. }
  destruct Hres as [(-> & _) | (ws0 & wr & -> & _ & _ & ->)].
  2: { intros [= <- <-]. left.
       split; [do 2 apply quiet_dtor; exact Qa | eexists; reflexivity]. }
  specialize (Hkret eq_refl). subst k. rewrite firstn_all in Hdata.
  (* fsync of the work file *)
  destruct (BaseFd_sync (workFd, wa)) as [rs [hs ws1]] eqn:S.
  apply BaseFd_sync_step in S as (-> & fs & Rs & Cfs & _ & Ss & Hfs). simpl in Ss, Cfs.
  pose proof (sys_fsync_effect _ _ _ _ Ss) as (Hfis & Hins & _ & Hfts & _).
  assert (Qs : quiet w ws1).
  { eapply quiet_call; [exact Qa | exact Rs|].
    eapply not_rename_call; [exact Cfs | exact I]. }
  destruct Hfs as [(Zfs & ->) | (Zfs & ->)].
  { intros [= <- <-]. left.
    split; [do 2 apply quiet_dtor; exact Qs | eexists; reflexivity]. }
  (* close of the work file *)
  destruct (BaseFd_close (workFd, ws1)) as [rc [hc wc]] eqn:C.
  apply BaseFd_close_step in C as (-> & cf' & Rc & Ccf & _ & Sc & Hcf); [|exact Zoa].
  simpl in Sc, Ccf.
  pose proof (sys_close_effect _ _ _ _ Sc) as (Hfic & Hinc & _ & Hftc & _).
  assert (Qc : quiet w wc).
  { eapply quiet_call; [exact Qs | exact Rc|].
    eapply not_rename_call; [exact Ccf | exact I]. }
  destruct Hcf as [(Zcf & ->) | (Zcf & ->)].
  { intros [= <- <-]. left.
    split; [do 2 apply quiet_dtor; exact Qc | eexists; reflexivity]. }
  (* rename *)
  assert (Hdc : fdtab wc !! ev_ret op = Some (ODir d)).
  { rewrite Hftc, lookup_delete_ne, Hfts by (simpl; congruence). exact Hda. }
  assert (Ec : env wc = env w).
  { rewrite (proj1 Rc), (proj1 Rs), Ea, E2, E1. reflexivity. }
  assert (Hfc : files wc = files w2) by (rewrite Hfic, Hfis, Hfia; reflexivity).
  assert (Hic : inodes wc = inodes wa) by (rewrite Hinc, Hins; reflexivity).
  destruct (DirFd_renameFile work base (dirFd, wc)) as [rr [hr wrn]] eqn:Nn.
  apply DirFd_renameFile_step in Nn as (-> & rn & Rr & Crn & _ & Sr & Hrn). simpl in Crn, Sr.
  pose proof (sys_renameat_effect _ _ _ _ _ _ _ Sr Hdc)
    as (Hinr & Hftr & _ & Hr01 & _ & Hokr & _).
  rewrite Ec in Hokr.
  destruct Hrn as [(Zrn & ->) | (Zrn & ->)].
  { intros [= <- <-]. left. split; [|eexists; reflexivity].
    do 2 apply quiet_dtor. eapply quiet_call; [exact Qc | exact Rr | right; exact Zrn]. }
  assert (Hr0 : ev_ret rn = 0) by (destruct Hr01; [contradiction | assumption]).
  destruct (Hokr Hr0) as (d1 & n1 & i1 & d2 & n2 & N1 & L1 & N2 & L2 & Hfr).
  rewrite Nw in N1. injection N1 as <- <-.
  assert (Hw2 : files w2 !! (d', n) = Some i).
  { destruct Hfiles2 as [(L & -> & _) | (_ & _ & -> & _)];
      [exact L | apply lookup_insert_eq]. }
  rewrite Hfc, Hw2 in L1. injection L1 as <-.
  assert (Hn12 : n <> n2) by exact (work_name_differs _ _ _ _ _ _ _ Nw N2).
  assert (Hi : files w !! (d', n) = Some i \/ i = next_ino w).
  { destruct Hfiles2 as [(L & _) | (_ & -> & _)]; [left | right]; congruence. }
  assert (Hfiles : files wrn = <[(d2, n2) := i]> (delete (d', n) (files w))).
  { destruct Hfr as [Hsame | ->].
    - exfalso. rewrite Hsame, Hfc in L2. destruct Hwf as [Hfresh Hlinks].
      destruct Hfiles2 as [(Li & F2 & _) | (_ & Hinew & F2 & _)]; rewrite F2 in L2.
      + rewrite Hfi1 in L2, Li.
        assert ((d2, n2) = (d', n)) by (eapply Hlinks; eassumption). congruence.
      + rewrite lookup_insert_ne in L2 by congruence. rewrite Hfi1 in L2.
        specialize (Hfresh _ _ L2). lia.
    - rewrite Hfc.
      destruct Hfiles2 as [(_ & -> & _) | (_ & _ & -> & _)]; rewrite Hfi1;
        [reflexivity | rewrite delete_insert_eq; reflexivity]. }
  assert (Rn : renamed_in w wrn).
  { destruct Qc as (evs & Htr & _). exists evs, rn, [].
    split; [rewrite (proj1 (proj2 Rr)), Htr, <- app_assoc; reflexivity|].
    split; [do 4 eexists; exact Crn | exact Zrn]. }
  assert (Hend : forall wx, same_fs wrn wx ->
            renamed_in w wx /\
            exists d1 n1 d2 n2 i,
              namei (env w) d work = Some (AtName d1 n1) /\
              namei (env w) d base = Some (AtName d2 n2) /\
              n1 <> n2 /\
              files wx = <[(d2, n2) := i]> (delete (d1, n1) (files w)) /\
              default [] (inodes wx !! i) = data /\
              (forall j, j <> i -> inodes wx !! j = inodes w !! j) /\
              (files w !! (d1, n1) = Some i \/ i = next_ino w)).
  { intros wx SF. split; [eapply renamed_in_same_fs; eassumption|].
    destruct SF as (F & II & _). exists d', n, d2, n2, i. rewrite F, II, Hinr, Hic.
    split; [assumption|]. split; [assumption|]. split; [assumption|].
    split; [assumption|]. split; [exact Hdata|]. split; [|assumption].
    intros j Hj. rewrite Hothers, Hin2, lookup_insert_ne, Hin1 by congruence. reflexivity. }
  (* fsync and close of the directory *)
  pose proof (fun wx => BaseFd_dtor_same_fs dirFd wx) as Dd.
  pose proof (fun wx => BaseFd_dtor_same_fs (set_fd (-1) workFd) wx) as Dw'.
  destruct (BaseFd_sync (dirFd, wrn)) as [rds [hds wds]] eqn:DS.
  apply BaseFd_sync_step in DS as (-> & ds & Rds & _ & _ & Sds & Hds). simpl in Sds.
  pose proof (sys_fsync_effect _ _ _ _ Sds) as (Hfids & Hinds & _).
  assert (SFds : same_fs wrn wds) by (eapply run_same_fs; eassumption).
  destruct Hds as [(Zds & ->) | (Zds & ->)].
  { intros [= <- <-]. right. apply Hend.
    eapply same_fs_trans; [exact SFds|]. eapply same_fs_trans; [apply Dw' | apply Dd]. }
  destruct (BaseFd_close (dirFd, wds)) as [rdc [hdc wdc]] eqn:DC.
  apply BaseFd_close_step in DC as (-> & cd & Rdc & _ & _ & Sdc & Hdcl); [|exact Zop].
  simpl in Sdc.
  pose proof (sys_close_effect _ _ _ _ Sdc) as (Hfidc & Hindc & _).
  assert (SFdc : same_fs wrn wdc)
    by (eapply same_fs_trans; [exact SFds|]; eapply run_same_fs; eassumption).
  pose proof (fun wx => BaseFd_dtor_same_fs (set_fd (-1) dirFd) wx) as Dd'.
  destruct Hdcl as [(Zdc & ->) | (Zdc & ->)]; intros [= <- <-]; right; apply Hend;
    (eapply same_fs_trans; [exact SFdc|]; eapply same_fs_trans; [apply Dw' | apply Dd']).
Qed.
Lemma write_renamed_contents cf data w r w' d :
  fs_wf w ->
  namei (env w) (cwd (env w)) (dirName (filePath cf)) = Some (AtDir d) ->
  CommittedFile_write cf data w = (r, w') ->
  r = Ret tt \/ renamed_in w w' ->
  contents w' d (baseName (filePath cf)) = Some data /\
  contents w' d (baseName (filePath cf) +:+ ".work") = None /\
  (forall d0 name,
     namei (env w) d0 name <> namei (env w) d (baseName (filePath cf) +:+ ".work") ->
     namei (env w) d0 name <> namei (env w) d (baseName (filePath cf)) ->
     contents w' d0 name = contents w d0 name).
Proof.
  intros Hwf N H Hr.
  pose proof (CommittedFile_write_env _ _ _ _ _ H) as E.
  destruct (CommittedFile_write_phases _ _ _ _ _ _ H N Hwf)
    as [[Hq (e & ->)] | [_ (d1 & n1 & d2 & n2 & i & Nw & Nb & Hn & F & Hd & Ho & Hi)]].
  - exfalso. destruct Hr as [Hr | Hr]; [discriminate | eapply quiet_not_renamed; eassumption].
  - eapply renamed_contents; eassumption.
Qed.

Lemma demo_fs_wf data s : fs_wf (demo_world_with data s).
Proof.
  split.
  - intros key i H. unfold demo_world_with in *. cbn [files next_ino] in *.
    apply lookup_singleton_Some in H as [_ <-]. lia.
  - intros k1 k2 i H1 H2. unfold demo_world_with in *. cbn [files] in *.
    apply lookup_singleton_Some in H1 as [<- _].
    apply lookup_singleton_Some in H2 as [<- _]. reflexivity.
Defined.

(** X6.  In a well-formed file table, when [write] returns, the target name
    holds the payload, the work name is gone from the parent directory, and
    every name that resolves to neither of the two holds what it held. *)
Theorem write_success_frame
    (cf : CommittedFile) (data : bytes) (w w' : World) (d : nat) :
  fs_wf w ->
  namei (env w) (cwd (env w)) (dirName (filePath cf)) = Some (AtDir d) ->
  CommittedFile_write cf data w = (Ret tt, w') ->
  contents w' d (baseName (filePath cf)) = Some data /\
  contents w' d (baseName (filePath cf) +:+ ".work") = None /\
  (forall d0 name,
     namei (env w) d0 name <> namei (env w) d (baseName (filePath cf) +:+ ".work") ->
     namei (env w) d0 name <> namei (env w) d (baseName (filePath cf)) ->
     contents w' d0 name = contents w d0 name).
Proof.
  intros Hwf N H. eapply write_renamed_contents; [eassumption | eassumption | exact H|].
  left. reflexivity.
Qed.

Lemma write_success_frame_witness :
  fs_wf (demo_world_with hi []) /\
  namei (env (demo_world_with hi [])) (cwd (env (demo_world_with hi [])))
    (dirName (filePath target_f)) = Some (AtDir 0%nat) /\
  CommittedFile_write target_f ok (demo_world_with hi [])
  = (Ret tt, snd (CommittedFile_write target_f ok (demo_world_with hi []))) /\
  contents (snd (CommittedFile_write target_f ok (demo_world_with hi []))) 0%nat
    (baseName (filePath target_f)) = Some ok /\
  contents (snd (CommittedFile_write target_f ok (demo_world_with hi []))) 0%nat
    (baseName (filePath target_f) +:+ ".work") = None.
Proof.
  assert (N : namei (env (demo_world_with hi [])) (cwd (env (demo_world_with hi [])))
                (dirName (filePath target_f)) = Some (AtDir 0%nat))
    by (vm_compute; reflexivity).
  assert (W : CommittedFile_write target_f ok (demo_world_with hi [])
              = (Ret tt, snd (CommittedFile_write target_f ok (demo_world_with hi []))))
    by (vm_compute; reflexivity).
  destruct (write_success_frame target_f ok (demo_world_with hi []) _ 0%nat
              (demo_fs_wf hi []) N W) as (A & B & _).
  split; [exact (demo_fs_wf hi [])|]. split; [exact N|]. split; [exact W|].
  split; [exact A | exact B].
Defined.

(** X7.  In a well-formed file table, when [write] throws after its rename
    call went through (the [fsync] or the [close] of the directory failed),
    the new contents are in place all the same: the target name holds the
    whole payload, the work name is gone, and every other name holds what it
    held. *)
Theorem failure_after_rename_has_new_contents
    (cf : CommittedFile) (data : bytes) (w w' : World) (d : nat) (e : system_error) :
  fs_wf w ->
  namei (env w) (cwd (env w)) (dirName (filePath cf)) = Some (AtDir d) ->
  CommittedFile_write cf data w = (Throw e, w') ->
  renamed_in w w' ->
  contents w' d (baseName (filePath cf)) = Some data /\
  contents w' d (baseName (filePath cf) +:+ ".work") = None /\
  (forall d0 name,
     namei (env w) d0 name <> namei (env w) d (baseName (filePath cf) +:+ ".work") ->
     namei (env w) d0 name <> namei (env w) d (baseName (filePath cf)) ->
     contents w' d0 name = contents w d0 name).
Proof.
  intros Hwf N H Hr. eapply write_renamed_contents; [eassumption | eassumption | exact H|].
  right. assumption.
Qed.

Lemma failure_after_rename_has_new_contents_witness :
  fs_wf late_failure /\
  namei (env late_failure) (cwd (env late_failure)) (dirName (filePath target_f))
  = Some (AtDir 0%nat) /\
  renamed_in late_failure (snd (CommittedFile_write target_f ok late_failure)) /\
  (exists e, fst (CommittedFile_write target_f ok late_failure) = Throw e) /\
  contents (snd (CommittedFile_write target_f ok late_failure)) 0%nat
    (baseName (filePath target_f)) = Some ok.
Proof.
  assert (N : namei (env late_failure) (cwd (env late_failure)) (dirName (filePath target_f))
              = Some (AtDir 0%nat)) by (vm_compute; reflexivity).
  assert (R : renamed_in late_failure (snd (CommittedFile_write target_f ok late_failure))).
  { let l := eval vm_compute in (trace (snd (CommittedFile_write target_f ok late_failure))) in
    assert (E : trace (snd (CommittedFile_write target_f ok late_failure)) = l)
      by (vm_compute; reflexivity).
    unfold renamed_in. rewrite E.
    eexists [_; _; _; _; _], _, _. split; [reflexivity|].
    split; [do 4 eexists; reflexivity | discriminate]. }
  assert (T : exists e, fst (CommittedFile_write target_f ok late_failure) = Throw e).
  { let r := eval vm_compute in (fst (CommittedFile_write target_f ok late_failure)) in
    match r with
    | Throw ?e => exists e; vm_compute; reflexivity
    end. }
  destruct T as [e He].
  assert (W : CommittedFile_write target_f ok late_failure
              = (Throw e, snd (CommittedFile_write target_f ok late_failure)))
    by (rewrite <- He; apply surjective_pairing).
  destruct (failure_after_rename_has_new_contents target_f ok late_failure _ 0%nat e
              (demo_fs_wf hi _) N W R) as (A & _).
  split; [exact (demo_fs_wf hi _)|]. split; [exact N|]. split; [exact R|].
  split; [exists e; exact He | exact A].
Defined.

(** ** The path split and the resolution of the path *)

Lemma append_cons a s t : String a s +:+ t = String a (s +:+ t).
Proof. reflexivity. Qed.

Lemma append_nil_l t : EmptyString +:+ t = t.
Proof. reflexivity. Qed.

Lemma is_empty_true s : Libc.is_empty s = true <-> s = EmptyString.
Proof. destruct s; simpl; split; congruence. Qed.

Lemma components_cons c s :
  Libc.components (String c s) =
  if Libc.is_slash c then EmptyString :: Libc.components s
  else String c (hd EmptyString (Libc.components s)) :: tl (Libc.components s).
Proof.
  cbn [Libc.components]. destruct (Libc.is_slash c); [reflexivity|].
  destruct (Libc.components s) eqn:E; [|reflexivity].
  exfalso. exact (components_nonempty _ E).
Qed.

Lemma components_all_no_slash s :
  Forall (fun c => Libc.no_slash c = true) (Libc.components s).
Proof.
  induction s as [|c s IH]; [repeat constructor|].
  rewrite components_cons. destruct (Libc.is_slash c) eqn:Hc.
  - constructor; [reflexivity | assumption].
  - destruct (Libc.components s) as [|x xs]; inversion IH; subst; cbn [hd tl].
    + constructor; [simpl; rewrite Hc; reflexivity | constructor].
    + constructor; [simpl; rewrite Hc; assumption | assumption].
Qed.

(** A path that is not empty and does not end in a slash has a last
    component that is not empty. *)
Lemma components_last s :
  s <> EmptyString -> ends_with_slash s = false ->
  exists init b, Libc.components s = init ++ [b] /\ Libc.is_empty b = false.
Proof.
  induction s as [|c s IH]; intros Hne He; [congruence|].
  rewrite components_cons. destruct s as [|c2 s2].
  - cbn [ends_with_slash] in He. rewrite He. exists [], (String c EmptyString).
    split; reflexivity.
  - assert (He' : ends_with_slash (String c2 s2) = false) by exact He.
    destruct (IH ltac:(discriminate) He') as (init & b & Hc & Hb). rewrite Hc.
    destruct (Libc.is_slash c).
    + exists (EmptyString :: init), b. split; [reflexivity | assumption].
    + destruct init as [|x init]; cbn [hd tl app].
      * exists [], (String c b). split; reflexivity.
      * exists (String c x :: init), b. split; [reflexivity | assumption].
Qed.

Lemma drop_empty_spec l :
  exists k, l = repeat EmptyString k ++ Libc.drop_empty l /\
    (Libc.drop_empty l = [] \/ Libc.is_empty (hd EmptyString (Libc.drop_empty l)) = false).
Proof.
  induction l as [|c l (k & Hl & Hd)]; [exists 0%nat; split; [reflexivity | left; reflexivity]|].
  cbn [Libc.drop_empty]. destruct (Libc.is_empty c) eqn:Hc.
  - apply is_empty_true in Hc. subst c. exists (S k). split; [|assumption].
    cbn [repeat app]. congruence.
  - exists 0%nat. split; [reflexivity | right; exact Hc].
Qed.

Lemma rev_repeat_same {A} (x : A) k : rev (repeat x k) = repeat x k.
Proof.
  induction k as [|k IH]; [reflexivity|].
  cbn [repeat rev]. rewrite IH. symmetry. apply repeat_cons.
Qed.

Lemma hd_rev_last {A} (l : list A) (x : A) : hd x (rev l) = List.last l x.
Proof.
  induction l as [|a l IH] using rev_ind; [reflexivity|].
  rewrite rev_app_distr, last_snoc. reflexivity.
Qed.

(** What [strip_trailing] takes away is a run of empty components, and what
    it leaves does not end in one. *)
Lemma strip_trailing_spec cs :
  exists k, cs = Libc.strip_trailing cs ++ repeat EmptyString k /\
    (Libc.strip_trailing cs = [] \/
     Libc.is_empty (List.last (Libc.strip_trailing cs) EmptyString) = false).
Proof.
  unfold Libc.strip_trailing.
  destruct (drop_empty_spec (rev cs)) as (k & Hl & Hd). exists k. split.
  - rewrite <- (rev_involutive cs) at 1. rewrite Hl at 1.
    rewrite rev_app_distr, rev_repeat_same. reflexivity.
  - destruct Hd as [-> | Hd]; [left; reflexivity | right].
    rewrite <- hd_rev_last, rev_involutive. exact Hd.
Qed.

Lemma strip_trailing_snoc init b :
  Libc.is_empty b = false -> Libc.strip_trailing (init ++ [b]) = init ++ [b].
Proof.
  intros Hb. unfold Libc.strip_trailing. rewrite rev_app_distr. cbn [rev app Libc.drop_empty].
  rewrite Hb. cbn [rev]. rewrite rev_involutive. reflexivity.
Qed.

Lemma components_prefix c rest :
  Libc.no_slash c = true ->
  Libc.components (c +:+ "/" +:+ rest) = c :: Libc.components rest.
Proof.
  induction c as [|a c IH]; intros Hc.
  - rewrite append_nil_l, append_cons, components_cons. reflexivity.
  - cbn [Libc.no_slash] in Hc. apply andb_true_iff in Hc as [Ha Hc].
    rewrite append_cons, components_cons, (IH Hc).
    destruct (Libc.is_slash a); [discriminate | reflexivity].
Qed.

Lemma components_join ds :
  ds <> [] -> Forall (fun c => Libc.no_slash c = true) ds ->
  Libc.components (Libc.join_slash ds) = ds.
Proof.
  induction ds as [|c ds IH]; intros Hne Hall; [congruence|].
  inversion Hall as [|? ? Hc Hrest]; subst.
  destruct ds as [|c2 ds].
  - apply components_no_slash. assumption.
  - change (Libc.join_slash (c :: c2 :: ds))
      with (c +:+ "/" +:+ Libc.join_slash (c2 :: ds)).
    rewrite (components_prefix _ _ Hc), IH; [reflexivity | discriminate | assumption].
Qed.

Lemma is_absolute_hd s :
  s <> EmptyString ->
  is_absolute s = Libc.is_empty (hd EmptyString (Libc.components s)).
Proof.
  destruct s as [|c s]; intros Hne; [congruence|].
  rewrite components_cons. cbn [is_absolute]. destruct (Libc.is_slash c); reflexivity.
Qed.

Lemma step_dir_empty e d : step_dir e d EmptyString = Some d.
Proof. reflexivity. Qed.

Lemma walk_cons e d c cs :
  cs <> [] ->
  walk e d (c :: cs) =
  match step_dir e d c with Some d' => walk e d' cs | None => NotDir d c end.
Proof. destruct cs; [congruence | reflexivity]. Qed.

Lemma walk_app_dir e : forall xs d d' ys,
  walk e d xs = AtDir d' -> walk e d (xs ++ ys) = walk e d' ys.
Proof.
  induction xs as [|c xs IH]; intros d d' ys H.
  - injection H as <-. reflexivity.
  - destruct xs as [|c2 xs].
    + cbn [walk] in H. destruct (step_dir e d c) as [d1|] eqn:S; [|discriminate].
      injection H as <-. destruct ys as [|y ys]; cbn [app].
      * cbn [walk]. rewrite S. reflexivity.
      * rewrite walk_cons by discriminate. rewrite S. reflexivity.
    + rewrite walk_cons in H by discriminate.
      change ((c :: c2 :: xs) ++ ys) with (c :: ((c2 :: xs) ++ ys)).
      rewrite walk_cons by discriminate.
      destruct (step_dir e d c) as [d1|]; [|discriminate]. apply IH. assumption.
Qed.

Lemma walk_empties e d k : walk e d (repeat EmptyString k) = AtDir d.
Proof.
  induction k as [|k IH]; [reflexivity|]. cbn [repeat].
  destruct k as [|k]; [reflexivity|].
  rewrite walk_cons by discriminate. rewrite step_dir_empty. exact IH.
Qed.

Lemma namei_component e d b :
  Libc.is_empty b = false -> Libc.no_slash b = true ->
  namei e d b = Some (walk e d [b]).
Proof.
  intros Hb Hs. unfold namei. rewrite Hb, (components_no_slash _ Hs).
  destruct b as [|c b]; [discriminate|].
  cbn [is_absolute]. cbn [Libc.no_slash] in Hs. apply andb_true_iff in Hs as [Hc _].
  destruct (Libc.is_slash c); [discriminate | reflexivity].
Qed.

Lemma split_resolves e start path d :
  path <> EmptyString -> ends_with_slash path = false ->
  namei e start (dirName path) = Some (AtDir d) ->
  namei e start path = namei e d (baseName path).
Proof.
  intros Hne He N.
  destruct (components_last _ Hne He) as (init & b & Hcs & Hb).
  pose proof (components_all_no_slash path) as Hall. rewrite Hcs in Hall.
  apply Forall_app in Hall as [Hinit Hbs]. inversion Hbs as [|? ? Hbs' _]; subst.
  assert (Ecs : exists y l, init ++ [b] = y :: l)
    by (destruct init; cbn [app]; eauto).
  destruct Ecs as (y0 & l0 & Ecs).
  assert (Hbase : baseName path = b).
  { unfold baseName, Libc.basename. rewrite Hcs, strip_trailing_snoc by assumption.
    rewrite Ecs, <- Ecs. apply last_snoc. }
  assert (Hp : namei e start path
               = Some (walk e (if Libc.is_empty (hd EmptyString (init ++ [b]))
                               then root e else start) (init ++ [b]))).
  { unfold namei. rewrite (is_absolute_hd _ Hne), Hcs.
    destruct (Libc.is_empty path) eqn:Ep; [apply is_empty_true in Ep; congruence|].
    reflexivity. }
  rewrite Hp, Hbase, (namei_component _ _ _ Hb Hbs'). f_equal.
  destruct (strip_trailing_spec init) as (k & Hk & Hlast).
  revert N. unfold dirName, Libc.dirname. rewrite Hcs, strip_trailing_snoc by assumption.
  rewrite Ecs, <- Ecs, removelast_last.
  destruct (Libc.strip_trailing init) as [|x ds] eqn:Hds.
  - (* only slashes before the last component, or nothing *)
    cbn [app] in Hk. destruct init as [|y init].
    + intros N. vm_compute in N. injection N as <-. cbn [app hd]. rewrite Hb. reflexivity.
    + intros N. vm_compute in N. injection N as <-.
      destruct k as [|k]; [discriminate|]. rewrite Hk. cbn [repeat app hd Libc.is_empty].
      change (EmptyString :: repeat EmptyString k ++ [b])
        with (repeat EmptyString (S k) ++ [b]).
      apply walk_app_dir. apply walk_empties.
  - (* a directory part *)
    set (ds' := x :: ds) in *.
    assert (Hds_ns : Forall (fun c => Libc.no_slash c = true) ds').
    { rewrite Hk in Hinit. apply Forall_app in Hinit as [? _]. assumption. }
    assert (Hcj : Libc.components (Libc.join_slash ds') = ds')
      by (apply components_join; [discriminate | assumption]).
    intros N. unfold namei in N.
    destruct (Libc.is_empty (Libc.join_slash ds')) eqn:Ej; [discriminate|].
    rewrite is_absolute_hd in N by (intros Hj; rewrite Hj in Ej; discriminate).
    rewrite Hcj in N. apply (inj Some) in N.
    rewrite Hk, <- !app_assoc.
    change (hd EmptyString (ds' ++ repeat EmptyString k ++ [b])) with (hd EmptyString ds').
    rewrite (walk_app_dir _ _ _ _ _ N).
    apply walk_app_dir. apply walk_empties.
Qed.



(** ** The parent must be a directory *)

Lemma last_default_irrelevant {A} (l : list A) (x y : A) :
  l <> [] -> List.last l x = List.last l y.
Proof.
  intros Hne. destruct (exists_last Hne) as (l' & a & ->). rewrite !last_snoc. reflexivity.
Qed.

Lemma basename_cases path :
  baseName path = "/" /\ dirName path = "/"
  \/ Libc.is_empty (baseName path) = false /\ Libc.no_slash (baseName path) = true.
Proof.
  unfold baseName, dirName, Libc.basename, Libc.dirname.
  destruct (strip_trailing_spec (Libc.components path)) as (k & Hk & Hlast).
  pose proof (components_all_no_slash path) as Hall.
  destruct (Libc.strip_trailing (Libc.components path)) as [|x l] eqn:E.
  - destruct (Libc.is_empty path); [right | left]; split; reflexivity.
  - right. destruct Hlast as [? | Hlast]; [discriminate|].
    rewrite (last_default_irrelevant _ "." EmptyString) by discriminate.
    split; [exact Hlast|].
    rewrite Hk in Hall. apply Forall_app in Hall as [Hall _].
    destruct (@exists_last _ (x :: l) ltac:(discriminate)) as (l' & a & El).
    rewrite El in Hall |- *.
    rewrite last_snoc. apply Forall_app in Hall as [_ Hall]. inversion Hall; assumption.
Qed.

Lemma work_name_relative b :
  Libc.is_empty b = false -> Libc.no_slash b = true ->
  is_absolute (b +:+ ".work") = false.
Proof.
  destruct b as [|c b]; intros Hb Hs; [discriminate|].
  rewrite append_cons. cbn [is_absolute]. cbn [Libc.no_slash] in Hs.
  apply andb_true_iff in Hs as [Hc _]. destruct (Libc.is_slash c); [discriminate | reflexivity].
Qed.

Lemma sys_openat_at_file dfd name flags mode w r w' i pos rd wr :
  fdtab w !! dfd = Some (OFile i pos rd wr) -> is_absolute name = false ->
  sys_openat dfd name flags mode w = (r, w') -> r = -1.
Proof.
  unfold sys_openat, at_dir. intros Hfd Hrel H.
  destruct (next_fate w) as [ft wx] eqn:F. fate_split.
  rewrite Hrel, Hfd0, Hfd in H.
  destruct ft; apply fail_one in H as (-> & _); reflexivity.
Qed.

Lemma sys_unlinkat_at_file dfd name flags w r w' i pos rd wr :
  fdtab w !! dfd = Some (OFile i pos rd wr) -> is_absolute name = false ->
  sys_unlinkat dfd name flags w = (r, w') -> r = -1 /\ errno w' <> ENOENT.
Proof.
  unfold sys_unlinkat, at_lookup, at_dir. intros Hfd Hrel H.
  destruct (next_fate w) as [ft wx] eqn:F. fate_split.
  rewrite Hrel, Hfd0, Hfd in H.
  destruct ft; apply fail_one in H as (-> & _ & _ & _ & -> & _);
    (split; [reflexivity|]); try discriminate.
  apply fault_errno_not_ENOENT.
Qed.

(** What the descriptor of the directory handle is open on. *)
Lemma DirFd_opened dir w z w' :
  sys_open dir (Z.lor O_RDONLY O_CLOEXEC) w = (z, w') -> 0 <= z ->
  (exists d, namei (env w) (cwd (env w)) dir = Some (AtDir d))
  \/ exists i, fdtab w' !! z = Some (OFile i 0 true false).
Proof.
  intros S Hz. pose proof (sys_open_rdonly _ _ _ _ S) as (_ & _ & _ & _ & Hok & _).
  destruct (Hok ltac:(lia)) as (_ & o & Hft & Hm).
  destruct (namei (env w) (cwd (env w)) dir) as [[d|d n|? ?]|]; try contradiction.
  - left. eauto.
  - right. destruct Hm as (i & _ & ->). exists i. rewrite Hft. apply lookup_insert_eq.
Qed.

Lemma root_is_directory e start : namei e start "/" = Some (AtDir (root e)).
Proof. reflexivity. Qed.

Lemma write_needs_directory cf data w w' :
  CommittedFile_write cf data w = (Ret tt, w') ->
  exists d, namei (env w) (cwd (env w)) (dirName (filePath cf)) = Some (AtDir d).
Proof.
  unfold CommittedFile_write. intros H.
  destruct (DirFd_ctor (dirName (filePath cf)) w) as [rd w1] eqn:D.
  apply DirFd_ctor_step in D as (op & _ & _ & _ & Sop & Hop).
  destruct Hop as [(Zop & ->) | (Zop & ->)]; [discriminate|].
  destruct (DirFd_opened _ _ _ _ Sop Zop) as [Hd | (i & Hfile)]; [assumption|].
  destruct (basename_cases (filePath cf)) as [[_ Hroot] | [Hb Hs]].
  { rewrite Hroot. eexists. apply root_is_directory. }
  exfalso.
  destruct (WriteFd_ctor _ _ w1) as [rw w2] eqn:W.
  apply WriteFd_ctor_step in W as (oa & _ & _ & _ & Soa & Hoa). cbn [fd] in Soa.
  pose proof (sys_openat_at_file _ _ _ _ _ _ _ _ _ _ _ Hfile (work_name_relative _ Hb Hs) Soa)
    as Zoa.
  destruct Hoa as [(_ & ->) | (Hz & _)]; [discriminate | lia].
Qed.

Lemma cleanup_needs_directory cf w w' :
  CommittedFile_cleanup cf w = (Ret tt, w') ->
  exists d, namei (env w) (cwd (env w)) (dirName (filePath cf)) = Some (AtDir d).
Proof.
  unfold CommittedFile_cleanup. intros H.
  destruct (DirFd_ctor (dirName (filePath cf)) w) as [rd w1] eqn:D.
  apply DirFd_ctor_step in D as (op & _ & _ & _ & Sop & Hop).
  destruct Hop as [(Zop & ->) | (Zop & ->)]; [discriminate|].
  destruct (DirFd_opened _ _ _ _ Sop Zop) as [Hd | (i & Hfile)]; [assumption|].
  destruct (basename_cases (filePath cf)) as [[_ Hroot] | [Hb Hs]].
  { rewrite Hroot. eexists. apply root_is_directory. }
  exfalso. unfold bind in H.
  destruct (DirFd_unlink _ _) as [ru [hu wu]] eqn:U.
  apply DirFd_unlink_step in U as (-> & ul & _ & _ & Eul & Sul & Hul). cbn [fd] in Sul.
  destruct (sys_unlinkat_at_file _ _ _ _ _ _ _ _ _ _ Hfile (work_name_relative _ Hb Hs) Sul)
    as [Zul Nul].
  destruct Hul as [(_ & _ & ->) | (Hsw & _)]; [discriminate|].
  apply Nul. rewrite <- Eul. apply Hsw. exact Zul.
Qed.

(** X10.  Neither the construction of a [CommittedFile] nor [write] returns
    unless the directory part of the path names a directory: a missing
    parent, or a parent that is a regular file, always ends in an
    exception. *)
Theorem returns_only_in_a_directory :
  (forall path w cf w',
     CommittedFile_ctor path w = (Ret cf, w') ->
     exists d, namei (env w) (cwd (env w)) (dirName path) = Some (AtDir d)) /\
  (forall cf data w w',
     CommittedFile_write cf data w = (Ret tt, w') ->
     exists d, namei (env w) (cwd (env w)) (dirName (filePath cf)) = Some (AtDir d)).
Proof.
  split.
  - intros path w cf w' H. apply CommittedFile_ctor_cleanup in H as [H _].
    apply cleanup_needs_directory in H. exact H.
  - intros cf data w w' H. eapply write_needs_directory. eassumption.
Qed.

(** ** The round trip for every path without a trailing slash *)

Lemma write_returns_nonempty_path cf data w w' :
  CommittedFile_write cf data w = (Ret tt, w') -> filePath cf <> EmptyString.
Proof.
  intros H Hp. destruct (write_needs_directory _ _ _ _ H) as [d N].
  destruct (CommittedFile_write_state _ _ _ _ _ _ H N) as (Hc & _).
  specialize (Hc eq_refl). apply contents_entry in Hc as (d' & n & i & Hn & _).
  rewrite Hp in Hn. vm_compute in Hn. discriminate Hn.
Qed.

Lemma write_then_read_any cf data w w' :
  ends_with_slash (filePath cf) = false ->
  CommittedFile_write cf data w = (Ret tt, w') ->
  contents w' (cwd (env w')) (filePath cf) = Some data /\
  exists r w'',
    CommittedFile_read cf w' = (r, w'') /\
    (r = Ret data \/ exists e, r = Throw e /\ sched w' <> []).
Proof.
  intros He H. destruct (write_needs_directory _ _ _ _ H) as [d N].
  pose proof (write_returns_nonempty_path _ _ _ _ H) as Hne.
  exact (write_then_read cf data w w' d N (split_resolves _ _ _ _ Hne He N) H).
Qed.

(** X2.  For every path that does not end in a slash, every payload and
    every world: when [write] returns, the path is bound to exactly the
    payload, and the [read] that follows returns the payload, unless it
    throws because a failure was scheduled for one of its own system
    calls. *)
Theorem round_trip_without_trailing_slash
    (cf : CommittedFile) (data : bytes) (w w' : World) :
  ends_with_slash (filePath cf) = false ->
  CommittedFile_write cf data w = (Ret tt, w') ->
  contents w' (cwd (env w')) (filePath cf) = Some data /\
  exists r w'',
    CommittedFile_read cf w' = (r, w'') /\
    (r = Ret data \/ exists e, r = Throw e /\ sched w' <> []).
Proof. exact (write_then_read_any cf data w w'). Qed.

Lemma round_trip_without_trailing_slash_witness :
  ends_with_slash (filePath target_tmp_f) = false /\
  CommittedFile_write target_tmp_f hi (demo_world [Short 1])
  = (Ret tt, snd (CommittedFile_write target_tmp_f hi (demo_world [Short 1]))) /\
  contents (snd (CommittedFile_write target_tmp_f hi (demo_world [Short 1])))
    (cwd (env (snd (CommittedFile_write target_tmp_f hi (demo_world [Short 1])))))
    (filePath target_tmp_f)
  = Some hi.
Proof.
  assert (H1 : ends_with_slash (filePath target_tmp_f) = false) by reflexivity.
  assert (H2 : CommittedFile_write target_tmp_f hi (demo_world [Short 1])
               = (Ret tt, snd (CommittedFile_write target_tmp_f hi (demo_world [Short 1]))))
    by (vm_compute; reflexivity).
  split; [exact H1|]. split; [exact H2|].
  exact (proj1 (round_trip_without_trailing_slash target_tmp_f hi (demo_world [Short 1]) _
                  H1 H2)).
Defined.

(** ** A run of [main] that meets no failure *)





(** ** The file table stays well formed *)

Lemma fs_wf_same w w' :
  files w' = files w -> next_ino w' = next_ino w -> fs_wf w -> fs_wf w'.
Proof. intros F N [H1 H2]. split; rewrite ?F, ?N; assumption. Qed.

Lemma fs_wf_create w w' key :
  files w' = <[key := next_ino w]> (files w) -> next_ino w' = S (next_ino w) ->
  fs_wf w -> fs_wf w'.
Proof.
  intros F N [Hfresh Hlinks]. split; rewrite F, ?N.
  - intros k i H. destruct (decide (k = key)) as [-> | Hne].
    + rewrite lookup_insert_eq in H. injection H as <-. lia.
    + rewrite lookup_insert_ne in H by congruence. specialize (Hfresh _ _ H). lia.
  - intros k1 k2 i H1 H2.
    destruct (decide (k1 = key)) as [-> | Hn1]; destruct (decide (k2 = key)) as [-> | Hn2];
      try reflexivity.
    + rewrite lookup_insert_eq in H1. rewrite lookup_insert_ne in H2 by congruence.
      injection H1 as <-. specialize (Hfresh _ _ H2). lia.
    + rewrite lookup_insert_eq in H2. rewrite lookup_insert_ne in H1 by congruence.
      injection H2 as <-. specialize (Hfresh _ _ H1). lia.
    + rewrite lookup_insert_ne in H1, H2 by congruence. eapply Hlinks; eassumption.
Qed.

Lemma fs_wf_delete w w' key :
  files w' = delete key (files w) -> next_ino w' = next_ino w -> fs_wf w -> fs_wf w'.
Proof.
  intros F N [Hfresh Hlinks]. split; rewrite F, ?N.
  - intros k i H. apply lookup_delete_Some in H as [_ H]. eapply Hfresh; eassumption.
  - intros k1 k2 i H1 H2. apply lookup_delete_Some in H1 as [_ H1].
    apply lookup_delete_Some in H2 as [_ H2]. eapply Hlinks; eassumption.
Qed.

Lemma fs_wf_rename w w' k1 k2 i :
  files w !! k1 = Some i ->
  files w' = <[k2 := i]> (delete k1 (files w)) -> next_ino w' = next_ino w ->
  fs_wf w -> fs_wf w'.
Proof.
  intros L F N [Hfresh Hlinks]. split; rewrite F, ?N.
  - intros k j H. destruct (decide (k = k2)) as [-> | Hne].
    + rewrite lookup_insert_eq in H. injection H as <-. eapply Hfresh; eassumption.
    + rewrite lookup_insert_ne in H by congruence.
      apply lookup_delete_Some in H as [_ H]. eapply Hfresh; eassumption.
  - assert (Honly : forall k j, k <> k2 ->
              (<[k2 := i]> (delete k1 (files w)) : gmap _ _) !! k = Some j ->
              k <> k1 /\ files w !! k = Some j /\ j <> i).
    { intros k j Hne H. rewrite lookup_insert_ne in H by congruence.
      apply lookup_delete_Some in H as [Hk H]. split; [congruence|]. split; [assumption|].
      intros ->. apply Hk. eapply Hlinks; eassumption. }
    intros ka kb j Ha Hb.
    destruct (decide (ka = k2)) as [-> | Hna]; destruct (decide (kb = k2)) as [-> | Hnb];
      try reflexivity.
    + rewrite lookup_insert_eq in Ha. injection Ha as <-.
      destruct (Honly _ _ Hnb Hb) as (_ & _ & ?). congruence.
    + rewrite lookup_insert_eq in Hb. injection Hb as <-.
      destruct (Honly _ _ Hna Ha) as (_ & _ & ?). congruence.
    + destruct (Honly _ _ Hna Ha) as (_ & ? & _). destruct (Honly _ _ Hnb Hb) as (_ & ? & _).
      eapply Hlinks; eassumption.
Qed.

Lemma open_from_fs_wf c start path flags w r w' :
  open_from c start path flags w = (r, w') -> fs_wf w -> fs_wf w'.
Proof.
  unfold open_from, fail, alloc_fd, finish. intros H Hwf.
  repeat case_match; inv H;
    first [ eapply fs_wf_same; [reflexivity | reflexivity | assumption]
          | eapply fs_wf_create; [reflexivity | reflexivity | assumption] ].
Qed.

Lemma next_fate_fs_wf w ft w1 : next_fate w = (ft, w1) -> fs_wf w -> fs_wf w1.
Proof.
  intros F. fate_split. apply fs_wf_same; assumption.
Qed.

Lemma fail_fs_wf c e w r w' : fail c e w = (r, w') -> fs_wf w -> fs_wf w'.
Proof.
  unfold fail, finish. intros H Hwf. inv H.
  eapply fs_wf_same; [reflexivity | reflexivity | assumption].
Qed.

Lemma finish_fs_wf c z w r w' : finish c z w = (r, w') -> fs_wf w -> fs_wf w'.
Proof.
  unfold finish. intros H Hwf. inv H.
  eapply fs_wf_same; [reflexivity | reflexivity | assumption].
Qed.

Lemma sys_open_fs_wf path flags w r w' :
  sys_open path flags w = (r, w') -> fs_wf w -> fs_wf w'.
Proof.
  unfold sys_open. intros H Hwf. destruct (next_fate w) as [ft w1] eqn:F.
  pose proof (next_fate_fs_wf _ _ _ F Hwf) as Hwf1.
  destruct ft; first [eapply open_from_fs_wf; eassumption | eapply fail_fs_wf; eassumption].
Qed.

Lemma sys_openat_fs_wf dfd path flags mode w r w' :
  sys_openat dfd path flags mode w = (r, w') -> fs_wf w -> fs_wf w'.
Proof.
  unfold sys_openat. intros H Hwf. destruct (next_fate w) as [ft w1] eqn:F.
  pose proof (next_fate_fs_wf _ _ _ F Hwf) as Hwf1.
  destruct ft; try (eapply fail_fs_wf; eassumption);
    destruct (at_dir w1 dfd path);
    first [eapply open_from_fs_wf; eassumption | eapply fail_fs_wf; eassumption].
Qed.

Lemma sys_write_fs_wf fd buf w r w' :
  sys_write fd buf w = (r, w') -> fs_wf w -> fs_wf w'.
Proof.
  intros H. apply sys_write_effect in H as (F & N & _). apply fs_wf_same; assumption.
Qed.

Lemma sys_fsync_fs_wf fd w r w' :
  sys_fsync fd w = (r, w') -> fs_wf w -> fs_wf w'.
Proof.
  intros H. apply sys_fsync_effect in H as (F & _ & N & _). apply fs_wf_same; assumption.
Qed.

Lemma sys_close_fs_wf fd w r w' :
  sys_close fd w = (r, w') -> fs_wf w -> fs_wf w'.
Proof.
  intros H. apply sys_close_effect in H as (F & _ & N & _). apply fs_wf_same; assumption.
Qed.

Lemma sys_read_fs_wf fd count w r chunk w' :
  sys_read fd count w = (r, chunk, w') -> fs_wf w -> fs_wf w'.
Proof.
  intros H. apply sys_read_effect in H as (F & _ & N & _). apply fs_wf_same; assumption.
Qed.

Lemma sys_unlinkat_fs_wf dfd name flags w r w' :
  sys_unlinkat dfd name flags w = (r, w') -> fs_wf w -> fs_wf w'.
Proof.
  unfold sys_unlinkat. intros H Hwf. destruct (next_fate w) as [ft w1] eqn:F.
  pose proof (next_fate_fs_wf _ _ _ F Hwf) as Hwf1.
  repeat case_match; try (eapply fail_fs_wf; eassumption).
  all: unfold finish in H; inv H;
    eapply fs_wf_delete; [reflexivity | reflexivity | assumption].
Qed.

Lemma sys_renameat_fs_wf d1 old d2 new w r w' :
  sys_renameat d1 old d2 new w = (r, w') -> fs_wf w -> fs_wf w'.
Proof.
  unfold sys_renameat. intros H Hwf. destruct (next_fate w) as [ft w1] eqn:F.
  pose proof (next_fate_fs_wf _ _ _ F Hwf) as Hwf1.
  repeat case_match; try (eapply fail_fs_wf; eassumption);
    try (eapply finish_fs_wf; eassumption).
  all: unfold finish in H; inv H;
    eapply fs_wf_rename; [eassumption | reflexivity | reflexivity | assumption].
Qed.

Lemma BaseFd_dtor_fs_wf h w : fs_wf w -> fs_wf (BaseFd_dtor h w).
Proof.
  unfold BaseFd_dtor. intros Hwf. destruct (0 <=? fd h); [|assumption].
  destruct (sys_close (fd h) w) as [z w1] eqn:C. eapply sys_close_fs_wf; eassumption.
Qed.

Lemma BaseFd_sync_fs_wf h w r h' w' :
  BaseFd_sync (h, w) = (r, (h', w')) -> fs_wf w -> fs_wf w'.
Proof.
  unfold BaseFd_sync. intros H Hwf. destruct (sys_fsync (fd h) w) as [z w1] eqn:S.
  pose proof (sys_fsync_fs_wf _ _ _ _ S Hwf). destruct (z =? -1); inv H; assumption.
Qed.

Lemma BaseFd_close_fs_wf h w r h' w' :
  BaseFd_close (h, w) = (r, (h', w')) -> fs_wf w -> fs_wf w'.
Proof.
  unfold BaseFd_close. intros H Hwf. destruct (0 <=? fd h); [|inv H; assumption].
  destruct (sys_close (fd h) w) as [z w1] eqn:S.
  pose proof (sys_close_fs_wf _ _ _ _ S Hwf). destruct (z =? -1); inv H; assumption.
Qed.

Lemma DirFd_renameFile_fs_wf old new h w r h' w' :
  DirFd_renameFile old new (h, w) = (r, (h', w')) -> fs_wf w -> fs_wf w'.
Proof.
  unfold DirFd_renameFile. intros H Hwf.
  destruct (sys_renameat (fd h) old (fd h) new w) as [z w1] eqn:S.
  pose proof (sys_renameat_fs_wf _ _ _ _ _ _ _ S Hwf). destruct (z =? -1); inv H; assumption.
Qed.

Lemma DirFd_unlink_fs_wf name h w r h' w' :
  DirFd_unlink name (h, w) = (r, (h', w')) -> fs_wf w -> fs_wf w'.
Proof.
  unfold DirFd_unlink. intros H Hwf.
  destruct (sys_unlinkat (fd h) name 0 w) as [z w1] eqn:S.
  pose proof (sys_unlinkat_fs_wf _ _ _ _ _ _ S Hwf).
  destruct ((z =? -1) && negb (errno w1 =? ENOENT)); inv H; assumption.
Qed.

Lemma DirFd_ctor_fs_wf dir w r w' : DirFd_ctor dir w = (r, w') -> fs_wf w -> fs_wf w'.
Proof.
  unfold DirFd_ctor. intros H Hwf.
  destruct (sys_open dir (Z.lor O_RDONLY O_CLOEXEC) w) as [z w1] eqn:S.
  pose proof (sys_open_fs_wf _ _ _ _ _ S Hwf). cbn [fd] in H.
  destruct (z =? -1); inv H; [apply BaseFd_dtor_fs_wf|]; assumption.
Qed.

Lemma WriteFd_ctor_fs_wf dirFd name w r w' :
  WriteFd_ctor dirFd name w = (r, w') -> fs_wf w -> fs_wf w'.
Proof.
  unfold WriteFd_ctor. intros H Hwf.
  destruct (sys_openat (fd dirFd) name work_flags work_mode w) as [z w1] eqn:S.
  pose proof (sys_openat_fs_wf _ _ _ _ _ _ _ S Hwf). cbn [fd] in H.
  destruct (z =? -1); inv H; [apply BaseFd_dtor_fs_wf|]; assumption.
Qed.

Lemma writeAll_loop_fs_wf fuel h data size : forall written w r w',
  writeAll_loop fuel h data size written w = (r, w') -> fs_wf w -> fs_wf w'.
Proof.
  induction fuel as [|fuel IH]; intros written w r w' H Hwf;
    rewrite writeAll_loop_unfold in H;
    destruct (written <? size); try (injection H as <- <-; assumption).
  destruct (sys_write (fd h) _ w) as [z w1] eqn:W.
  pose proof (sys_write_fs_wf _ _ _ _ _ W Hwf).
  destruct (z <? 0); [injection H as <- <-; assumption | eapply IH; eassumption].
Qed.

Lemma WriteFd_writeAll_fs_wf data h w r h' w' :
  WriteFd_writeAll data (h, w) = (r, (h', w')) -> fs_wf w -> fs_wf w'.
Proof.
  unfold WriteFd_writeAll. intros H Hwf.
  destruct (writeAll_loop _ h data _ 0 w) as [r1 w1] eqn:L. injection H as <- <- <-.
  eapply writeAll_loop_fs_wf; eassumption.
Qed.

Ltac wf_exit H :=
  cbv beta iota in H; injection H as <- <-; repeat apply BaseFd_dtor_fs_wf; assumption.

Lemma CommittedFile_cleanup_fs_wf cf w r w' :
  CommittedFile_cleanup cf w = (r, w') -> fs_wf w -> fs_wf w'.
Proof.
  unfold CommittedFile_cleanup, bind. intros H Hwf.
  destruct (DirFd_ctor _ w) as [rd w1] eqn:D.
  pose proof (DirFd_ctor_fs_wf _ _ _ _ D Hwf).
  destruct rd as [dirFd|e|]; try wf_exit H.
  destruct (DirFd_unlink _ _) as [ru [hu wu]] eqn:U.
  pose proof (DirFd_unlink_fs_wf _ _ _ _ _ _ U ltac:(assumption)).
  destruct ru as [[]|e|]; try wf_exit H.
  destruct (BaseFd_close _) as [rc [hc wc]] eqn:C.
  pose proof (BaseFd_close_fs_wf _ _ _ _ _ C ltac:(assumption)).
  wf_exit H.
Qed.

Lemma CommittedFile_write_fs_wf cf data w r w' :
  CommittedFile_write cf data w = (r, w') -> fs_wf w -> fs_wf w'.
Proof.
  unfold CommittedFile_write. intros H Hwf.
  destruct (DirFd_ctor _ w) as [rd w1] eqn:D.
  pose proof (DirFd_ctor_fs_wf _ _ _ _ D Hwf).
  destruct rd as [dirFd|e|]; try wf_exit H.
  destruct (WriteFd_ctor _ _ w1) as [rw w2] eqn:W.
  pose proof (WriteFd_ctor_fs_wf _ _ _ _ _ W ltac:(assumption)).
  destruct rw as [workFd|e|]; try wf_exit H.
  unfold write_steps, bind, on_work, on_dir in H.
  destruct (WriteFd_writeAll data (workFd, w2)) as [ra [ha wa]] eqn:A.
  pose proof (WriteFd_writeAll_fs_wf _ _ _ _ _ _ A ltac:(assumption)).
  destruct ra as [[]|e|]; try wf_exit H.
  destruct (BaseFd_sync (ha, wa)) as [rs [hs ws]] eqn:S.
  pose proof (BaseFd_sync_fs_wf _ _ _ _ _ S ltac:(assumption)).
  destruct rs as [[]|e|]; try wf_exit H.
  destruct (BaseFd_close (hs, ws)) as [rc [hc wc]] eqn:C.
  pose proof (BaseFd_close_fs_wf _ _ _ _ _ C ltac:(assumption)).
  destruct rc as [[]|e|]; try wf_exit H.
  destruct (DirFd_renameFile _ _ (dirFd, wc)) as [rr [hr wr]] eqn:R.
  pose proof (DirFd_renameFile_fs_wf _ _ _ _ _ _ _ R ltac:(assumption)).
  destruct rr as [[]|e|]; try wf_exit H.
  destruct (BaseFd_sync (hr, wr)) as [rds [hds wds]] eqn:DS.
  pose proof (BaseFd_sync_fs_wf _ _ _ _ _ DS ltac:(assumption)).
  destruct rds as [[]|e|]; try wf_exit H.
  destruct (BaseFd_close (hds, wds)) as [rdc [hdc wdc]] eqn:DC.
  pose proof (BaseFd_close_fs_wf _ _ _ _ _ DC ltac:(assumption)).
  wf_exit H.
Qed.

Lemma CommittedFile_ctor_fs_wf path w r w' :
  CommittedFile_ctor path w = (r, w') -> fs_wf w -> fs_wf w'.
Proof.
  intros H. apply CommittedFile_ctor_cleanup in H as [H _].
  eapply CommittedFile_cleanup_fs_wf. eassumption.
Qed.

Lemma writeFile_fs_wf filename out w r out' w' :
  writeFile filename (out, w) = (r, (out', w')) -> fs_wf w -> fs_wf w'.
Proof.
  unfold writeFile. intros H Hwf.
  destruct (CommittedFile_ctor filename w) as [rc w1] eqn:C.
  pose proof (CommittedFile_ctor_fs_wf _ _ _ _ C Hwf) as Hwf1.
  destruct rc as [cf|e|]; try (injection H as <- <- <-; assumption).
  destruct (CommittedFile_write cf (getRandomData w1) w1) as [rw w2] eqn:W.
  pose proof (CommittedFile_write_fs_wf _ _ _ _ _ W Hwf1).
  destruct rw as [[]|e|]; injection H as <- <- <-; assumption.
Qed.

Lemma main_loop_fs_wf filename : forall n out w,
  fs_wf w -> fs_wf (snd (snd (main_loop n filename (out, w)))).
Proof.
  induction n as [|n IH]; intros out w Hwf; cbn [main_loop]; [assumption|].
  destruct (writeFile filename (out, w)) as [r [out' w1]] eqn:W.
  pose proof (writeFile_fs_wf _ _ _ _ _ _ W Hwf) as Hwf1.
  destruct r as [[]|e|]; cbn [snd]; auto.
Qed.

(** X11.  The file table stays well formed: the construction of a
    [CommittedFile], [write] and a whole run of [main] take a file table
    without hard links, whose inode numbers are below the next one to be
    given out, to such a table again, in every outcome. *)
Theorem file_table_stays_well_formed
    (path : string) (cf : CommittedFile) (data : bytes) (argv : list string)
    (out : list Output) (w : World) :
  fs_wf w ->
  fs_wf (snd (CommittedFile_ctor path w)) /\
  fs_wf (snd (CommittedFile_write cf data w)) /\
  fs_wf (snd (snd (main argv (out, w)))).
Proof.
  intros Hwf. split; [|split].
  - destruct (CommittedFile_ctor path w) as [r w'] eqn:E.
    eapply CommittedFile_ctor_fs_wf; eassumption.
  - destruct (CommittedFile_write cf data w) as [r w'] eqn:E.
    eapply CommittedFile_write_fs_wf; eassumption.
  - unfold main, usage. destruct (negb _); [exact Hwf|]. destruct (_ <? 1); [exact Hwf|].
    apply main_loop_fs_wf. exact Hwf.
Qed.

Lemma file_table_stays_well_formed_witness :
  fs_wf full_disk /\
  fs_wf (snd (CommittedFile_ctor "f" full_disk)) /\
  fs_wf (snd (CommittedFile_write target_f ok full_disk)) /\
  fs_wf (snd (snd (main ["fsynctest"; "f"; "2"] ([], full_disk)))).
Proof.
  split; [exact (demo_fs_wf hi _)|].
  exact (file_table_stays_well_formed "f" target_f ok ["fsynctest"; "f"; "2"] [] full_disk
           (demo_fs_wf hi _)).
Defined.

(** ** A failed [write] and the next construction *)

Lemma failed_write_then_cleanup cf data w r1 w1 w2 d :
  fs_wf w ->
  namei (env w) (cwd (env w)) (dirName (filePath cf)) = Some (AtDir d) ->
  CommittedFile_write cf data w = (r1, w1) ->
  quiet w w1 ->
  CommittedFile_cleanup cf w1 = (Ret tt, w2) ->
  contents w2 d (baseName (filePath cf)) = contents w d (baseName (filePath cf)) /\
  contents w2 d (baseName (filePath cf) +:+ ".work") = None /\
  (forall d0 name,
     namei (env w) d0 name <> namei (env w) d (baseName (filePath cf) +:+ ".work") ->
     contents w2 d0 name = contents w d0 name).
Proof.
  intros Hwf N W Hq C.
  pose proof (CommittedFile_write_env _ _ _ _ _ W) as E1.
  destruct (CommittedFile_write_state _ _ _ _ _ _ W N) as (_ & Hst & _).
  assert (Hstage : staged_only w w1 d (baseName (filePath cf) +:+ ".work") data).
  { destruct Hst as [? | (pre & rn & post & Htr & Hrn & Hz)]; [assumption|exfalso].
    apply (quiet_not_renamed w w1 Hq). exists pre, rn, post. split; [assumption|].
    split; assumption. }
  pose proof (CommittedFile_cleanup_spec _ _ _ _ C) as (evs & R & _ & I & _ & Hgone & _).
  pose proof (proj1 R) as E2.
  assert (N1 : namei (env w1) (cwd (env w1)) (dirName (filePath cf)) = Some (AtDir d))
    by (rewrite E1; exact N).
  pose proof (CommittedFile_cleanup_files _ _ _ _ d C N1) as F.
  assert (Hframe : forall d0 name,
            namei (env w) d0 name <> namei (env w) d (baseName (filePath cf) +:+ ".work") ->
            contents w2 d0 name = contents w d0 name).
  { intros d0 name Hne.
    rewrite <- (staged_only_frame w w1 d _ data d0 name Hwf E1 Hstage Hne).
    eapply cleanup_frame; [exact E2 | exact I | exact F|]. rewrite E1. exact Hne. }
  split; [|split; [|exact Hframe]].
  - destruct (namei (env w) d (baseName (filePath cf))) as [[?|d2 n2|? ?]|] eqn:Nb.
    2: { apply Hframe. rewrite Nb. intros Eq. symmetry in Eq.
         exact (work_name_differs _ _ _ _ _ _ _ Eq Nb eq_refl). }
    all: unfold contents, entry; rewrite E2, E1, Nb; reflexivity.
  - unfold contents. rewrite (Hgone eq_refl d N1). reflexivity.
Qed.

(** X12.  Recovery.  In a well-formed file table, when [write] fails before
    its rename goes through and a [CommittedFile] is then constructed for
    the same path, the work name is gone and the target name, like every
    name other than the work name, holds what it held before the failed
    [write]. *)
Theorem construction_recovers_failed_write
    (cf cf' : CommittedFile) (data : bytes) (w w1 w2 : World) (d : nat)
    (e : system_error) :
  fs_wf w ->
  namei (env w) (cwd (env w)) (dirName (filePath cf)) = Some (AtDir d) ->
  CommittedFile_write cf data w = (Throw e, w1) ->
  quiet w w1 ->
  CommittedFile_ctor (filePath cf) w1 = (Ret cf', w2) ->
  contents w2 d (baseName (filePath cf)) = contents w d (baseName (filePath cf)) /\
  contents w2 d (baseName (filePath cf) +:+ ".work") = None /\
  (forall d0 name,
     namei (env w) d0 name <> namei (env w) d (baseName (filePath cf) +:+ ".work") ->
     contents w2 d0 name = contents w d0 name).
Proof.
  intros Hwf N W Hq C. apply CommittedFile_ctor_cleanup in C as [C _]. cbn [forget] in C.
  destruct cf as [path]. cbn [filePath] in *.
  exact (failed_write_then_cleanup {| filePath := path |} data w _ w1 w2 d Hwf N W Hq C).
Qed.

Lemma construction_recovers_failed_write_witness :
  fs_wf full_disk /\
  namei (env full_disk) (cwd (env full_disk)) (dirName (filePath target_f))
  = Some (AtDir 0%nat) /\
  quiet full_disk (snd (CommittedFile_write target_f ok full_disk)) /\
  contents (snd (CommittedFile_ctor (filePath target_f)
                   (snd (CommittedFile_write target_f ok full_disk))))
    0%nat (baseName (filePath target_f))
  = contents full_disk 0%nat (baseName (filePath target_f)) /\
  contents (snd (CommittedFile_ctor (filePath target_f)
                   (snd (CommittedFile_write target_f ok full_disk))))
    0%nat (baseName (filePath target_f) +:+ ".work")
  = None.
Proof.
  assert (N : namei (env full_disk) (cwd (env full_disk)) (dirName (filePath target_f))
              = Some (AtDir 0%nat)) by (vm_compute; reflexivity).
  assert (Q : quiet full_disk (snd (CommittedFile_write target_f ok full_disk))).
  { let l := eval vm_compute in (trace (snd (CommittedFile_write target_f ok full_disk))) in
    assert (E : trace (snd (CommittedFile_write target_f ok full_disk)) = l)
      by (vm_compute; reflexivity).
    unfold quiet. rewrite E. eexists. split; [reflexivity|].
    repeat constructor; intros [(d1 & old & d2 & new & Hc) _]; discriminate Hc. }
  assert (T : exists e, fst (CommittedFile_write target_f ok full_disk) = Throw e).
  { let r := eval vm_compute in (fst (CommittedFile_write target_f ok full_disk)) in
    match r with
    | Throw ?e => exists e; vm_compute; reflexivity
    end. }
  destruct T as [e He].
  assert (W : CommittedFile_write target_f ok full_disk
              = (Throw e, snd (CommittedFile_write target_f ok full_disk)))
    by (rewrite <- He; apply surjective_pairing).
  assert (C : CommittedFile_ctor (filePath target_f)
                (snd (CommittedFile_write target_f ok full_disk))
              = (Ret target_f,
                 snd (CommittedFile_ctor (filePath target_f)
                        (snd (CommittedFile_write target_f ok full_disk)))))
    by (vm_compute; reflexivity).
  destruct (construction_recovers_failed_write target_f target_f ok full_disk _ _ 0%nat e
              (demo_fs_wf hi _) N W Q C) as (A & B & _).
  split; [exact (demo_fs_wf hi _)|]. split; [exact N|]. split; [exact Q|].
  split; [exact A | exact B].
Defined.

(** ** The target is old or new, never in between *)

Lemma target_old_or_new cf data w r w' d :
  fs_wf w ->
  namei (env w) (cwd (env w)) (dirName (filePath cf)) = Some (AtDir d) ->
  CommittedFile_write cf data w = (r, w') ->
  (quiet w w' /\ (exists e, r = Throw e) /\
   contents w' d (baseName (filePath cf)) = contents w d (baseName (filePath cf)))
  \/ (renamed_in w w' /\ contents w' d (baseName (filePath cf)) = Some data).
Proof.
  intros Hwf N H.
  pose proof (CommittedFile_write_env _ _ _ _ _ H) as E.
  destruct (CommittedFile_write_phases _ _ _ _ _ _ H N Hwf)
    as [[Hq Hthrow] | [Hrn (d1 & n1 & d2 & n2 & i & Nw & Nb & Hn & F & Hd & Ho & Hi)]].
  - left. split; [assumption|]. split; [assumption|].
    destruct (CommittedFile_write_state _ _ _ _ _ _ H N) as (_ & Hst & _).
    assert (Hstage : staged_only w w' d (baseName (filePath cf) +:+ ".work") data).
    { destruct Hst as [? | (pre & rn & post & Htr & Hr & Hz)]; [assumption|exfalso].
      apply (quiet_not_renamed w w' Hq). exists pre, rn, post. split; [assumption|].
      split; assumption. }
    destruct (namei (env w) d (baseName (filePath cf))) as [[?|d2 n2|? ?]|] eqn:Nb.
    2: { eapply staged_only_frame; [eassumption | eassumption | eassumption|].
         rewrite Nb. intros Eq. symmetry in Eq.
         exact (work_name_differs _ _ _ _ _ _ _ Eq Nb eq_refl). }
    all: unfold contents, entry; rewrite E, Nb; reflexivity.
  - right. split; [assumption|].
    exact (proj1 (renamed_contents w w' d _ _ data d1 n1 d2 n2 i Hwf E Nw Nb Hn F Hd Ho Hi)).
Qed.

(** X13.  All or nothing.  In a well-formed file table, whatever happens to
    a [write], the target name afterwards holds either exactly what it held
    before or exactly the whole payload: the former when no rename went
    through (and then [write] throws), the latter when one did; it never
    holds a part of the payload or a mixture. *)
Theorem target_is_old_or_new
    (cf : CommittedFile) (data : bytes) (w : World) (d : nat) (r : Res unit) (w' : World) :
  fs_wf w ->
  namei (env w) (cwd (env w)) (dirName (filePath cf)) = Some (AtDir d) ->
  CommittedFile_write cf data w = (r, w') ->
  (contents w' d (baseName (filePath cf)) = contents w d (baseName (filePath cf))
   \/ contents w' d (baseName (filePath cf)) = Some data) /\
  (quiet w w' ->
   contents w' d (baseName (filePath cf)) = contents w d (baseName (filePath cf))
   /\ exists e, r = Throw e) /\
  (renamed_in w w' -> contents w' d (baseName (filePath cf)) = Some data) /\
  (quiet w w' \/ renamed_in w w').
Proof.
  intros Hwf N H.
  destruct (target_old_or_new _ _ _ _ _ _ Hwf N H) as [(Hq & Ht & Hc) | (Hr & Hc)].
  - split; [left; assumption|]. split; [intros _; split; assumption|].
    split; [|left; assumption].
    intros Hr. exfalso. eapply quiet_not_renamed; eassumption.
  - split; [right; assumption|]. split; [|split; [intros _; assumption | right; assumption]].
    intros Hq. exfalso. eapply quiet_not_renamed; eassumption.
Qed.

Lemma target_is_old_or_new_witness :
  fs_wf full_disk /\
  namei (env full_disk) (cwd (env full_disk)) (dirName (filePath target_f))
  = Some (AtDir 0%nat) /\
  (contents (snd (CommittedFile_write target_f ok full_disk)) 0%nat
     (baseName (filePath target_f))
   = contents full_disk 0%nat (baseName (filePath target_f))
   \/ contents (snd (CommittedFile_write target_f ok full_disk)) 0%nat
        (baseName (filePath target_f))
      = Some ok).
Proof.
  assert (N : namei (env full_disk) (cwd (env full_disk)) (dirName (filePath target_f))
              = Some (AtDir 0%nat)) by (vm_compute; reflexivity).
  split; [exact (demo_fs_wf hi _)|]. split; [exact N|].
  exact (proj1 (target_is_old_or_new target_f ok full_disk 0%nat _ _
                  (demo_fs_wf hi _) N (surjective_pairing _))).
Defined.

Import Reports.

(** ** A missing parent directory *)

Lemma sys_open_missing dir w r w' d n :
  namei (env w) (cwd (env w)) dir = Some (AtName d n) -> files w !! (d, n) = None ->
  sys_open dir (Z.lor O_RDONLY O_CLOEXEC) w = (r, w') ->
  r = -1 /\
  (errno w' = ENOENT \/ exists f s, sched w = Fails f :: s /\ errno w' = fault_errno f).
Proof.
  unfold sys_open, open_from. intros N L H.
  destruct (next_fate w) as [ft w1] eqn:F. pose proof F as F'. fate_split.
  rewrite Henv, N, Hfi, L in H.
  change (has_flag (Z.lor O_RDONLY O_CLOEXEC) O_CREAT) with false in H.
  destruct ft as [|f|k]; apply fail_one in H as (-> & _ & _ & _ & He & _);
    (split; [reflexivity|]); auto.
  right. unfold next_fate in F. destruct (sched w) as [|ft s]; [discriminate|].
  injection F as -> _. eauto.
Qed.

Lemma DirFd_ctor_missing dir w rd w' d n :
  namei (env w) (cwd (env w)) dir = Some (AtName d n) -> files w !! (d, n) = None ->
  DirFd_ctor dir w = (rd, w') ->
  (exists e, rd = Throw e) /\ reports_open_failure dir w (forget rd) w'.
Proof.
  intros N L D.
  pose proof (DirFd_ctor_step _ _ _ _ D) as (op & R & Cop & Eop & Sop & Hop).
  destruct (sys_open_missing _ _ _ _ _ _ N L Sop) as [Z1 He].
  pose proof (sys_open_rdonly _ _ _ _ Sop) as (F & I & _ & Hbad & _).
  destruct Hop as [(_ & ->) | (Z0 & _)]; [|lia].
  split; [eexists; reflexivity|].
  eexists. exists op. split; [reflexivity|]. split; [apply R|]. split; [assumption|].
  split; [assumption|]. split; [reflexivity|]. split; [reflexivity|].
  rewrite Eop. split; [exact He|]. split; [assumption|]. split; [assumption|]. auto.
Qed.

(** X14.  A missing parent directory is reported, not created.  When the
    directory part of the path names nothing, the construction of a
    [CommittedFile] and [write] make one system call, the [open] of the
    directory, and throw its error, [ENOENT] unless another failure was
    scheduled for that call, with the message of the form for [open] and the
    directory; no file and no descriptor is changed. *)
Theorem missing_parent_is_reported
    (path : string) (data : bytes) (w : World) (d : nat) (n : string) :
  namei (env w) (cwd (env w)) (dirName path) = Some (AtName d n) ->
  files w !! (d, n) = None ->
  (forall rc w', CommittedFile_ctor path w = (rc, w') ->
     reports_open_failure (dirName path) w (forget rc) w') /\
  (forall r w', CommittedFile_write {| filePath := path |} data w = (r, w') ->
     reports_open_failure (dirName path) w r w').
Proof.
  intros N L. split.
  - intros rc w' C. apply CommittedFile_ctor_cleanup in C as [C _].
    unfold CommittedFile_cleanup in C. cbn [filePath] in C.
    destruct (DirFd_ctor (dirName path) w) as [rd w1] eqn:D.
    destruct (DirFd_ctor_missing _ _ _ _ _ _ N L D) as [(e & ->) Hrep].
    injection C as C1 <-. rewrite <- C1. exact Hrep.
  - intros r w' W. unfold CommittedFile_write in W. cbn [filePath] in W.
    destruct (DirFd_ctor (dirName path) w) as [rd w1] eqn:D.
    destruct (DirFd_ctor_missing _ _ _ _ _ _ N L D) as [(e & ->) Hrep].
    injection W as <- <-. exact Hrep.
Qed.

Lemma missing_parent_is_reported_witness :
  namei (env (demo_world [])) (cwd (env (demo_world []))) (dirName "nodir/f")
  = Some (AtName 0%nat "nodir") /\
  files (demo_world []) !! (0%nat, "nodir") = None /\
  reports_open_failure (dirName "nodir/f") (demo_world [])
    (fst (CommittedFile_write {| filePath := "nodir/f" |} hi (demo_world [])))
    (snd (CommittedFile_write {| filePath := "nodir/f" |} hi (demo_world []))).
Proof.
  assert (N : namei (env (demo_world [])) (cwd (env (demo_world []))) (dirName "nodir/f")
              = Some (AtName 0%nat "nodir")) by (vm_compute; reflexivity).
  assert (L : files (demo_world []) !! (0%nat, "nodir") = None) by reflexivity.
  split; [exact N|]. split; [exact L|].
  exact (proj2 (missing_parent_is_reported "nodir/f" hi (demo_world []) 0%nat "nodir" N L)
           _ _ (surjective_pairing _)).
Defined.

Import Samples3.

(** ** A [write] call that accepts nothing *)

Lemma sys_write_zero fd buf w i pos rd s :
  sched w = Short 0 :: s ->
  fdtab w !! fd = Some (OFile i pos rd true) ->
  exists w1,
    sys_write fd buf w = (0, w1) /\
    trace w1 = trace w ++ [{| ev_call := CWrite fd buf; ev_ret := 0; ev_errno := errno w |}] /\
    sched w1 = s /\ errno w1 = errno w /\
    fdtab w1 !! fd = Some (OFile i pos rd true) /\
    default [] (inodes w1 !! i) = default [] (inodes w !! i).
Proof.
  intros Hs Hfd. unfold sys_write, next_fate. rewrite Hs. cbn [fdtab set_sched].
  rewrite Hfd. cbn [Nat.min take length write_at]. rewrite Nat.add_0_r.
  eexists. split; [reflexivity|]. cbn.
  split; [reflexivity|]. split; [reflexivity|]. split; [reflexivity|].
  rewrite !lookup_insert_eq. split; reflexivity.
Qed.

Lemma WriteFd_writeAll_zero data h w i pos rd s :
  data <> [] ->
  sched w = Short 0 :: s ->
  fdtab w !! fd h = Some (OFile i pos rd true) ->
  exists w1,
    trace w1 = trace w ++ [{| ev_call := CWrite (fd h) data; ev_ret := 0;
                              ev_errno := errno w |}] /\
    sched w1 = s /\ errno w1 = errno w /\
    fdtab w1 !! fd h = Some (OFile i pos rd true) /\
    default [] (inodes w1 !! i) = default [] (inodes w !! i) /\
    WriteFd_writeAll data (h, w) = WriteFd_writeAll data (h, w1).
Proof.
  intros Hne Hs Hfd.
  destruct (sys_write_zero (fd h) data w i pos rd s Hs Hfd)
    as (w1 & W & Htr & Hs1 & He & Hfd1 & Hin).
  exists w1. repeat (split; [assumption|]).
  unfold WriteFd_writeAll, writeAll_fuel. rewrite Hs, Hs1. cbn [length].
  rewrite Nat.add_succ_r, writeAll_loop_unfold.
  assert (Hlen : (0 <? Z.of_nat (length data)) = true).
  { apply Z.ltb_lt. destruct data; [congruence | cbn [length]; lia]. }
  rewrite Hlen.
  change (Z.to_nat 0) with 0%nat. rewrite Z.sub_0_r, Nat2Z.id, drop_0, firstn_all, W.
  reflexivity.
Qed.

Lemma writeAll_retries h data i pos rd s : forall k w,
  data <> [] ->
  fdtab w !! fd h = Some (OFile i pos rd true) ->
  sched w = repeat (Short 0) k ++ s ->
  exists w1,
    trace w1 = trace w ++ repeat {| ev_call := CWrite (fd h) data; ev_ret := 0;
                                    ev_errno := errno w |} k /\
    sched w1 = s /\ errno w1 = errno w /\
    fdtab w1 !! fd h = Some (OFile i pos rd true) /\
    default [] (inodes w1 !! i) = default [] (inodes w !! i) /\
    WriteFd_writeAll data (h, w) = WriteFd_writeAll data (h, w1).
Proof.
  induction k as [|k IH]; intros w Hne Hfd Hs.
  - exists w. cbn [repeat app] in *. rewrite app_nil_r.
    split; [reflexivity|]. split; [assumption|]. split; [reflexivity|].
    split; [assumption|]. split; reflexivity.
  - cbn [repeat app] in Hs.
    destruct (WriteFd_writeAll_zero data h w i pos rd _ Hne Hs Hfd)
      as (w1 & Htr1 & Hs1 & He1 & Hfd1 & Hin1 & Heq1).
    destruct (IH w1 Hne Hfd1 Hs1) as (w2 & Htr2 & Hs2 & He2 & Hfd2 & Hin2 & Heq2).
    exists w2. split.
    { rewrite Htr2, Htr1, He1, <- app_assoc. reflexivity. }
    split; [assumption|]. split; [congruence|]. split; [assumption|].
    split; [congruence|]. congruence.
Qed.

(** X15.  A [write] call that returns 0 is neither an error nor the end:
    [writeAll] calls [write] again with the same buffer.  When the kernel
    accepts nothing [k] times, [writeAll] makes [k] calls that change
    nothing and then goes on exactly as if it had been called afresh. *)
Theorem writeAll_retries_after_zero
    (h : BaseFd) (data : bytes) (w : World) (i pos : nat) (rd : bool)
    (k : nat) (s : list fate) :
  data <> [] ->
  fdtab w !! fd h = Some (OFile i pos rd true) ->
  sched w = repeat (Short 0) k ++ s ->
  exists w1,
    trace w1 = trace w ++ repeat {| ev_call := CWrite (fd h) data; ev_ret := 0;
                                    ev_errno := errno w |} k /\
    sched w1 = s /\
    fdtab w1 !! fd h = Some (OFile i pos rd true) /\
    default [] (inodes w1 !! i) = default [] (inodes w !! i) /\
    WriteFd_writeAll data (h, w) = WriteFd_writeAll data (h, w1).
Proof.
  intros Hne Hfd Hs.
  destruct (writeAll_retries h data i pos rd s k w Hne Hfd Hs)
    as (w1 & Htr & Hs1 & _ & Hfd1 & Hin & Heq).
  exists w1. repeat (split; [assumption|]). assumption.
Qed.

Lemma writeAll_retries_after_zero_witness :
  ok <> [] /\
  fdtab stalled !! fd demo_handle = Some (OFile 0 0 false true) /\
  sched stalled = repeat (Short 0) 2 ++ [] /\
  exists w1,
    trace w1 = trace stalled ++ repeat {| ev_call := CWrite (fd demo_handle) ok; ev_ret := 0;
                                          ev_errno := errno stalled |} 2 /\
    sched w1 = [] /\
    fdtab w1 !! fd demo_handle = Some (OFile 0 0 false true) /\
    default [] (inodes w1 !! 0%nat) = default [] (inodes stalled !! 0%nat) /\
    WriteFd_writeAll ok (demo_handle, stalled) = WriteFd_writeAll ok (demo_handle, w1).
Proof.
  assert (H1 : ok <> []) by discriminate.
  assert (H2 : fdtab stalled !! fd demo_handle = Some (OFile 0 0 false true))
    by (vm_compute; reflexivity).
  assert (H3 : sched stalled = repeat (Short 0) 2 ++ []) by (vm_compute; reflexivity).
  split; [exact H1|]. split; [exact H2|]. split; [exact H3|].
  exact (writeAll_retries_after_zero demo_handle ok stalled 0%nat 0%nat false 2 [] H1 H2 H3).
Defined.

(** ** What a reader sees after a [write] *)

Lemma contents_resolves_alike w d1 p1 d2 p2 :
  namei (env w) d1 p1 = namei (env w) d2 p2 -> contents w d1 p1 = contents w d2 p2.
Proof. intros H. unfold contents, entry. rewrite H. reflexivity. Qed.

Lemma read_after_write cf data w r w' d old :
  fs_wf w ->
  filePath cf <> EmptyString -> ends_with_slash (filePath cf) = false ->
  namei (env w) (cwd (env w)) (dirName (filePath cf)) = Some (AtDir d) ->
  contents w (cwd (env w)) (filePath cf) = Some old ->
  CommittedFile_write cf data w = (r, w') ->
  (quiet w w' /\ contents w' (cwd (env w')) (filePath cf) = Some old
   \/ renamed_in w w' /\ contents w' (cwd (env w')) (filePath cf) = Some data) /\
  (sched w' = [] ->
   exists w'', CommittedFile_read cf w' = (Ret old, w'')
               \/ CommittedFile_read cf w' = (Ret data, w'')).
Proof.
  intros Hwf Hne He N Hold H.
  pose proof (CommittedFile_write_env _ _ _ _ _ H) as E.
  pose proof (split_resolves _ _ _ _ Hne He N) as Hsame.
  assert (Hc' : contents w' (cwd (env w')) (filePath cf)
                = contents w' d (baseName (filePath cf))).
  { apply contents_resolves_alike. rewrite E. exact Hsame. }
  assert (Hc : contents w (cwd (env w)) (filePath cf)
               = contents w d (baseName (filePath cf)))
    by (apply contents_resolves_alike; exact Hsame).
  assert (Hcases : quiet w w' /\ contents w' (cwd (env w')) (filePath cf) = Some old
                   \/ renamed_in w w' /\
                      contents w' (cwd (env w')) (filePath cf) = Some data).
  { destruct (target_old_or_new _ _ _ _ _ _ Hwf N H) as [(Hq & _ & Ht) | (Hr & Ht)].
    - left. split; [assumption|]. rewrite Hc', Ht, <- Hc. exact Hold.
    - right. split; [assumption|]. rewrite Hc'. exact Ht. }
  split; [exact Hcases|]. intros S0.
  unfold CommittedFile_read. destruct (readFile (filePath cf) w') as [rr w''] eqn:R.
  pose proof (readFile_inv _ _ _ _ R) as (_ & _ & _ & _ & _ & Hfree).
  exists w''. destruct Hcases as [[_ Hx] | [_ Hx]]; [left | right];
    rewrite (Hfree S0 _ Hx); reflexivity.
Qed.

(** X16.  A reader never sees a partial write.  In a well-formed file
    table, for a path that does not end in a slash and names a file with
    contents [old], after a [write] of [data] in whatever way it ended the
    path names either [old] (no rename went through) or [data] (one did),
    and a [read] that meets no failure returns that one of the two. *)
Theorem reader_sees_old_or_new
    (cf : CommittedFile) (data old : bytes) (w : World) (d : nat)
    (r : Res unit) (w' : World) :
  fs_wf w ->
  filePath cf <> EmptyString ->
  ends_with_slash (filePath cf) = false ->
  namei (env w) (cwd (env w)) (dirName (filePath cf)) = Some (AtDir d) ->
  contents w (cwd (env w)) (filePath cf) = Some old ->
  CommittedFile_write cf data w = (r, w') ->
  (quiet w w' /\ contents w' (cwd (env w')) (filePath cf) = Some old
   \/ renamed_in w w' /\ contents w' (cwd (env w')) (filePath cf) = Some data) /\
  (sched w' = [] ->
   exists w'', CommittedFile_read cf w' = (Ret old, w'')
               \/ CommittedFile_read cf w' = (Ret data, w'')).
Proof. exact (read_after_write cf data w r w' d old). Qed.

Lemma reader_sees_old_or_new_witness :
  fs_wf full_disk /\
  filePath target_f <> EmptyString /\
  ends_with_slash (filePath target_f) = false /\
  namei (env full_disk) (cwd (env full_disk)) (dirName (filePath target_f))
  = Some (AtDir 0%nat) /\
  contents full_disk (cwd (env full_disk)) (filePath target_f) = Some hi /\
  sched (snd (CommittedFile_write target_f ok full_disk)) = [] /\
  exists w'',
    CommittedFile_read target_f (snd (CommittedFile_write target_f ok full_disk))
    = (Ret hi, w'')
    \/ CommittedFile_read target_f (snd (CommittedFile_write target_f ok full_disk))
       = (Ret ok, w'').
Proof.
  assert (H1 : filePath target_f <> EmptyString) by discriminate.
  assert (H2 : ends_with_slash (filePath target_f) = false) by reflexivity.
  assert (N : namei (env full_disk) (cwd (env full_disk)) (dirName (filePath target_f))
              = Some (AtDir 0%nat)) by (vm_compute; reflexivity).
  assert (C : contents full_disk (cwd (env full_disk)) (filePath target_f) = Some hi)
    by (vm_compute; reflexivity).
  assert (S0 : sched (snd (CommittedFile_write target_f ok full_disk)) = [])
    by (vm_compute; reflexivity).
  split; [exact (demo_fs_wf hi _)|]. split; [exact H1|]. split; [exact H2|].
  split; [exact N|]. split; [exact C|]. split; [exact S0|].
  exact (proj2 (reader_sees_old_or_new target_f ok hi full_disk 0%nat _ _
                  (demo_fs_wf hi _) H1 H2 N C (surjective_pairing _)) S0).
Defined.

(** ** The old file is never written *)

Lemma old_inode_kept cf data w r w' d d2 n2 j :
  fs_wf w ->
  namei (env w) (cwd (env w)) (dirName (filePath cf)) = Some (AtDir d) ->
  namei (env w) d (baseName (filePath cf)) = Some (AtName d2 n2) ->
  files w !! (d2, n2) = Some j ->
  CommittedFile_write cf data w = (r, w') ->
  inodes w' !! j = inodes w !! j.
Proof.
  intros Hwf N Nb Lj H. pose proof Hwf as [Hfresh Hlinks].
  assert (Hother : forall d1 n1 i,
            namei (env w) d (baseName (filePath cf) +:+ ".work") = Some (AtName d1 n1) ->
            files w !! (d1, n1) = Some i \/ i = next_ino w -> j <> i).
  { intros d1 n1 i Nw [Li | ->].
    - intros ->. assert ((d1, n1) = (d2, n2)) by (eapply Hlinks; eassumption).
      apply (work_name_differs _ _ _ _ _ _ _ Nw Nb). congruence.
    - specialize (Hfresh _ _ Lj). lia. }
  destruct (CommittedFile_write_phases _ _ _ _ _ _ H N Hwf)
    as [[Hq _] | [_ (d1 & n1 & d2' & n2' & i & Nw & _ & _ & _ & _ & Ho & Hi)]].
  - destruct (CommittedFile_write_state _ _ _ _ _ _ H N) as (_ & Hst & _).
    destruct Hst as [[[_ I] | (d1 & n1 & i & k & Nw & Hf & _ & Ho)] | (pre & rn & post & Htr & Hr & Hz)].
    + rewrite I. reflexivity.
    + apply Ho. eapply Hother; [eassumption|].
      destruct Hf as [(L & _) | (_ & -> & _)]; auto.
    + exfalso. apply (quiet_not_renamed w w' Hq). exists pre, rn, post.
      split; [assumption|]. split; assumption.
  - apply Ho. eapply Hother; eassumption.
Qed.

(** X17.  The old file is never written.  In a well-formed file table, the
    inode that the target name is bound to before a [write] has the same
    contents afterwards, in every outcome: the payload goes to the inode of
    the work name, and the rename only moves names. *)
Theorem old_file_is_never_written
    (cf : CommittedFile) (data : bytes) (w : World) (d d2 : nat) (n2 : string)
    (j : nat) (r : Res unit) (w' : World) :
  fs_wf w ->
  namei (env w) (cwd (env w)) (dirName (filePath cf)) = Some (AtDir d) ->
  namei (env w) d (baseName (filePath cf)) = Some (AtName d2 n2) ->
  files w !! (d2, n2) = Some j ->
  CommittedFile_write cf data w = (r, w') ->
  inodes w' !! j = inodes w !! j.
Proof. exact (old_inode_kept cf data w r w' d d2 n2 j). Qed.

Lemma old_file_is_never_written_witness :
  fs_wf (demo_world_with hi []) /\
  namei (env (demo_world_with hi [])) (cwd (env (demo_world_with hi [])))
    (dirName (filePath target_f)) = Some (AtDir 0%nat) /\
  namei (env (demo_world_with hi [])) 0%nat (baseName (filePath target_f))
  = Some (AtName 0%nat "f") /\
  files (demo_world_with hi []) !! (0%nat, "f") = Some 0%nat /\
  inodes (snd (CommittedFile_write target_f ok (demo_world_with hi []))) !! 0%nat
  = inodes (demo_world_with hi []) !! 0%nat.
Proof.
  assert (N : namei (env (demo_world_with hi [])) (cwd (env (demo_world_with hi [])))
                (dirName (filePath target_f)) = Some (AtDir 0%nat))
    by (vm_compute; reflexivity).
  assert (Nb : namei (env (demo_world_with hi [])) 0%nat (baseName (filePath target_f))
               = Some (AtName 0%nat "f")) by (vm_compute; reflexivity).
  assert (L : files (demo_world_with hi []) !! (0%nat, "f") = Some 0%nat)
    by (vm_compute; reflexivity).
  split; [exact (demo_fs_wf hi [])|]. split; [exact N|]. split; [exact Nb|].
  split; [exact L|].
  exact (old_file_is_never_written target_f ok (demo_world_with hi []) 0%nat 0%nat
           "f" 0%nat _ _ (demo_fs_wf hi []) N Nb L (surjective_pairing _)).
Defined.
